(** * Snake-and-ladder game: the game state store, the hazard generator and
      the persistence codec, embedded from the TypeScript sources.

    - [src/app/models/*.model.ts]           : the records and the factories
    - [src/app/services/game.service.ts]    : the state store and its transitions
    - [src/app/utils/board-layout.util.ts]  : the board, the dice result and
                                              the random hazard generator
    - [src/app/services/storage.service.ts] : the localStorage codec
    - the notification service              : what is on display, and its timers
    - [src/app/components/leaderboard], [.../player-setup],
      [.../dice-configuration], [.../game-main] : the ranking, the set-up
                                              form and the two dice forms

    Numbers that the program only ever uses as integers (positions, turn
    orders, rounds, dice faces) are [Z].  A value of [Math.random()] is a
    rational of [[0, 1)], and arithmetic on it is exact.  A thrown exception
    is an [Err] result; the store's slot is left as it was when an operation
    throws. *)

From Stdlib Require Import ZArith QArith Qround Lia Ascii.
From stdpp Require Import base decidable option list gmap strings sorting pretty.

Local Open Scope Z_scope.

(** ** Exceptions and results *)

Inductive Exception :=
| NotInitializedError                      (* Error('Cannot ...: game not initialized') *)
| PlayerNotFoundError (playerId : string)  (* Error(`Player with ID ${playerId} not found`) *)
| NotAtPosition100Error (name : string)    (* Error(`Player ${name} is not at position 100`) *)
| InvalidMaxPointsError                    (* Error(`Invalid max points: ...`) *)
| InvalidPlayerCountError (count : Z)
| InvalidPositionError (position : Z)
| InvalidSnakeError (startPosition endPosition : Z)
| InvalidLadderError (startPosition endPosition : Z)
| DuplicateStartPositionError (position : Z)
| TypeError (what : string)
| RangeError (what : string)
| SyntaxError
| CorruptedStateError (reason : string).

Inductive Result (A : Type) :=
| Ok (a : A)
| Err (e : Exception).
Arguments Ok {A} a.
Arguments Err {A} e.

Global Instance Result_bind : MBind Result := fun A B k r =>
  match r with
  | Ok a => k a
  | Err e => Err e
  end.

(** ** Dates

    A JavaScript [Date] holds a time value, an integral number of
    milliseconds since the epoch, or is the Invalid Date. *)

Inductive Date :=
| TimeValue (ms : Z)
| InvalidDate.

(** ** The models *)

Record Player := mkPlayer {
  id : string;
  name : string;
  color : string;
  teamId : option string;        (* teamId?: string *)
  teamColor : option string;     (* teamColor?: string *)
  position : Z;
  isFinished : bool;
  finishTime : option Date;      (* finishTime?: Date *)
  turnOrder : Z
}.

Record Team := mkTeam {
  team_id : string;
  team_name : string;
  team_color : string
}.

Inductive HazardType := snake | ladder.

Record SnakeOrLadder := mkSnakeOrLadder {
  sl_id : string;
  type : HazardType;
  startPosition : Z;
  endPosition : Z
}.

Inductive MapType := random | fixed.

(** [pendingMaxPoints?: number | null]: the key may be missing, hold
    [null], or hold a number. *)
Inductive Pending :=
| PendingUndefined
| PendingNull
| PendingValue (v : Z).

Record DiceConfiguration := mkDiceConfiguration {
  maxPoints : Z;
  pendingMaxPoints : Pending
}.

Record GameState := mkGameState {
  gameId : string;
  players : list Player;
  teams : list Team;
  snakesAndLadders : list SnakeOrLadder;
  mapType : MapType;
  currentDiceRollerId : string;
  selectedTargetId : option string;      (* string | null *)
  lastDiceResult : option Z;             (* number | null *)
  diceConfig : DiceConfiguration;
  currentRound : Z;
  turnsInCurrentRound : Z;
  isGameStarted : bool;
  isGameFinished : bool;
  showTokenForPlayerId : option string;  (* string | null *)
  winningPositions : list Z;
  createdAt : Date;
  lastUpdatedAt : Date
}.

Global Instance Date_eq_dec : EqDecision Date.
Proof. solve_decision. Defined.
Global Instance HazardType_eq_dec : EqDecision HazardType.
Proof. solve_decision. Defined.
Global Instance Pending_eq_dec : EqDecision Pending.
Proof. solve_decision. Defined.
Global Instance Player_eq_dec : EqDecision Player.
Proof. solve_decision. Defined.
Global Instance SnakeOrLadder_eq_dec : EqDecision SnakeOrLadder.
Proof. solve_decision. Defined.

(** The field readers that function arguments of the same name shadow. *)
Definition GameState_winningPositions : GameState -> list Z := winningPositions.
Definition Hazard_startPosition : SnakeOrLadder -> Z := startPosition.

(** Record updates ([{ ...player, position: p }] and the like). *)

Definition with_position (p : Player) (v : Z) : Player :=
  mkPlayer (id p) (name p) (color p) (teamId p) (teamColor p) v
           (isFinished p) (finishTime p) (turnOrder p).

Definition with_finished (p : Player) (t : Date) : Player :=
  mkPlayer (id p) (name p) (color p) (teamId p) (teamColor p) (position p)
           true (Some t) (turnOrder p).

Definition with_players (s : GameState) (ps : list Player) : GameState :=
  mkGameState (gameId s) ps (teams s) (snakesAndLadders s) (mapType s)
    (currentDiceRollerId s) (selectedTargetId s) (lastDiceResult s)
    (diceConfig s) (currentRound s) (turnsInCurrentRound s)
    (isGameStarted s) (isGameFinished s) (showTokenForPlayerId s)
    (winningPositions s) (createdAt s) (lastUpdatedAt s).

Definition with_lastUpdatedAt (s : GameState) (t : Date) : GameState :=
  mkGameState (gameId s) (players s) (teams s) (snakesAndLadders s) (mapType s)
    (currentDiceRollerId s) (selectedTargetId s) (lastDiceResult s)
    (diceConfig s) (currentRound s) (turnsInCurrentRound s)
    (isGameStarted s) (isGameFinished s) (showTokenForPlayerId s)
    (winningPositions s) (createdAt s) t.

Definition with_diceConfig (s : GameState) (c : DiceConfiguration) : GameState :=
  mkGameState (gameId s) (players s) (teams s) (snakesAndLadders s) (mapType s)
    (currentDiceRollerId s) (selectedTargetId s) (lastDiceResult s)
    c (currentRound s) (turnsInCurrentRound s)
    (isGameStarted s) (isGameFinished s) (showTokenForPlayerId s)
    (winningPositions s) (createdAt s) (lastUpdatedAt s).

(** The fields [nextTurn] rewrites in one object literal. *)
Definition with_turn (s : GameState) (roller : string) (turns round : Z)
    (c : DiceConfiguration) : GameState :=
  mkGameState (gameId s) (players s) (teams s) (snakesAndLadders s) (mapType s)
    roller None None c round turns
    (isGameStarted s) (isGameFinished s) (showTokenForPlayerId s)
    (winningPositions s) (createdAt s) (lastUpdatedAt s).

(** ** Array built-ins *)

Section Arrays.
Context {A : Type}.

(** [Array.prototype.findIndex]: the first index whose element passes,
    [-1] when none does. *)
Definition Array_findIndex (P : A -> Prop) `{!forall x, Decision (P x)}
    (l : list A) : Z :=
  match list_find P l with
  | Some (i, _) => Z.of_nat i
  | None => -1
  end.

(** [Array.prototype.find]. *)
Definition Array_find (P : A -> Prop) `{!forall x, Decision (P x)}
    (l : list A) : option A :=
  snd <$> list_find P l.

(** [Array.prototype.sort(compare)] is a stable sort: elements the
    comparator does not order strictly keep their relative order.
    [sort_insert x l] puts [x], which came before all of [l], in front of
    the first element it does not have to follow. *)
Fixpoint sort_insert (compare : A -> A -> Z) (x : A) (l : list A) : list A :=
  match l with
  | [] => [x]
  | y :: l' =>
      if 0 <? compare x y then y :: sort_insert compare x l'
      else x :: y :: l'
  end.

Fixpoint Array_sort (compare : A -> A -> Z) (l : list A) : list A :=
  match l with
  | [] => []
  | x :: l' => sort_insert compare x (Array_sort compare l')
  end.
End Arrays.

(** ** game-state.model.ts *)

Definition validatePlayerCount (count : Z) : Result unit :=
  if count <? 2 then Err (InvalidPlayerCountError count) else Ok tt.

Definition validatePosition (position : Z) : Result unit :=
  if (position <? 0) || (100 <? position) then Err (InvalidPositionError position)
  else Ok tt.

(** [winningPositions.includes(16)] *)
Definition includes (x : Z) (l : list Z) : bool := bool_decide (x ∈ l).

(** [now] is the value of [new Date()] and [uuid] that of [uuidv4()]. *)
Definition createInitialGameState (now : Date) (uuid : string)
    (players : list Player) (snakesAndLadders : list SnakeOrLadder)
    (teams : list Team) (winningPositions : list Z) (mapType : MapType)
    : Result GameState :=
  validatePlayerCount (Z.of_nat (length players)) ;;
  let finalWinningPositions :=
    if includes 16 winningPositions then winningPositions
    else 16 :: winningPositions in
  Ok {| gameId := uuid;
        players := players;
        teams := teams;
        snakesAndLadders := snakesAndLadders;
        mapType := mapType;
        currentDiceRollerId :=
          match players with p :: _ => id p | [] => EmptyString end;
        selectedTargetId := None;
        lastDiceResult := None;
        diceConfig := {| maxPoints := 12; pendingMaxPoints := PendingNull |};
        currentRound := 1;
        turnsInCurrentRound := 0;
        isGameStarted := false;
        isGameFinished := false;
        showTokenForPlayerId := None;
        winningPositions := Array_sort (fun a b => a - b) finalWinningPositions;
        createdAt := now;
        lastUpdatedAt := now |}.

(** ** game.service.ts

    The service owns one slot, [stateSubject.value], which is [null]
    before a game is initialized. *)

Definition Service := option GameState.

(** What the slot holds after a call: an exception leaves it as it was. *)
Definition after (svc : Service) (r : Result Service) : Service :=
  match r with
  | Ok svc' => svc'
  | Err _ => svc
  end.

Definition updateState (now : Date) (updater : GameState -> Result GameState)
    (svc : Service) : Result Service :=
  match svc with
  | None => Err NotInitializedError
  | Some currentState =>
      newState ← updater currentState;
      Ok (Some (with_lastUpdatedAt newState now))
  end.

Definition initializeGame (now : Date) (uuid : string)
    (players : list Player) (snakesAndLadders : list SnakeOrLadder)
    (teams : list Team) (winningPositions : list Z) (mapType : MapType)
    (svc : Service) : Result Service :=
  initialState ← createInitialGameState now uuid players snakesAndLadders
                    teams winningPositions mapType;
  Ok (Some initialState).

Definition has_id (playerId : string) (p : Player) : Prop := id p = playerId.
Global Instance has_id_dec playerId p : Decision (has_id playerId p).
Proof. unfold has_id. apply _. Defined.

Definition movePlayer_updater (playerId : string) (steps : Z)
    (state : GameState) : Result GameState :=
  let playerIndex := Array_findIndex (has_id playerId) (players state) in
  if playerIndex =? -1 then Err (PlayerNotFoundError playerId) else
  match players state !! Z.to_nat playerIndex with
  | None => Err (TypeError "player is undefined")
  | Some player =>
      let newPosition := position player + steps in
      let finalPosition :=
        if 100 <? newPosition then position player else newPosition in
      validatePosition finalPosition ;;
      let updatedPlayer := with_position player finalPosition in
      let updatedPlayers := <[Z.to_nat playerIndex := updatedPlayer]> (players state) in
      Ok (with_players state updatedPlayers)
  end.

Definition movePlayer (now : Date) (playerId : string) (steps : Z)
    : Service -> Result Service :=
  updateState now (movePlayer_updater playerId steps).

Definition checkWinCondition (playerId : string) (svc : Service) : bool :=
  match svc with
  | None => false
  | Some state =>
      match Array_find (has_id playerId) (players state) with
      | Some player => position player =? 100
      | None => false
      end
  end.

(** [finishTime] is the [new Date()] of the updater, [now] the one of
    [updateState]. *)
Definition markPlayerFinished_updater (finishTime : Date) (playerId : string)
    (state : GameState) : Result GameState :=
  let playerIndex := Array_findIndex (has_id playerId) (players state) in
  if playerIndex =? -1 then Err (PlayerNotFoundError playerId) else
  match players state !! Z.to_nat playerIndex with
  | None => Err (TypeError "player is undefined")
  | Some player =>
      if negb (position player =? 100) then Err (NotAtPosition100Error (name player))
      else
        let updatedPlayer := with_finished player finishTime in
        let updatedPlayers := <[Z.to_nat playerIndex := updatedPlayer]> (players state) in
        Ok (with_players state updatedPlayers)
  end.

Definition markPlayerFinished (finishTime now : Date) (playerId : string)
    : Service -> Result Service :=
  updateState now (markPlayerFinished_updater finishTime playerId).

Definition active (p : Player) : Prop := isFinished p = false.
Global Instance active_dec p : Decision (active p).
Proof. unfold active. apply _. Defined.

Definition by_turnOrder (a b : Player) : Z := turnOrder a - turnOrder b.

(** [state.turnsInCurrentRound ?? 0] and [state.currentRound ?? 1] are the
    fields themselves: a [GameState] holds numbers there. *)
Definition nextTurn_updater (state : GameState) : Result GameState :=
  let activePlayers := filter active (players state) in
  if decide (length activePlayers = 0%nat) then Ok state else
  let sortedActivePlayers := Array_sort by_turnOrder activePlayers in
  let currentIndex :=
    Array_findIndex (has_id (currentDiceRollerId state)) sortedActivePlayers in
  let nextIndex :=
    Z.rem (currentIndex + 1) (Z.of_nat (length sortedActivePlayers)) in
  match sortedActivePlayers !! Z.to_nat nextIndex with
  | None => Err (TypeError "sortedActivePlayers[nextIndex] is undefined")
  | Some nextRoller =>
      let nextRollerId := id nextRoller in
      let newTurnsInCurrentRound := turnsInCurrentRound state + 1 in
      let newCurrentRound := currentRound state in
      let newDiceConfig := diceConfig state in
      if Z.of_nat (length activePlayers) <=? newTurnsInCurrentRound then
        let newDiceConfig :=
          match pendingMaxPoints newDiceConfig with
          | PendingValue v =>
              {| maxPoints := v; pendingMaxPoints := PendingNull |}
          | _ => newDiceConfig
          end in
        Ok (with_turn state nextRollerId 0 (newCurrentRound + 1) newDiceConfig)
      else
        Ok (with_turn state nextRollerId newTurnsInCurrentRound newCurrentRound
              newDiceConfig)
  end.

Definition nextTurn (now : Date) : Service -> Result Service :=
  updateState now nextTurn_updater.

(** A JavaScript number as the dice configuration may receive it. *)
Inductive JSNumber :=
| Finite (q : Q)
| NaN
| PosInfinity
| NegInfinity.

Definition Number_isInteger (n : JSNumber) : bool :=
  match n with
  | Finite q => Qnum q mod Z.pos (Qden q) =? 0
  | _ => false
  end.

(** [n >= 1] *)
Definition at_least_one (n : JSNumber) : bool :=
  match n with
  | Finite q => Qle_bool 1 q
  | PosInfinity => true
  | _ => false
  end.

Definition validateMaxPoints (maxPoints : JSNumber) : bool :=
  Number_isInteger maxPoints && at_least_one maxPoints.

(** The integer a validated number is. *)
Definition integer_of (n : JSNumber) : Z :=
  match n with
  | Finite q => Qfloor q
  | _ => 0
  end.

Definition number_of_Z (v : Z) : JSNumber := Finite (inject_Z v).

(** [{ ...state.diceConfig, maxPoints }] and
    [{ ...state.diceConfig, pendingMaxPoints: maxPoints }] *)
Definition with_maxPoints (c : DiceConfiguration) (v : Z) : DiceConfiguration :=
  {| maxPoints := v; pendingMaxPoints := pendingMaxPoints c |}.

Definition with_pendingMaxPoints (c : DiceConfiguration) (v : Pending)
    : DiceConfiguration :=
  {| maxPoints := maxPoints c; pendingMaxPoints := v |}.

Definition updateDiceConfig (now : Date) (maxPoints : JSNumber)
    (svc : Service) : Result Service :=
  if negb (validateMaxPoints maxPoints) then Err InvalidMaxPointsError else
  updateState now (fun state =>
    Ok (with_diceConfig state
          (with_maxPoints (diceConfig state) (integer_of maxPoints)))) svc.

Definition updateDiceConfigPending (now : Date) (maxPoints : JSNumber)
    (svc : Service) : Result Service :=
  if negb (validateMaxPoints maxPoints) then Err InvalidMaxPointsError else
  updateState now (fun state =>
    Ok (with_diceConfig state
          (with_pendingMaxPoints (diceConfig state)
             (PendingValue (integer_of maxPoints))))) svc.

(** [rollDice] draws [Math.floor(Math.random() * maxPoints) + 1]; [r] is the
    value of [Math.random()], a number in [[0, 1)].  The product is the exact
    one, as in [getRandomInt]: the code rounds it to binary64, so a product
    that lies just below an integer can give the next face there. *)
Definition rollDice (r : Q) (svc : Service) : Result Z :=
  match svc with
  | None => Err NotInitializedError
  | Some state =>
      let maxPoints := maxPoints (diceConfig state) in
      Ok (Qfloor (r * inject_Z maxPoints) + 1)
  end.

(** The position the store holds for a player id. *)
Definition position_of (playerId : string) (svc : Service) : option Z :=
  match svc with
  | None => None
  | Some state => position <$> Array_find (has_id playerId) (players state)
  end.

(** ** snake-or-ladder.model.ts *)

Definition validateSnake (startPosition endPosition : Z) : Result unit :=
  if startPosition <=? endPosition
  then Err (InvalidSnakeError startPosition endPosition) else Ok tt.

Definition validateLadder (startPosition endPosition : Z) : Result unit :=
  if endPosition <=? startPosition
  then Err (InvalidLadderError startPosition endPosition) else Ok tt.

Definition starts_at (position : Z) (element : SnakeOrLadder) : Prop :=
  Hazard_startPosition element = position.
Global Instance starts_at_dec position element : Decision (starts_at position element).
Proof. unfold starts_at. apply _. Defined.

(** [existingElements.some(element => element.startPosition === startPosition)] *)
Definition checkDuplicateStartPosition (startPosition : Z)
    (existingElements : list SnakeOrLadder) : Result unit :=
  if decide (Exists (starts_at startPosition) existingElements)
  then Err (DuplicateStartPositionError startPosition) else Ok tt.

Definition createSnake (uuid : string) (startPosition endPosition : Z)
    (existingElements : list SnakeOrLadder) : Result SnakeOrLadder :=
  validateSnake startPosition endPosition ;;
  checkDuplicateStartPosition startPosition existingElements ;;
  Ok (mkSnakeOrLadder uuid snake startPosition endPosition).

Definition createLadder (uuid : string) (startPosition endPosition : Z)
    (existingElements : list SnakeOrLadder) : Result SnakeOrLadder :=
  validateLadder startPosition endPosition ;;
  checkDuplicateStartPosition startPosition existingElements ;;
  Ok (mkSnakeOrLadder uuid ladder startPosition endPosition).

(** ** board-layout.util.ts: the random hazard generator *)

Record SnakesAndLaddersConfig := mkConfig {
  count : Z;         (* default 14 *)
  minDistance : Z;   (* default 10 *)
  maxDistance : Z    (* default 40 *)
}.

Definition default_config : SnakesAndLaddersConfig := mkConfig 14 10 40.

Definition MIN_POSITION : Z := 2.
Definition MAX_POSITION : Z := 99.
Definition maxAttempts : nat := 100.

(** [Math.floor(r * (max - min + 1)) + min] for [r] the value of
    [Math.random()], taken as an exact number of [[0, 1)]. *)
Definition getRandomInt (r : Q) (min max : Z) : Z :=
  Qfloor (r * inject_Z (max - min + 1)) + min.

Section Generator.
(** The values [Math.random()] and [uuidv4()] return, call after call. *)
Variable rnd : nat -> Q.
Variable uuid : nat -> string.

(** The locals of [generateSnakesAndLadders], with how many random
    numbers and ids have been drawn so far. *)
Record Generation := mkGeneration {
  elements : list SnakeOrLadder;
  usedEndPositions : gset Z;
  draws : nat;
  ids : nat
}.

Definition drawn (g : Generation) : Generation :=
  mkGeneration (elements g) (usedEndPositions g) (S (draws g)) (ids g).

(** [elements.push(element); usedEndPositions.add(end)] *)
Definition placed (g : Generation) (element : SnakeOrLadder) : Generation :=
  mkGeneration (elements g ++ [element])
    ({[endPosition element]} ∪ usedEndPositions g) (draws g) (S (ids g)).

(** One pass through the body of a [while]: the locals after it, and
    whether it left the loop by [break]. *)
Definition snake_attempt (config : SnakesAndLaddersConfig) (g : Generation)
    : Generation * bool :=
  let head := getRandomInt (rnd (draws g))
                (MIN_POSITION + minDistance config) MAX_POSITION in
  let g := drawn g in
  if decide (head ∈ usedEndPositions g) then (g, false) else
  let distance := getRandomInt (rnd (draws g)) (minDistance config)
                    (Z.min (maxDistance config) (head - MIN_POSITION)) in
  let g := drawn g in
  let tail := head - distance in
  if (tail <? MIN_POSITION) || bool_decide (tail ∈ usedEndPositions g)
  then (g, false) else
  match createSnake (uuid (ids g)) head tail (elements g) with
  | Ok element => (placed g element, true)
  | Err _ => (g, false)
  end.

Definition ladder_attempt (config : SnakesAndLaddersConfig) (g : Generation)
    : Generation * bool :=
  let bottom := getRandomInt (rnd (draws g))
                  MIN_POSITION (MAX_POSITION - minDistance config) in
  let g := drawn g in
  if decide (bottom ∈ usedEndPositions g) then (g, false) else
  let distance := getRandomInt (rnd (draws g)) (minDistance config)
                    (Z.min (maxDistance config) (MAX_POSITION - bottom)) in
  let g := drawn g in
  let top := bottom + distance in
  if (MAX_POSITION <? top) || bool_decide (top ∈ usedEndPositions g)
  then (g, false) else
  match createLadder (uuid (ids g)) bottom top (elements g) with
  | Ok element => (placed g element, true)
  | Err _ => (g, false)
  end.

(** [while (attempts < maxAttempts) { attempts++; ... }] with
    [remaining = maxAttempts - attempts]. *)
Fixpoint attempts (attempt : Generation -> Generation * bool) (remaining : nat)
    (g : Generation) : Generation :=
  match remaining with
  | O => g
  | S remaining' =>
      let '(g', done) := attempt g in
      if done then g' else attempts attempt remaining' g'
  end.

(** [for (let i = 0; i < n; i++) body] *)
Fixpoint times (n : nat) (body : Generation -> Generation) (g : Generation)
    : Generation :=
  match n with
  | O => g
  | S n' => times n' body (body g)
  end.

Definition generateSnakesAndLadders (config : SnakesAndLaddersConfig)
    : list SnakeOrLadder :=
  let g := mkGeneration [] ∅ 0 0 in
  let numSnakes := count config / 2 in
  let numLadders := count config - numSnakes in
  let g := times (Z.to_nat numSnakes)
             (attempts (snake_attempt config) maxAttempts) g in
  let g := times (Z.to_nat numLadders)
             (attempts (ladder_attempt config) maxAttempts) g in
  elements g.
(** What the two loops establish for a hazard, whatever the
    configuration: its orientation, the bound the loop tests on its end,
    and the draw its start is. *)
Definition generated (config : SnakesAndLaddersConfig)
    (element : SnakeOrLadder) : Prop :=
  match type element with
  | snake =>
      endPosition element < Hazard_startPosition element /\
      MIN_POSITION <= endPosition element /\
      exists n, Hazard_startPosition element =
        getRandomInt (rnd n) (MIN_POSITION + minDistance config) MAX_POSITION
  | ladder =>
      Hazard_startPosition element < endPosition element /\
      endPosition element <= MAX_POSITION /\
      exists n, Hazard_startPosition element =
        getRandomInt (rnd n) MIN_POSITION (MAX_POSITION - minDistance config)
  end.

Definition generation_ok (config : SnakesAndLaddersConfig)
    (g : Generation) : Prop :=
  NoDup (Hazard_startPosition <$> elements g) /\ Forall (generated config) (elements g).
End Generator.

(** What the generator promises of each hazard, and of the table. *)
Definition oriented (element : SnakeOrLadder) : Prop :=
  match type element with
  | snake => endPosition element < Hazard_startPosition element
  | ladder => Hazard_startPosition element < endPosition element
  end.

Definition inside_board (element : SnakeOrLadder) : Prop :=
  2 <= Hazard_startPosition element <= 99 /\ 2 <= endPosition element <= 99.

Definition valid_hazards (table : list SnakeOrLadder) : Prop :=
  NoDup (Hazard_startPosition <$> table) /\
  Forall oriented table /\
  Forall inside_board table.

(** ** Dates as text (ECMAScript)

    [Date.prototype.toISOString] writes a valid time value as
    [YYYY-MM-DDTHH:mm:ss.sssZ], with a signed six-digit year outside
    0..9999; [Date_parse] reads that format back.  The calendar arithmetic
    is the usual one on days counted from 1 March of year 0 of a 400-year
    era. *)

Definition msPerDay : Z := 86400000.
Definition maxTime : Z := 8640000000000000.

(** A time value a valid [Date] can hold. *)
Definition valid_time (t : Z) : Prop := - maxTime <= t <= maxTime.

Definition civil_from_days (days : Z) : Z * Z * Z :=
  let z := days + 719468 in
  let era := z / 146097 in
  let doe := z mod 146097 in
  let yoe := (doe - doe / 1460 + doe / 36524 - doe / 146096) / 365 in
  let doy := doe - (365 * yoe + yoe / 4 - yoe / 100) in
  let mp := (5 * doy + 2) / 153 in
  let d := doy - (153 * mp + 2) / 5 + 1 in
  let m := if mp <? 10 then mp + 3 else mp - 9 in
  let y := yoe + era * 400 + (if m <=? 2 then 1 else 0) in
  (y, m, d).

Definition days_from_civil (y m d : Z) : Z :=
  let y' := if m <=? 2 then y - 1 else y in
  let era := y' / 400 in
  let yoe := y' mod 400 in
  let mp := if 2 <? m then m - 3 else m + 9 in
  let doy := (153 * mp + 2) / 5 + d - 1 in
  let doe := yoe * 365 + yoe / 4 - yoe / 100 + doy in
  era * 146097 + doe - 719468.

Definition digit (n : Z) : ascii := Ascii.ascii_of_N (48 + Z.to_N n).

Definition digit_value (c : ascii) : option Z :=
  let n := Z.of_N (Ascii.N_of_ascii c) in
  if (48 <=? n) && (n <=? 57) then Some (n - 48) else None.

(** [n] in [width] decimal digits, padded with zeros. *)
Fixpoint digits (width : nat) (n : Z) : list ascii :=
  match width with
  | O => []
  | S width' => digits width' (n / 10) ++ [digit (n mod 10)]
  end.

Fixpoint read_digits (width : nat) (acc : Z) (text : list ascii)
    : option (Z * list ascii) :=
  match width with
  | O => Some (acc, text)
  | S width' =>
      match text with
      | c :: text' => d ← digit_value c; read_digits width' (10 * acc + d) text'
      | [] => None
      end
  end.

Definition expect (c : ascii) (text : list ascii) : option (list ascii) :=
  match text with
  | c' :: text' => if decide (c' = c) then Some text' else None
  | [] => None
  end.

Definition year_chars (y : Z) : list ascii :=
  if (0 <=? y) && (y <=? 9999) then digits 4 y
  else (if y <? 0 then "-"%char else "+"%char) :: digits 6 (Z.abs y).

Definition read_year (text : list ascii) : option (Z * list ascii) :=
  match expect "+" text with
  | Some text' => read_digits 6 0 text'
  | None =>
      match expect "-" text with
      | Some text' => '(y, rest) ← read_digits 6 0 text'; Some (- y, rest)
      | None => read_digits 4 0 text
      end
  end.

Definition Date_toISOString (t : Z) : string :=
  let '(y, m, d) := civil_from_days (t / msPerDay) in
  let msInDay := t mod msPerDay in
  String.string_of_list_ascii
    (year_chars y ++ "-"%char :: digits 2 m ++ "-"%char :: digits 2 d ++
     "T"%char :: digits 2 (msInDay / 3600000) ++
     ":"%char :: digits 2 (msInDay / 60000 mod 60) ++
     ":"%char :: digits 2 (msInDay / 1000 mod 60) ++
     "."%char :: digits 3 (msInDay mod 1000) ++ ["Z"%char]).

Definition read_ISO (text : list ascii) : option Z :=
  '(y, text) ← read_year text;
  text ← expect "-" text;
  '(m, text) ← read_digits 2 0 text;
  text ← expect "-" text;
  '(d, text) ← read_digits 2 0 text;
  text ← expect "T" text;
  '(hh, text) ← read_digits 2 0 text;
  text ← expect ":" text;
  '(mm, text) ← read_digits 2 0 text;
  text ← expect ":" text;
  '(ss, text) ← read_digits 2 0 text;
  text ← expect "." text;
  '(ms, text) ← read_digits 3 0 text;
  text ← expect "Z" text;
  match text with
  | [] =>
      let t := days_from_civil y m d * msPerDay
               + ((hh * 60 + mm) * 60 + ss) * 1000 + ms in
      if (1 <=? m) && (m <=? 12) && (1 <=? d) && (d <=? 31) && (hh <=? 23)
         && (mm <=? 59) && (ss <=? 59) && (- maxTime <=? t) && (t <=? maxTime)
      then Some t else None
  | _ => None
  end.

(** What the calendar arithmetic relies on, for a day [doe] of a 400-year
    era (146097 days): checked on each of them. *)
Definition doe_ok (doe : Z) : bool :=
  let yoe := (doe - doe / 1460 + doe / 36524 - doe / 146096) / 365 in
  let doy := doe - (365 * yoe + yoe / 4 - yoe / 100) in
  let mp := (5 * doy + 2) / 153 in
  let d := doy - (153 * mp + 2) / 5 + 1 in
  (0 <=? yoe) && (yoe <=? 399) && (0 <=? mp) && (mp <=? 11)
  && (1 <=? d) && (d <=? 31).

(** [f] holds on the [len] integers from [start] on. *)
Fixpoint holds_from (f : Z -> bool) (start : Z) (len : nat) : bool :=
  match len with
  | O => true
  | S len' => f start && holds_from f (start + 1) len'
  end.

(** [Date.parse] on the format [toISOString] writes; what it makes of
    other date formats is left to the platform and not needed here. *)
Definition Date_parse (text : string) : Date :=
  match read_ISO (String.list_ascii_of_string text) with
  | Some t => TimeValue t
  | None => InvalidDate
  end.

(** ** storage.service.ts

    The codec works on untyped values ([any]): what [JSON.parse] returns,
    and the [GameState] objects themselves. *)

Local Unset Elimination Schemes.
Inductive JSValue :=
| VUndefined
| VNull
| VBool (b : bool)
| VNumber (n : JSNumber)
| VString (s : string)
| VDate (d : Date)
| VArray (items : list JSValue)
| VObject (fields : list (string * JSValue)).
Local Set Elimination Schemes.

(** An object is the list of its own properties, in creation order. *)
Fixpoint assoc (k : string) (fields : list (string * JSValue)) : option JSValue :=
  match fields with
  | [] => None
  | (k', v) :: fields' => if String.eqb k' k then Some v else assoc k fields'
  end.

(** [{ ...fields, k: v }]: an existing key keeps its place. *)
Fixpoint assign (k : string) (v : JSValue) (fields : list (string * JSValue))
    : list (string * JSValue) :=
  match fields with
  | [] => [(k, v)]
  | (k', v') :: fields' =>
      if String.eqb k' k then (k, v) :: fields'
      else (k', v') :: assign k v fields'
  end.

(** [o.k] for the named fields the codec reads: reading a property of
    [null] or [undefined] throws; primitives, dates and arrays have none of
    these names. *)
Definition get (o : JSValue) (k : string) : Result JSValue :=
  match o with
  | VUndefined => Err (TypeError ("Cannot read properties of undefined, reading " +:+ k))
  | VNull => Err (TypeError ("Cannot read properties of null, reading " +:+ k))
  | VObject fields => Ok (default VUndefined (assoc k fields))
  | _ => Ok VUndefined
  end.

(** [o?.k] *)
Definition get_optional (o : JSValue) (k : string) : Result JSValue :=
  match o with
  | VUndefined | VNull => Ok VUndefined
  | _ => get o k
  end.

(** [a ?? b] *)
Definition nullish (a b : JSValue) : JSValue :=
  match a with
  | VUndefined | VNull => b
  | _ => a
  end.

Definition chars (s : string) : list JSValue :=
  (fun c => VString (String c EmptyString)) <$> String.list_ascii_of_string s.

Definition indexed (items : list JSValue) : list (string * JSValue) :=
  imap (fun i v => (pretty i, v)) items.

(** [{ ...o }]: the own enumerable properties; none for [null],
    [undefined], numbers, booleans and dates, the indices for arrays and
    strings. *)
Definition spread (o : JSValue) : list (string * JSValue) :=
  match o with
  | VObject fields => fields
  | VArray items => indexed items
  | VString s => indexed (chars s)
  | _ => []
  end.

Definition truthy (v : JSValue) : bool :=
  match v with
  | VUndefined | VNull => false
  | VBool b => b
  | VNumber (Finite q) => negb (Qeq_bool q 0)
  | VNumber NaN => false
  | VNumber _ => true
  | VString s => negb (bool_decide (s = EmptyString))
  | VDate _ | VArray _ | VObject _ => true
  end.

(** [array.map(f)] with a callback that may throw. *)
Fixpoint map_result {A B} (f : A -> Result B) (l : list A) : Result (list B) :=
  match l with
  | [] => Ok []
  | x :: l' => y ← f x; ys ← map_result f l'; Ok (y :: ys)
  end.

Definition STORAGE_KEY : string := "dl-game-state".
Definition VERSION_KEY : string := "dl-game-version".
Definition CURRENT_VERSION : string := "1.0.0".

Record StorageService := mkStorageService {
  isStorageAvailable : bool;
  localStorage : gmap string string
}.

Section Storage.
(** The platform: [JSON.parse] ([None] is a [SyntaxError]),
    [Date.prototype.toISOString] on a valid time value, and the [Date]
    constructor with one argument. *)
Variable JSON_parse : string -> option JSValue.
Variable toISOString : Z -> string.
Variable new_Date : JSValue -> Date.

(** [v.toISOString()] *)
Definition call_toISOString (v : JSValue) : Result JSValue :=
  match v with
  | VDate (TimeValue t) => Ok (VString (toISOString t))
  | VDate InvalidDate => Err (RangeError "Invalid time value")
  | VUndefined | VNull => Err (TypeError "Cannot read properties, reading toISOString")
  | _ => Err (TypeError "toISOString is not a function")
  end.

(** [v.map(f)] *)
Definition call_map (v : JSValue) (f : JSValue -> Result JSValue)
    : Result JSValue :=
  match v with
  | VArray items => items' ← map_result f items; Ok (VArray items')
  | VUndefined | VNull => Err (TypeError "Cannot read properties, reading map")
  | _ => Err (TypeError "map is not a function")
  end.

Definition serializePlayer (player : JSValue) : Result JSValue :=
  finishTime ← get player "finishTime";
  finishTime' ← (if truthy finishTime then call_toISOString finishTime
                 else Ok VUndefined);
  Ok (VObject (assign "finishTime" finishTime' (spread player))).

Definition serializeState (state : JSValue) : Result JSValue :=
  createdAt ← get state "createdAt";
  createdAt' ← call_toISOString createdAt;
  lastUpdatedAt ← get state "lastUpdatedAt";
  lastUpdatedAt' ← call_toISOString lastUpdatedAt;
  players ← get state "players";
  players' ← call_map players serializePlayer;
  Ok (VObject (assign "players" players'
                (assign "lastUpdatedAt" lastUpdatedAt'
                  (assign "createdAt" createdAt' (spread state))))).

Definition deserializePlayer (player : JSValue) : Result JSValue :=
  teamId ← get player "teamId";
  teamColor ← get player "teamColor";
  finishTime ← get player "finishTime";
  let finishTime' :=
    if truthy finishTime then VDate (new_Date finishTime) else VUndefined in
  Ok (VObject (assign "finishTime" finishTime'
                (assign "teamColor" (nullish teamColor VUndefined)
                  (assign "teamId" (nullish teamId VUndefined)
                    (spread player))))).

Definition deserializeState (data : JSValue) : Result JSValue :=
  createdAt ← get data "createdAt";
  lastUpdatedAt ← get data "lastUpdatedAt";
  currentRound ← get data "currentRound";
  turnsInCurrentRound ← get data "turnsInCurrentRound";
  teams ← get data "teams";
  diceConfig ← get data "diceConfig";
  maxPoints ← get_optional diceConfig "maxPoints";
  pendingMaxPoints ← get_optional diceConfig "pendingMaxPoints";
  players ← get data "players";
  players' ← call_map players deserializePlayer;
  Ok (VObject
        (assign "players" players'
        (assign "diceConfig"
           (VObject [("maxPoints", nullish maxPoints (VNumber (number_of_Z 12)));
                     ("pendingMaxPoints", nullish pendingMaxPoints VNull)])
        (assign "teams" (nullish teams (VArray []))
        (assign "turnsInCurrentRound"
           (nullish turnsInCurrentRound (VNumber (number_of_Z 0)))
        (assign "currentRound" (nullish currentRound (VNumber (number_of_Z 1)))
        (assign "lastUpdatedAt" (VDate (new_Date lastUpdatedAt))
        (assign "createdAt" (VDate (new_Date createdAt))
           (spread data))))))))).

Definition is_string (v : JSValue) : bool :=
  match v with VString _ => true | _ => false end.
Definition is_boolean (v : JSValue) : bool :=
  match v with VBool _ => true | _ => false end.
Definition is_number (v : JSValue) : bool :=
  match v with VNumber _ => true | _ => false end.
Definition Array_isArray (v : JSValue) : bool :=
  match v with VArray _ => true | _ => false end.
(** [v instanceof Date && !isNaN(v.getTime())] *)
Definition is_valid_date (v : JSValue) : bool :=
  match v with VDate (TimeValue _) => true | _ => false end.

Definition validatePlayer (player : JSValue) : Result unit :=
  id ← get player "id";
  if negb (truthy id) then Err (CorruptedStateError "Invalid player data") else
  name ← get player "name";
  if negb (truthy name) then Err (CorruptedStateError "Invalid player data") else
  position ← get player "position";
  if negb (is_number position) then Err (CorruptedStateError "Invalid player data")
  else Ok tt.

Definition validateState (state : JSValue) : Result unit :=
  gameId ← get state "gameId";
  if negb (truthy gameId) || negb (is_string gameId)
  then Err (CorruptedStateError "Missing or invalid gameId") else
  players ← get state "players";
  if negb (Array_isArray players)
  then Err (CorruptedStateError "Missing or invalid players array") else
  snakesAndLadders ← get state "snakesAndLadders";
  if negb (Array_isArray snakesAndLadders)
  then Err (CorruptedStateError "Missing or invalid snakesAndLadders array") else
  isGameStarted ← get state "isGameStarted";
  if negb (is_boolean isGameStarted)
  then Err (CorruptedStateError "Missing or invalid isGameStarted") else
  isGameFinished ← get state "isGameFinished";
  if negb (is_boolean isGameFinished)
  then Err (CorruptedStateError "Missing or invalid isGameFinished") else
  createdAt ← get state "createdAt";
  if negb (is_valid_date createdAt)
  then Err (CorruptedStateError "Invalid createdAt date") else
  lastUpdatedAt ← get state "lastUpdatedAt";
  if negb (is_valid_date lastUpdatedAt)
  then Err (CorruptedStateError "Invalid lastUpdatedAt date") else
  match players with
  | VArray items => map_result validatePlayer items ;; Ok tt
  | _ => Ok tt
  end.

Definition clearGameState (service : StorageService) : StorageService :=
  if negb (isStorageAvailable service) then service else
  mkStorageService (isStorageAvailable service)
    (delete VERSION_KEY (delete STORAGE_KEY (localStorage service))).

(** The body of the [try] of [loadGameState]; [Ok None] is [return null]. *)
Definition loadGameState_try (service : StorageService)
    : Result (option JSValue) :=
  let savedState := localStorage service !! STORAGE_KEY in
  let savedVersion := localStorage service !! VERSION_KEY in
  match savedState with
  | None => Ok None
  | Some savedState =>
      if bool_decide (savedState = EmptyString) then Ok None else
      (* a version mismatch is only logged *)
      match JSON_parse savedState with
      | None => Err SyntaxError
      | Some parsedState =>
          deserializedState ← deserializeState parsedState;
          validateState deserializedState ;;
          Ok (Some deserializedState)
      end
  end.

Definition message (error : Exception) : string :=
  match error with
  | TypeError what | RangeError what | CorruptedStateError what => what
  | SyntaxError => "Unexpected token"
  | _ => "Error"
  end.

(** What [loadGameState] returns or throws, and the service after it. *)
Definition loadGameState (service : StorageService)
    : Result (option JSValue) * StorageService :=
  if negb (isStorageAvailable service) then (Ok None, service) else
  match loadGameState_try service with
  | Ok loaded => (Ok loaded, service)
  | Err (CorruptedStateError reason) =>
      (Err (CorruptedStateError reason), service)
  | Err error =>
      (Err (CorruptedStateError (message error)), clearGameState service)
  end.
End Storage.

(** ** A [GameState] as the object the codec is handed

    Optional members that are not set ([teamId?], [finishTime?],
    [pendingMaxPoints?]) are missing keys; [null] members are [VNull]. *)

Definition js_of_Z (z : Z) : JSValue := VNumber (number_of_Z z).

Definition js_of_nullable {A} (f : A -> JSValue) (o : option A) : JSValue :=
  match o with
  | Some a => f a
  | None => VNull
  end.

Definition optional (k : string) (o : option JSValue) : list (string * JSValue) :=
  match o with
  | Some v => [(k, v)]
  | None => []
  end.

Definition js_of_Player (p : Player) : JSValue :=
  VObject ([("id", VString (id p)); ("name", VString (name p));
            ("color", VString (color p))]
           ++ optional "teamId" (VString <$> teamId p)
           ++ optional "teamColor" (VString <$> teamColor p)
           ++ [("position", js_of_Z (position p));
               ("isFinished", VBool (isFinished p));
               ("turnOrder", js_of_Z (turnOrder p))]
           ++ optional "finishTime" (VDate <$> finishTime p)).

Definition js_of_Team (t : Team) : JSValue :=
  VObject [("id", VString (team_id t)); ("name", VString (team_name t));
           ("color", VString (team_color t))].

Definition js_of_SnakeOrLadder (e : SnakeOrLadder) : JSValue :=
  VObject [("id", VString (sl_id e));
           ("type", VString match type e with
                            | snake => "snake"
                            | ladder => "ladder"
                            end);
           ("startPosition", js_of_Z (startPosition e));
           ("endPosition", js_of_Z (endPosition e))].

Definition js_of_Pending (p : Pending) : option JSValue :=
  match p with
  | PendingUndefined => None
  | PendingNull => Some VNull
  | PendingValue v => Some (js_of_Z v)
  end.

Definition js_of_DiceConfiguration (c : DiceConfiguration) : JSValue :=
  VObject (("maxPoints", js_of_Z (maxPoints c))
           :: optional "pendingMaxPoints" (js_of_Pending (pendingMaxPoints c))).

Definition js_of_GameState (s : GameState) : JSValue :=
  VObject
    [("gameId", VString (gameId s));
     ("players", VArray (js_of_Player <$> players s));
     ("teams", VArray (js_of_Team <$> teams s));
     ("snakesAndLadders", VArray (js_of_SnakeOrLadder <$> snakesAndLadders s));
     ("mapType", VString match mapType s with
                         | random => "random"
                         | fixed => "fixed"
                         end);
     ("currentDiceRollerId", VString (currentDiceRollerId s));
     ("selectedTargetId", js_of_nullable VString (selectedTargetId s));
     ("lastDiceResult", js_of_nullable js_of_Z (lastDiceResult s));
     ("diceConfig", js_of_DiceConfiguration (diceConfig s));
     ("currentRound", js_of_Z (currentRound s));
     ("turnsInCurrentRound", js_of_Z (turnsInCurrentRound s));
     ("isGameStarted", VBool (isGameStarted s));
     ("isGameFinished", VBool (isGameFinished s));
     ("showTokenForPlayerId", js_of_nullable VString (showTokenForPlayerId s));
     ("winningPositions", VArray (js_of_Z <$> winningPositions s));
     ("createdAt", VDate (createdAt s));
     ("lastUpdatedAt", VDate (lastUpdatedAt s))].

(** Equal field by field: every property reads the same. *)
Definition same_fields (a b : JSValue) : Prop :=
  forall k, get a k = get b k.

(** Two states are equal field by field, their players being compared
    field by field in turn. *)
Definition same_state (a b : JSValue) : Prop :=
  (forall k, k <> "players" -> get a k = get b k) /\
  exists pa pb,
    get a "players" = Ok (VArray pa) /\
    get b "players" = Ok (VArray pb) /\
    Forall2 same_fields pa pb.

Definition valid_Date (d : Date) : Prop :=
  exists t, d = TimeValue t /\ valid_time t.

(** A state as the store makes them: its dates are valid ones, and its
    dice configuration has the [pendingMaxPoints] member (a number or
    [null]; [createInitialGameState], and [deserializeState] on reload,
    always set it). *)
Definition valid_GameState (x : GameState) : Prop :=
  valid_Date (createdAt x) /\
  valid_Date (lastUpdatedAt x) /\
  Forall (fun p => forall d, finishTime p = Some d -> valid_Date d) (players x) /\
  pendingMaxPoints (diceConfig x) <> PendingUndefined.

(** The [Date] constructor of the platform reads the ISO format. *)
Definition reads_ISO (new_Date : JSValue -> Date) : Prop :=
  forall t, valid_time t -> new_Date (VString (Date_toISOString t)) = TimeValue t.

(** A constructor that does: a string is parsed, a date copied, [null]
    and booleans are the numbers 0 and 1; nothing else is handed to it
    below. *)
Definition Date_of (v : JSValue) : Date :=
  match v with
  | VString text => Date_parse text
  | VDate d => d
  | VNull | VBool false => TimeValue 0
  | VBool true => TimeValue 1
  | _ => InvalidDate
  end.

(** [nextTurn] called once per timestamp of [nows], nothing in between. *)
Fixpoint nextTurns (nows : list Date) (svc : Service) : Result Service :=
  match nows with
  | [] => Ok svc
  | now :: nows' => svc' ← nextTurn now svc; nextTurns nows' svc'
  end.

(** The players still in the rotation, in the order [nextTurn] walks them. *)
Definition rotation (state : GameState) : list Player :=
  Array_sort by_turnOrder (filter active (players state)).

(** The call of [nextTurn] on [state] closes a round: there are active
    players and the turn being ended is the last of them. *)
Definition crosses_round_boundary (state : GameState) : Prop :=
  filter active (players state) ≠ [] /\
  Z.of_nat (length (filter active (players state)))
    <= turnsInCurrentRound state + 1.

(** The rotation in the words of the specification: the next roller is
    "the first non-finished player whose turnOrder follows the old roller's,
    wrapping around".  [least_turnOrder] picks the player of least
    [turnOrder], the earliest one in the list on a tie. *)
Fixpoint least_turnOrder (l : list Player) : option Player :=
  match l with
  | [] => None
  | p :: l' =>
      match least_turnOrder l' with
      | Some q => if turnOrder q <? turnOrder p then Some q else Some p
      | None => Some p
      end
  end.

Definition follows (rollerOrder : Z) (p : Player) : Prop :=
  rollerOrder < turnOrder p.
Global Instance follows_dec rollerOrder p : Decision (follows rollerOrder p).
Proof. unfold follows. apply _. Defined.

Definition spec_nextRoller (state : GameState) : option Player :=
  let activePlayers := filter active (players state) in
  match Array_find (has_id (currentDiceRollerId state)) (players state) with
  | None => None
  | Some roller =>
      match least_turnOrder (filter (follows (turnOrder roller)) activePlayers) with
      | Some p => Some p
      | None => least_turnOrder activePlayers
      end
  end.

(** ** Sample data: three players in turn order, right after set-up *)

Definition t0 : Date := TimeValue 1700000000000.
Definition t1 : Date := TimeValue 1700000060000.

Definition alice : Player :=
  mkPlayer "p-a" "Alice" "hsl(0, 70%, 50%)" None None 0 false None 0.
Definition bob : Player :=
  mkPlayer "p-b" "Bob" "hsl(120, 70%, 50%)" None None 0 false None 1.
Definition carol : Player :=
  mkPlayer "p-c" "Carol" "hsl(240, 70%, 50%)" None None 0 false None 2.

Definition game_of (ps : list Player) (roller : string) : GameState :=
  {| gameId := "g-1"; players := ps; teams := []; snakesAndLadders := [];
     mapType := random; currentDiceRollerId := roller;
     selectedTargetId := None; lastDiceResult := None;
     diceConfig := {| maxPoints := 12; pendingMaxPoints := PendingNull |};
     currentRound := 1; turnsInCurrentRound := 0;
     isGameStarted := true; isGameFinished := false;
     showTokenForPlayerId := None; winningPositions := [16];
     createdAt := t0; lastUpdatedAt := t0 |}.

(** Bob, second of three, is the roller and moves himself from 94. *)
Definition bob_about_to_finish : GameState :=
  {| gameId := "g-1";
     players := [with_position alice 10; with_position bob 94;
                 with_position carol 20];
     teams := []; snakesAndLadders := [];
     mapType := random; currentDiceRollerId := "p-b";
     selectedTargetId := Some "p-b"; lastDiceResult := Some 6;
     diceConfig := {| maxPoints := 12; pendingMaxPoints := PendingNull |};
     currentRound := 3; turnsInCurrentRound := 1;
     isGameStarted := true; isGameFinished := false;
     showTokenForPlayerId := None; winningPositions := [16];
     createdAt := t0; lastUpdatedAt := t0 |}.

(** A generator run: every [Math.random()] answers 0.5, ids are numbered. *)
Definition coin : nat -> Q := fun _ => (1 # 2)%Q.
Definition numbered : nat -> string := fun n => "hazard-" +:+ pretty n.

(** Stored records: an empty object, and [{"players":[]}], with what
    [JSON.parse] makes of them. *)
Definition quoted (s : string) : string :=
  String (Ascii.ascii_of_nat 34) s +:+ String (Ascii.ascii_of_nat 34) EmptyString.

Definition empty_record : string := "{}".
Definition players_only_record : string := "{" +:+ quoted "players" +:+ ":[]}".

Definition parse_samples (text : string) : option JSValue :=
  if decide (text = empty_record) then Some (VObject [])
  else if decide (text = players_only_record)
       then Some (VObject [("players", VArray [])])
       else None.

Definition stored (text : string) : StorageService :=
  mkStorageService true
    (<[VERSION_KEY := CURRENT_VERSION]> (<[STORAGE_KEY := text]> ∅)).

(** A game in which Bob has finished, and the same game in an object
    whose dice configuration has no [pendingMaxPoints] member. *)
Definition bob_finished : GameState :=
  game_of [alice; with_finished (with_position bob 100) t1; carol] "p-c".

Definition without_pending : GameState :=
  with_diceConfig bob_finished
    {| maxPoints := 12; pendingMaxPoints := PendingUndefined |}.
(** ** More exceptions

    The errors of the functions below, beside the ones above. *)

Inductive Thrown :=
| Raised (e : Exception)
| TargetNotFoundError (targetId : string)   (* Error(`Target player with ID ${targetId} not found`) *)
| TargetFinishedError (name : string)       (* Error(`Cannot select finished player ${name} as target`) *)
| CountMismatchError (expected received : Z) (* Error(`Expected ${count} names, but received ...`) *)
| EmptyNameError                            (* Error(`Player name cannot be empty.`) *)
| NameExistsError (name : string)           (* Error(`Player name "${name}" already exists.`) *)
| InvalidPlayerNameError                    (* InvalidPlayerNameError('Player name cannot be empty.') *)
| DuplicatePlayerNameError (name : string)
| InvalidTeamCountError (count : Z)
| DuplicateTeamColorError (color : string)
| InvalidDiceValueError (value : Z)
| InvalidBoardSizeError (size : Z).

Inductive Attempt (A : Type) :=
| Returned (a : A)
| Threw (t : Thrown).
Arguments Returned {A} a.
Arguments Threw {A} t.

Global Instance Attempt_bind : MBind Attempt := fun A B k r =>
  match r with
  | Returned a => k a
  | Threw t => Threw t
  end.

(** A result of the first kind among the second. *)
Definition raising {A} (r : Result A) : Attempt A :=
  match r with
  | Ok a => Returned a
  | Err e => Threw (Raised e)
  end.

(** ** board-layout.util.ts: the board *)

Module BoardLayout.

Record BoardCell := mkBoardCell {
  number : Z;
  x : Z;
  y : Z
}.

Global Instance BoardCell_eq_dec : EqDecision BoardCell.
Proof. solve_decision. Defined.

Definition BOARD_SIZE : Z := 100.
Definition GRID_SIZE : Z := 10.

(** The body of the [for] loop, for one [cellNumber]. *)
Definition cell_of (cellNumber : Z) : BoardCell :=
  let row := (cellNumber - 1) / GRID_SIZE in
  let positionInRow := Z.rem (cellNumber - 1) GRID_SIZE in
  let x := if Z.rem row 2 =? 0 then positionInRow
           else GRID_SIZE - 1 - positionInRow in
  mkBoardCell cellNumber x row.

Definition generateBoardLayout : Attempt (list BoardCell) :=
  let cells := cell_of <$> seqZ 1 BOARD_SIZE in
  if negb (Z.of_nat (length cells) =? BOARD_SIZE)
  then Threw (InvalidBoardSizeError (Z.of_nat (length cells)))
  else Returned cells.

Definition has_number (cellNumber : Z) (cell : BoardCell) : Prop :=
  number cell = cellNumber.
Global Instance has_number_dec cellNumber cell : Decision (has_number cellNumber cell).
Proof. unfold has_number. apply _. Defined.

Definition at_coordinates (x y : Z) (cell : BoardCell) : Prop :=
  BoardLayout.x cell = x /\ BoardLayout.y cell = y.
Global Instance at_coordinates_dec x y cell : Decision (at_coordinates x y cell).
Proof. unfold at_coordinates. apply _. Defined.

Definition getCellByNumber (cellNumber : Z) (boardLayout : list BoardCell)
    : option BoardCell :=
  Array_find (has_number cellNumber) boardLayout.

Definition getCellByCoordinates (x y : Z) (boardLayout : list BoardCell)
    : option BoardCell :=
  Array_find (at_coordinates x y) boardLayout.

(** The cells [generateBoardLayout] returns. *)
Definition board : list BoardCell :=
  match generateBoardLayout with
  | Returned cells => cells
  | Threw _ => []
  end.

(** Two cells that touch along a side of the grid. *)
Definition adjacent (a b : BoardCell) : Prop :=
  Z.abs (x a - x b) + Z.abs (y a - y b) = 1.
Global Instance adjacent_dec a b : Decision (adjacent a b).
Proof. unfold adjacent. apply _. Defined.

(** What is checked of the cell of each number from 1 to 100. *)
Definition cell_ok (n : Z) : bool :=
  let c := cell_of n in
  bool_decide (getCellByNumber n board = Some c)
  && bool_decide (getCellByCoordinates (x c) (y c) board = Some c)
  && (0 <=? x c) && (x c <=? 9) && (0 <=? y c) && (y c <=? 9)
  && bool_decide (y c = (n - 1) / 10)
  && bool_decide (x c = if Z.even (y c) then (n - 1) mod 10
                         else 9 - (n - 1) mod 10).

Definition step_ok (n : Z) : bool :=
  bool_decide (adjacent (cell_of n) (cell_of (n + 1))).

End BoardLayout.

(** ** dice-result.model.ts *)

Record DiceResult := mkDiceResult {
  dice1 : Z;
  dice2 : Z;
  total : Z;
  rollerId : string;
  targetId : string;
  timestamp : Date
}.

Definition validateDiceValue (value : Z) : Attempt unit :=
  if (value <? 1) || (6 <? value) then Threw (InvalidDiceValueError value)
  else Returned tt.

Definition calculateDiceTotal (dice1 dice2 : Z) : Attempt Z :=
  validateDiceValue dice1 ;;
  validateDiceValue dice2 ;;
  Returned (dice1 + dice2).

Definition createDiceResult (now : Date) (dice1 dice2 : Z)
    (rollerId targetId : string) : Attempt DiceResult :=
  validateDiceValue dice1 ;;
  validateDiceValue dice2 ;;
  Returned (mkDiceResult dice1 dice2 (dice1 + dice2) rollerId targetId now).

(** ** team.model.ts *)

Record Color := mkColor {
  color_name : string;
  value : string
}.

Definition AVAILABLE_COLORS : list Color :=
  [ mkColor "Đỏ" "#C41E3A";
    mkColor "Xanh navy" "#1D3557";
    mkColor "Vàng nghệ" "#FFB703";
    mkColor "Xanh lá" "#28A745";
    mkColor "Tím đậm" "#7209B7";
    mkColor "Cam cháy" "#FB8500";
    mkColor "Hồng sen" "#F72585";
    mkColor "Xanh xám" "#457B9D" ].

Definition validateTeamCount (count : Z) : Attempt unit :=
  if (count <? 2) || (8 <? count) then Threw (InvalidTeamCountError count)
  else Returned tt.

(** [team.color === color && team.id !== excludeTeamId]; without
    [excludeTeamId] the second test compares with [undefined] and passes. *)
Definition clashes (color : string) (excludeTeamId : option string)
    (team : Team) : Prop :=
  team_color team = color /\ Some (team_id team) <> excludeTeamId.
Global Instance clashes_dec color excludeTeamId team :
  Decision (clashes color excludeTeamId team).
Proof. unfold clashes. apply _. Defined.

Definition checkDuplicateTeamColor (color : string) (existingTeams : list Team)
    (excludeTeamId : option string) : Attempt unit :=
  if decide (Exists (clashes color excludeTeamId) existingTeams)
  then Threw (DuplicateTeamColorError color)
  else Returned tt.

Section Names.
(** [String.prototype.trim]. *)
Variable trim : string -> string.

Definition createTeam (uuid : string) (name color : string)
    (existingTeams : list Team) : Attempt Team :=
  checkDuplicateTeamColor color existingTeams None ;;
  Returned (mkTeam uuid (trim name) color).
End Names.

(** The body of the [for] loop of [createTeams], for one [i]; [uuid i] is
    the id the [i]-th call of [uuidv4()] returns. *)
Definition team_of (uuid : nat -> string) (i : nat) : Attempt Team :=
  match AVAILABLE_COLORS !! (i mod length AVAILABLE_COLORS)%nat with
  | Some color =>
      Returned (mkTeam (uuid i) ("Team " +:+ pretty (i + 1)%nat) (value color))
  | None => Threw (Raised (TypeError "color is undefined"))
  end.

Fixpoint attempt_all {A B} (f : A -> Attempt B) (l : list A) : Attempt (list B) :=
  match l with
  | [] => Returned []
  | a :: l' => b ← f a; bs ← attempt_all f l'; Returned (b :: bs)
  end.

Definition createTeams (uuid : nat -> string) (count : Z) : Attempt (list Team) :=
  validateTeamCount count ;;
  attempt_all (team_of uuid) (seq 0 (Z.to_nat count)).

(** ** game.service.ts: the remaining methods *)

Definition with_selectedTargetId (s : GameState) (v : option string) : GameState :=
  mkGameState (gameId s) (players s) (teams s) (snakesAndLadders s) (mapType s)
    (currentDiceRollerId s) v (lastDiceResult s)
    (diceConfig s) (currentRound s) (turnsInCurrentRound s)
    (isGameStarted s) (isGameFinished s) (showTokenForPlayerId s)
    (winningPositions s) (createdAt s) (lastUpdatedAt s).

Definition with_showTokenForPlayerId (s : GameState) (v : option string)
    : GameState :=
  mkGameState (gameId s) (players s) (teams s) (snakesAndLadders s) (mapType s)
    (currentDiceRollerId s) (selectedTargetId s) (lastDiceResult s)
    (diceConfig s) (currentRound s) (turnsInCurrentRound s)
    (isGameStarted s) (isGameFinished s) v
    (winningPositions s) (createdAt s) (lastUpdatedAt s).

(** [updateState] for an updater that throws one of the further errors. *)
Definition updateState_throwing (now : Date)
    (updater : GameState -> Attempt GameState) (svc : Service) : Attempt Service :=
  match svc with
  | None => Threw (Raised NotInitializedError)
  | Some currentState =>
      newState ← updater currentState;
      Returned (Some (with_lastUpdatedAt newState now))
  end.

Definition checkSnakeOrLadder (position : Z) (svc : Service)
    : option SnakeOrLadder :=
  match svc with
  | None => None
  | Some state => Array_find (starts_at position) (snakesAndLadders state)
  end.

Definition applySpecialMove_updater (playerId : string) (special : SnakeOrLadder)
    (state : GameState) : Result GameState :=
  let playerIndex := Array_findIndex (has_id playerId) (players state) in
  if playerIndex =? -1 then Err (PlayerNotFoundError playerId) else
  match players state !! Z.to_nat playerIndex with
  | None => Err (TypeError "player is undefined")
  | Some player =>
      let updatedPlayer := with_position player (endPosition special) in
      let updatedPlayers := <[Z.to_nat playerIndex := updatedPlayer]> (players state) in
      Ok (with_players state updatedPlayers)
  end.

Definition applySpecialMove (now : Date) (playerId : string)
    (special : SnakeOrLadder) : Service -> Result Service :=
  updateState now (applySpecialMove_updater playerId special).

Definition getCurrentRoller (svc : Service) : option Player :=
  match svc with
  | None => None
  | Some state => Array_find (has_id (currentDiceRollerId state)) (players state)
  end.

Definition checkGameEnd (svc : Service) : bool :=
  match svc with
  | None => false
  | Some state =>
      if Z.of_nat (length (players state)) =? 0 then false
      else forallb isFinished (players state)
  end.

Definition setState (state : GameState) (svc : Service) : Service := Some state.

Definition setSelectedTarget_updater (targetId : string) (state : GameState)
    : Attempt GameState :=
  match Array_find (has_id targetId) (players state) with
  | None => Threw (TargetNotFoundError targetId)
  | Some targetPlayer =>
      if isFinished targetPlayer then Threw (TargetFinishedError (name targetPlayer))
      else Returned (with_selectedTargetId state (Some targetId))
  end.

Definition setSelectedTarget (now : Date) (targetId : string)
    : Service -> Attempt Service :=
  updateState_throwing now (setSelectedTarget_updater targetId).

Definition applyPendingDiceConfig_updater (state : GameState) : Result GameState :=
  match pendingMaxPoints (diceConfig state) with
  | PendingValue v =>
      Ok (with_diceConfig state {| maxPoints := v; pendingMaxPoints := PendingNull |})
  | _ => Ok state
  end.

Definition applyPendingDiceConfig (now : Date) : Service -> Result Service :=
  updateState now applyPendingDiceConfig_updater.

Definition getDiceConfig (svc : Service) : option DiceConfiguration :=
  diceConfig <$> svc.

Definition reset (svc : Service) : Service := None.

(** [playerId] is a string or [null]. *)
Definition setShowTokenForPlayer_updater (playerId : option string)
    (state : GameState) : Result GameState :=
  match playerId with
  | Some wanted =>
      match Array_find (has_id wanted) (players state) with
      | None => Err (PlayerNotFoundError wanted)
      | Some _ => Ok tt
      end
  | None => Ok tt
  end ;;
  Ok (with_showTokenForPlayerId state playerId).

Definition setShowTokenForPlayer (now : Date) (playerId : option string)
    : Service -> Result Service :=
  updateState now (setShowTokenForPlayer_updater playerId).

(** [!state.showTokenForPlayerId] holds for [null] and for the empty
    string. *)
Definition getShowTokenPlayer (svc : Service) : option Player :=
  match svc with
  | None => None
  | Some state =>
      match showTokenForPlayerId state with
      | None => None
      | Some shown =>
          if decide (shown = EmptyString) then None
          else Array_find (has_id shown) (players state)
      end
  end.

(** ** Sequences of calls

    The methods that change the state through [updateState], as values, and
    a service that receives them one after the other; a call that throws
    leaves the state as it was. *)

Inductive Call :=
| MovePlayer (playerId : string) (steps : Z)
| ApplySpecialMove (playerId : string) (special : SnakeOrLadder)
| NextTurn
| MarkPlayerFinished (finishTime : Date) (playerId : string)
| SetSelectedTarget (targetId : string)
| UpdateDiceConfig (maxPoints : JSNumber)
| UpdateDiceConfigPending (maxPoints : JSNumber)
| ApplyPendingDiceConfig
| SetShowTokenForPlayer (playerId : option string).

Definition perform (now : Date) (call : Call) (svc : Service) : Attempt Service :=
  match call with
  | MovePlayer playerId steps => raising (movePlayer now playerId steps svc)
  | ApplySpecialMove playerId special =>
      raising (applySpecialMove now playerId special svc)
  | NextTurn => raising (nextTurn now svc)
  | MarkPlayerFinished finishTime playerId =>
      raising (markPlayerFinished finishTime now playerId svc)
  | SetSelectedTarget targetId => setSelectedTarget now targetId svc
  | UpdateDiceConfig maxPoints => raising (updateDiceConfig now maxPoints svc)
  | UpdateDiceConfigPending maxPoints =>
      raising (updateDiceConfigPending now maxPoints svc)
  | ApplyPendingDiceConfig => raising (applyPendingDiceConfig now svc)
  | SetShowTokenForPlayer playerId =>
      raising (setShowTokenForPlayer now playerId svc)
  end.

Definition settled (svc : Service) (a : Attempt Service) : Service :=
  match a with
  | Returned svc' => svc'
  | Threw _ => svc
  end.

(** Each call comes with the time at which it is made. *)
Fixpoint play (calls : list (Date * Call)) (svc : Service) : Service :=
  match calls with
  | [] => svc
  | (now, call) :: calls' => play calls' (settled svc (perform now call svc))
  end.

(** What identifies a player, and what of a game no call rewrites. *)
Definition identity (p : Player)
    : string * string * string * option string * option string * Z :=
  (id p, name p, color p, teamId p, teamColor p, turnOrder p).

Definition same_game (a b : GameState) : Prop :=
  identity <$> players a = identity <$> players b /\
  gameId a = gameId b /\ teams a = teams b /\
  snakesAndLadders a = snakesAndLadders b /\ mapType a = mapType b /\
  GameState_winningPositions a = GameState_winningPositions b /\
  createdAt a = createdAt b /\
  isGameStarted a = isGameStarted b /\ isGameFinished a = isGameFinished b.

(** A dice configuration the service can roll with. *)
Definition valid_dice (c : DiceConfiguration) : Prop :=
  1 <= maxPoints c /\
  match pendingMaxPoints c with
  | PendingValue v => 1 <= v
  | _ => True
  end.

Definition on_board (p : Player) : Prop := 0 <= position p <= 100.

(** The calls whose argument is a square of the board. *)
Definition lands_on_board (call : Call) : Prop :=
  match call with
  | ApplySpecialMove _ special => 0 <= endPosition special <= 100
  | _ => True
  end.

(** Who has finished stays finished. *)
Definition finished_kept (a b : GameState) : Prop :=
  Forall2 (fun p p' => id p' = id p /\ (isFinished p = true -> isFinished p' = true))
    (players a) (players b).

(** A board with one snake and one ladder, Alice standing on the snake's
    head. *)
Definition small_board : GameState :=
  {| gameId := "g-2";
     players := [with_position alice 40; with_position bob 5];
     teams := [];
     snakesAndLadders := [mkSnakeOrLadder "s-1" snake 40 7;
                          mkSnakeOrLadder "l-1" ladder 5 30];
     mapType := random; currentDiceRollerId := "p-a";
     selectedTargetId := Some "p-a"; lastDiceResult := Some 4;
     diceConfig := {| maxPoints := 12; pendingMaxPoints := PendingValue 6 |};
     currentRound := 1; turnsInCurrentRound := 1;
     isGameStarted := true; isGameFinished := false;
     showTokenForPlayerId := None; winningPositions := [16];
     createdAt := t0; lastUpdatedAt := t0 |}.

(** ** player.model.ts *)

Section PlayerNames.
(** [String.prototype.trim], [String.prototype.toLowerCase] and the text a
    number has in a template literal. *)
Variable trim : string -> string.
Variable toLowerCase : string -> string.
Variable Number_toString : JSNumber -> string.

(** [(index * 360) / total] *)
Definition hue (index total : Z) : JSNumber :=
  if total =? 0 then
    if index =? 0 then NaN
    else if 0 <? index then PosInfinity else NegInfinity
  else Finite (inject_Z (index * 360) / inject_Z total)%Q.

Definition generatePlayerColor (index total : Z) : string :=
  "hsl(" +:+ Number_toString (hue index total) +:+ ", 70%, 50%)".

Definition validatePlayerName (name : string) : Attempt unit :=
  if bool_decide (name = EmptyString) || (Z.of_nat (String.length (trim name)) =? 0)
  then Threw InvalidPlayerNameError
  else Returned tt.

Definition normalized (name : string) : string := toLowerCase (trim name).

Definition same_name (normalizedName : string) (player : Player) : Prop :=
  normalized (name player) = normalizedName.
Global Instance same_name_dec normalizedName player :
  Decision (same_name normalizedName player).
Proof. unfold same_name. apply _. Defined.

Definition checkDuplicatePlayerName (name : string)
    (existingPlayers : list Player) : Attempt unit :=
  let normalizedName := normalized name in
  if decide (Exists (same_name normalizedName) existingPlayers)
  then Threw (DuplicatePlayerNameError name)
  else Returned tt.

Definition createPlayer (uuid : string) (name : string) (index total : Z)
    (existingPlayers : list Player) : Attempt Player :=
  validatePlayerName name ;;
  checkDuplicatePlayerName name existingPlayers ;;
  Returned (mkPlayer uuid (trim name) (generatePlayerColor index total)
              None None 0 false None index).

(** [names.forEach((name, index) => ...)] from [index] on, [players] being
    the array filled so far; [uuid i] is the id drawn for the player of
    index [i]. *)
Fixpoint createPlayers_from (uuid : nat -> string) (total : Z) (index : nat)
    (names : list string) (players : list Player) : Attempt (list Player) :=
  match names with
  | [] => Returned players
  | name :: names' =>
      player ← createPlayer (uuid index) name (Z.of_nat index) total players;
      createPlayers_from uuid total (S index) names' (players ++ [player])
  end.

Definition createPlayers (uuid : nat -> string) (names : list string)
    : Attempt (list Player) :=
  createPlayers_from uuid (Z.of_nat (length names)) 0 names [].

(** ** game.service.ts: setting the players up *)

Definition initializePlayers (uuid : nat -> string) (count : Z)
    (names : list string) : Attempt (list Player) :=
  raising (validatePlayerCount count) ;;
  if negb (Z.of_nat (length names) =? count)
  then Threw (CountMismatchError count (Z.of_nat (length names)))
  else createPlayers uuid names.

Record PlayerData := mkPlayerData {
  data_name : string;
  data_teamId : string
}.

(** [teams.forEach(team => teamColorMap.set(team.id, team.color))] *)
Definition teamColorMap_of (teams : list Team) : gmap string string :=
  foldl (fun m team => <[team_id team := team_color team]> m) ∅ teams.

(** [teamColorMap.get(data.teamId) || generatePlayerColor(index, count)] *)
Definition teamColor_of (teamColorMap : gmap string string) (teamId : string)
    (index count : Z) : string :=
  match teamColorMap !! teamId with
  | Some teamColor =>
      if bool_decide (teamColor = EmptyString)
      then generatePlayerColor index count else teamColor
  | None => generatePlayerColor index count
  end.

Fixpoint initializePlayersWithTeams_from (uuid : nat -> string) (count : Z)
    (teamColorMap : gmap string string) (index : nat)
    (playerData : list PlayerData) (players : list Player)
    (seenNames : gset string) : Attempt (list Player) :=
  match playerData with
  | [] => Returned players
  | data :: playerData' =>
      let trimmedName := trim (data_name data) in
      let normalizedName := toLowerCase trimmedName in
      if bool_decide (trimmedName = EmptyString) then Threw EmptyNameError else
      if decide (normalizedName ∈ seenNames) then Threw (NameExistsError trimmedName)
      else
        let seenNames := {[normalizedName]} ∪ seenNames in
        let teamColor :=
          teamColor_of teamColorMap (data_teamId data) (Z.of_nat index) count in
        initializePlayersWithTeams_from uuid count teamColorMap (S index)
          playerData'
          (players ++ [mkPlayer (uuid index) trimmedName teamColor
                         (Some (data_teamId data)) (Some teamColor)
                         0 false None (Z.of_nat index)])
          seenNames
  end.

Definition initializePlayersWithTeams (uuid : nat -> string) (count : Z)
    (playerData : list PlayerData) (teams : list Team) : Attempt (list Player) :=
  raising (validatePlayerCount count) ;;
  if negb (Z.of_nat (length playerData) =? count)
  then Threw (CountMismatchError count (Z.of_nat (length playerData)))
  else initializePlayersWithTeams_from uuid count (teamColorMap_of teams) 0
         playerData [] ∅.

(** [for (let i = 0; i < count; i++) colors.push(generatePlayerColor(i, count))] *)
Definition generatePlayerColors (count : Z) : list string :=
  (fun i => generatePlayerColor i count) <$> seqZ 0 count.

(** The player [createPlayers] makes of the name at [index]. *)
Definition new_player (uuid : nat -> string) (total : Z) (index : nat)
    (name : string) : Player :=
  mkPlayer (uuid index) (trim name) (generatePlayerColor (Z.of_nat index) total)
    None None 0 false None (Z.of_nat index).

(** The player [initializePlayersWithTeams] makes of the entry at [index]. *)
Definition new_team_player (uuid : nat -> string) (count : Z)
    (teamColorMap : gmap string string) (index : nat) (data : PlayerData) : Player :=
  let teamColor :=
    teamColor_of teamColorMap (data_teamId data) (Z.of_nat index) count in
  mkPlayer (uuid index) (trim (data_name data)) teamColor
    (Some (data_teamId data)) (Some teamColor) 0 false None (Z.of_nat index).

Definition nonblank (name : string) : Prop := trim name <> EmptyString.
End PlayerNames.

(** ** leaderboard.component.ts *)

(** The fields of a player that an entry's fields of the same name copy. *)
Definition Player_isFinished : Player -> bool := isFinished.
Definition Player_finishTime : Player -> option Date := finishTime.

Module Leaderboard.
Record LeaderboardEntry := mkLeaderboardEntry {
  rank : Z;
  playerId : string;
  playerName : string;
  playerColor : string;
  currentPosition : Z;
  isFinished : bool;
  finishTime : option Date;      (* finishTime?: Date *)
  isMoving : bool;
  isSelected : bool
}.

(** [entry.rank = index + 1] *)
Definition with_rank (entry : LeaderboardEntry) (v : Z) : LeaderboardEntry :=
  mkLeaderboardEntry v (playerId entry) (playerName entry) (playerColor entry)
    (currentPosition entry) (isFinished entry) (finishTime entry)
    (isMoving entry) (isSelected entry).

(** [d.getTime()]: [None] is [NaN]. *)
Definition getTime (d : Date) : option Z :=
  match d with
  | TimeValue ms => Some ms
  | InvalidDate => None
  end.

(** [finishTime ? new Date(finishTime).getTime() : 0] *)
Definition time_of (finishTime : option Date) : option Z :=
  match finishTime with
  | Some d => getTime d
  | None => Some 0
  end.

(** The comparator handed to [sort]; a [NaN] it returns counts as 0. *)
Definition compare_entries (a b : LeaderboardEntry) : Z :=
  if isFinished a && isFinished b then
    match time_of (finishTime a), time_of (finishTime b) with
    | Some timeA, Some timeB => timeA - timeB
    | _, _ => 0
    end
  else if isFinished a && negb (isFinished b) then -1
  else if negb (isFinished a) && isFinished b then 1
  else currentPosition b - currentPosition a.

Definition entry_of (movingPlayerId selectedTargetId : option string)
    (player : Player) : LeaderboardEntry :=
  mkLeaderboardEntry 0 (id player) (name player) (color player) (position player)
    (Player_isFinished player) (Player_finishTime player)
    (bool_decide (Some (id player) = movingPlayerId))
    (bool_decide (Some (id player) = selectedTargetId)).

Definition calculateLeaderboard (movingPlayerId selectedTargetId : option string)
    (players : list Player) : list LeaderboardEntry :=
  let entries := entry_of movingPlayerId selectedTargetId <$> players in
  let entries := Array_sort compare_entries entries in
  imap (fun index entry => with_rank entry (Z.of_nat index + 1)) entries.

(** How two entries stand on the board: those who finished first, by
    finish time, then the others from the highest position down. *)
Definition ranks_before (a b : LeaderboardEntry) : Prop :=
  match isFinished a, isFinished b with
  | true, true =>
      exists timeA timeB,
        time_of (finishTime a) = Some timeA /\
        time_of (finishTime b) = Some timeB /\ timeA <= timeB
  | true, false => True
  | false, true => False
  | false, false => currentPosition b <= currentPosition a
  end.

(** A finish time that is a time. *)
Definition timed (entry : LeaderboardEntry) : Prop :=
  finishTime entry <> Some InvalidDate.
End Leaderboard.

(** ** player-setup.component.ts: the winning positions of the form *)

Module PlayerSetup.
(** What [winningPositionError] says. *)
Inductive PositionError :=
| PositionMissing
| PositionNotInteger
| PositionOutOfRange (playerCount : Z)
| PositionIsDefault
| PositionAlreadyAdded.

(** The fields of the component the three methods read and write;
    [newWinningPosition] is a number or [null]. *)
Record Form := mkForm {
  playerCount : Z;
  additionalWinningPositions : list Z;
  newWinningPosition : option JSNumber;
  winningPositionError : option PositionError
}.

Definition with_error (form : Form) (error : PositionError) : Form :=
  mkForm (playerCount form) (additionalWinningPositions form)
    (newWinningPosition form) (Some error).

Definition isValidWinningPosition (form : Form) : bool :=
  match newWinningPosition form with
  | None => false
  | Some pos =>
      if negb (Number_isInteger pos) then false else
      let pos := integer_of pos in
      if (pos <? 1) || (playerCount form <? pos) then false else
      if (pos =? 16) && (16 <=? playerCount form) then false else
      if includes pos (additionalWinningPositions form) then false else
      true
  end.

Definition addWinningPosition (form : Form) : Form :=
  let form := mkForm (playerCount form) (additionalWinningPositions form)
                (newWinningPosition form) None in
  match newWinningPosition form with
  | None => with_error form PositionMissing
  | Some pos =>
      if negb (Number_isInteger pos) then with_error form PositionNotInteger else
      let pos := integer_of pos in
      if (pos <? 1) || (playerCount form <? pos)
      then with_error form (PositionOutOfRange (playerCount form)) else
      if (pos =? 16) && (16 <=? playerCount form)
      then with_error form PositionIsDefault else
      if includes pos (additionalWinningPositions form)
      then with_error form PositionAlreadyAdded else
      mkForm (playerCount form)
        (Array_sort (fun a b => a - b) (additionalWinningPositions form ++ [pos]))
        None None
  end.

Definition removeWinningPosition (pos : Z) (form : Form) : Form :=
  mkForm (playerCount form)
    (filter (fun p => p <> pos) (additionalWinningPositions form))
    (newWinningPosition form) (winningPositionError form).

Definition allWinningPositions (form : Form) : list Z :=
  let positions :=
    if 16 <=? playerCount form then 16 :: additionalWinningPositions form
    else additionalWinningPositions form in
  Array_sort (fun a b => a - b) positions.

(** What the user does with the three controls: type a position, press
    the add button, press a remove button. *)
Inductive Action :=
| Type_position (v : option JSNumber)
| Add
| Remove (pos : Z).

Definition act (action : Action) (form : Form) : Form :=
  match action with
  | Type_position v =>
      mkForm (playerCount form) (additionalWinningPositions form) v
        (winningPositionError form)
  | Add => addWinningPosition form
  | Remove pos => removeWinningPosition pos form
  end.

(** The list the form keeps: ascending without repetition, made of ranks
    of the game, without the default 16 when 16 is a rank. *)
Definition tidy (form : Form) : Prop :=
  StronglySorted Z.lt (additionalWinningPositions form) /\
  Forall (fun p => 1 <= p <= playerCount form /\
                   (16 <= playerCount form -> p <> 16))
    (additionalWinningPositions form).

(** *** The teams of the form *)

Definition used_by_another (colorValue excludeTeamId : string) (team : Team) : Prop :=
  team_color team = colorValue /\ team_id team <> excludeTeamId.
Global Instance used_by_another_dec colorValue excludeTeamId team :
  Decision (used_by_another colorValue excludeTeamId team).
Proof. unfold used_by_another. apply _. Defined.

Definition isColorUsed (teams : list Team) (colorValue excludeTeamId : string) : bool :=
  bool_decide (Exists (used_by_another colorValue excludeTeamId) teams).

Definition is_team (teamId : string) (team : Team) : Prop := team_id team = teamId.
Global Instance is_team_dec teamId team : Decision (is_team teamId team).
Proof. unfold is_team. apply _. Defined.

Definition selectTeamColor (teamId colorValue : string) (teams : list Team)
    : list Team :=
  if isColorUsed teams colorValue teamId then teams else
  let teamIndex := Array_findIndex (is_team teamId) teams in
  if negb (teamIndex =? -1) then
    match teams !! Z.to_nat teamIndex with
    | Some team =>
        <[Z.to_nat teamIndex := mkTeam (team_id team) (team_name team) colorValue]>
          teams
    | None => teams
    end
  else teams.

(** *** The play order of the form *)

(** The fields [name], [teamId], [error] and [order] of a row of the
    form; an order is a number or [null]. *)
Record PlayerNameInput := mkPlayerNameInput {
  input_name : string;
  input_teamId : string;
  input_error : option string;
  order : option Z
}.

(** The comparator of [sortPlayersByOrder]. *)
Definition by_order (a b : PlayerNameInput) : Z :=
  match order a, order b with
  | Some orderA, Some orderB => orderA - orderB
  | Some _, None => -1
  | None, Some _ => 1
  | None, None => 0
  end.

Definition sortPlayersByOrder (playerNames : list PlayerNameInput)
    : list PlayerNameInput :=
  Array_sort by_order playerNames.

(** [playerNames.some((p, i) => i !== index && p.order === currentOrder)] *)
Definition isDuplicateOrder (index : nat) (playerNames : list PlayerNameInput)
    : Result bool :=
  match playerNames !! index with
  | None => Err (TypeError "Cannot read properties of undefined, reading order")
  | Some current =>
      match order current with
      | None => Ok false
      | Some currentOrder =>
          Ok (existsb (fun entry => negb (entry.1 =? index)%nat
                                    && bool_decide (order entry.2 = Some currentOrder))
                (imap (fun i p => (i, p)) playerNames))
      end
  end.

(** [new Set(orders).size !== orders.length] *)
Definition hasDuplicateOrders (playerNames : list PlayerNameInput) : bool :=
  let orders := omap order playerNames in
  negb (Z.of_nat (size (list_to_set orders : gset Z)) =? Z.of_nat (length orders)).

Definition ordered (p : PlayerNameInput) : Prop := is_Some (order p).
Global Instance ordered_dec p : Decision (ordered p).
Proof. unfold ordered. apply _. Defined.

Definition unordered (p : PlayerNameInput) : Prop := order p = None.
Global Instance unordered_dec p : Decision (unordered p).
Proof. unfold unordered. apply _. Defined.

(** Two rows in the order of their numbers. *)
Definition plays_before (a b : PlayerNameInput) : Prop :=
  exists orderA orderB,
    order a = Some orderA /\ order b = Some orderB /\ orderA <= orderB.

Definition plays_strictly_before (a b : PlayerNameInput) : Prop :=
  exists orderA orderB,
    order a = Some orderA /\ order b = Some orderB /\ orderA < orderB.
End PlayerSetup.

(** ** What else the generator keeps

    No two hazards end on the same square, and no hazard starts on a
    square where an earlier one ends (the generator tests a start against
    the ends used so far). *)
Definition well_spread (table : list SnakeOrLadder) : Prop :=
  NoDup (endPosition <$> table) /\
  forall i j a b,
    (i < j)%nat -> table !! i = Some a -> table !! j = Some b ->
    Hazard_startPosition b <> endPosition a.

(** The locals of the generator agree with the table built so far. *)
Definition generation_spread (uuid : nat -> string) (g : Generation) : Prop :=
  usedEndPositions g = list_to_set (endPosition <$> elements g) /\
  ids g = length (elements g) /\
  sl_id <$> elements g = uuid <$> seq 0 (length (elements g)) /\
  well_spread (elements g).

(** An attempt places at most one hazard, of the kind of its loop, on
    squares that are no ends yet, and says whether it did. *)
Definition places (uuid : nat -> string) (kind : HazardType) (g : Generation)
    (outcome : Generation * bool) : Prop :=
  (outcome.2 = false /\ elements outcome.1 = elements g /\
   usedEndPositions outcome.1 = usedEndPositions g /\ ids outcome.1 = ids g) \/
  (outcome.2 = true /\
   exists startPosition endPosition,
     (startPosition ∉ usedEndPositions g) /\
     (endPosition ∉ usedEndPositions g) /\
     elements outcome.1
       = elements g ++ [mkSnakeOrLadder (uuid (ids g)) kind startPosition endPosition] /\
     usedEndPositions outcome.1 = {[endPosition]} ∪ usedEndPositions g /\
     ids outcome.1 = S (ids g)).

(** ** storage.service.ts: saving *)

(** What [JSON.parse(JSON.stringify(v))] is: a member that is [undefined]
    is left out of an object and is [null] in an array; a number that is
    not finite is [null]; a date is its ISO text (by [toJSON]), [null] for
    the Invalid Date. *)
Definition JSON_items (value : JSValue -> JSValue)
    : list JSValue -> list JSValue :=
  fix each items :=
    match items with
    | [] => []
    | VUndefined :: items' => VNull :: each items'
    | item :: items' => value item :: each items'
    end.

Definition JSON_members (value : JSValue -> JSValue)
    : list (string * JSValue) -> list (string * JSValue) :=
  fix each fields :=
    match fields with
    | [] => []
    | (_, VUndefined) :: fields' => each fields'
    | (k, member) :: fields' => (k, value member) :: each fields'
    end.

Fixpoint JSON_value (v : JSValue) : JSValue :=
  match v with
  | VUndefined => VUndefined
  | VNull => VNull
  | VBool b => VBool b
  | VNumber (Finite q) => VNumber (Finite q)
  | VNumber _ => VNull
  | VString s => VString s
  | VDate (TimeValue t) => VString (Date_toISOString t)
  | VDate InvalidDate => VNull
  | VArray items => VArray (JSON_items JSON_value items)
  | VObject fields => VObject (JSON_members JSON_value fields)
  end.

Section Saving.
(** The platform: [JSON.stringify] on the values of this model, and
    whether the storage takes a write ([setItem] throws when the quota is
    exceeded). *)
Variable JSON_stringify : JSValue -> string.
Variable toISOString : Z -> string.
Variable fits : gmap string string -> bool.

(** [localStorage.setItem(k, v)]; [None] is the exception. *)
Definition setItem (k v : string) (store : gmap string string)
    : option (gmap string string) :=
  if fits (<[k := v]> store) then Some (<[k := v]> store) else None.

Definition saveGameState (state : JSValue) (service : StorageService)
    : StorageService :=
  if negb (isStorageAvailable service) then service else
  match serializeState toISOString state with
  | Err _ => service
  | Ok serializedState =>
      match setItem STORAGE_KEY (JSON_stringify serializedState)
              (localStorage service) with
      | None => service
      | Some store =>
          match setItem VERSION_KEY CURRENT_VERSION store with
          | None => mkStorageService (isStorageAvailable service) store
          | Some store' => mkStorageService (isStorageAvailable service) store'
          end
      end
  end.
End Saving.

(** A state whose record [validateState] accepts when it comes back: the
    game id, and the id and name of each player, are not empty. *)
Definition named (x : GameState) : Prop :=
  gameId x <> EmptyString /\
  Forall (fun p => id p <> EmptyString /\ name p <> EmptyString) (players x).

(** A [JSON] for one game: every value is written as the same text, and
    the text is read as the record of the game. *)
Definition stringify_saved : JSValue -> string := fun _ => "saved".

Definition parse_saved (x : GameState) (text : string) : option JSValue :=
  if decide (text = "saved") then
    match serializeState Date_toISOString (js_of_GameState x) with
    | Ok y => Some (JSON_value y)
    | Err _ => None
    end
  else None.

(** ** notification.service.ts *)

Module Notifications.
Inductive NotificationType := success | info | warning | error.

Record Notification := mkNotification {
  id : string;
  message : string;
  type : NotificationType;
  duration : Z;
  createdAt : Date
}.

(** [type?] and [duration?] *)
Record NotificationOptions := mkOptions {
  option_type : option NotificationType;
  option_duration : option Z
}.

Definition DEFAULT_DURATION : Z := 3000.
Definition MAX_NOTIFICATIONS : Z := 5.

(** The list the subject holds, and the ids that have a timer running
    (the keys of [timeoutMap]; a timer handle is never falsy). *)
Record NotificationService := mkNotificationService {
  notifications : list Notification;
  timeoutMap : gset string
}.

(** [v || fallback] on a number that may be missing *)
Definition or_number (v : option Z) (fallback : Z) : Z :=
  match v with
  | Some d => if d =? 0 then fallback else d
  | None => fallback
  end.

Definition clearTimeout (notificationId : string) (service : NotificationService)
    : NotificationService :=
  if decide (notificationId ∈ timeoutMap service)
  then mkNotificationService (notifications service)
         (timeoutMap service ∖ {[notificationId]})
  else service.

Definition addNotification (notification : Notification)
    (service : NotificationService) : NotificationService :=
  let current := notifications service in
  let service :=
    if MAX_NOTIFICATIONS <=? Z.of_nat (length current) then
      match current with
      | oldest :: _ =>
          mkNotificationService (drop 1 current)
            (timeoutMap (clearTimeout (id oldest) service))
      | [] => service
      end
    else service in
  mkNotificationService (notifications service ++ [notification])
    (timeoutMap service).

Definition removeNotification (notificationId : string)
    (service : NotificationService) : NotificationService :=
  let service := clearTimeout notificationId service in
  mkNotificationService
    (filter (fun n => id n <> notificationId) (notifications service))
    (timeoutMap service).

Definition scheduleRemoval (notification : Notification)
    (service : NotificationService) : NotificationService :=
  mkNotificationService (notifications service)
    ({[id notification]} ∪ timeoutMap service).

(** [newId] is what [generateId()] returns and [now] is [new Date()]. *)
Definition show (newId : string) (now : Date) (message : string)
    (options : NotificationOptions) (service : NotificationService)
    : string * NotificationService :=
  let notification :=
    mkNotification newId message (default info (option_type options))
      (or_number (option_duration options) DEFAULT_DURATION) now in
  (newId, scheduleRemoval notification (addNotification notification service)).

Definition show_error (newId : string) (now : Date) (message : string)
    (duration : option Z) : NotificationService -> string * NotificationService :=
  show newId now message (mkOptions (Some error) (Some (or_number duration 5000))).

Definition dismiss (notificationId : string)
    : NotificationService -> NotificationService :=
  removeNotification notificationId.

Definition dismissAll (service : NotificationService) : NotificationService :=
  mkNotificationService [] ∅.

(** What happens to the service: a notification is shown, one is
    dismissed, all are, or the timer of one runs out (a timer that was
    cleared does not). *)
Inductive Event :=
| Show (newId : string) (now : Date) (message : string) (options : NotificationOptions)
| Show_error (newId : string) (now : Date) (message : string) (duration : option Z)
| Dismiss (notificationId : string)
| Dismiss_all
| Timer (notificationId : string).

Definition happen (event : Event) (service : NotificationService)
    : NotificationService :=
  match event with
  | Show newId now message options => (show newId now message options service).2
  | Show_error newId now message duration =>
      (show_error newId now message duration service).2
  | Dismiss notificationId => dismiss notificationId service
  | Dismiss_all => dismissAll service
  | Timer notificationId =>
      if decide (notificationId ∈ timeoutMap service)
      then removeNotification notificationId service
      else service
  end.

(** Each id generated is new among the notifications on display. *)
Fixpoint fresh_ids (events : list Event) (service : NotificationService) : Prop :=
  match events with
  | [] => True
  | event :: events' =>
      match event with
      | Show newId _ _ _ | Show_error newId _ _ _ =>
          newId ∉ id <$> notifications service
      | _ => True
      end /\ fresh_ids events' (happen event service)
  end.

(** At most five notifications, of distinct ids, each with its timer and
    no timer without its notification. *)
Definition tidy (service : NotificationService) : Prop :=
  NoDup (id <$> notifications service) /\
  timeoutMap service = list_to_set (id <$> notifications service) /\
  Z.of_nat (length (notifications service)) <= MAX_NOTIFICATIONS.
End Notifications.

(** ** dice-configuration.component.ts and the dice modal of
    game-main.component.ts *)

(** What [validationError] says. *)
Inductive ConfigError :=
| ConfigNotANumber
| ConfigNotInteger
| ConfigBelowOne
| ConfigSameAsCurrent
| ConfigSameAsPending.

(** [isNaN(n)], [n < z] and [n === z] for a number [n] and an integer [z]. *)
Definition is_NaN (n : JSNumber) : bool :=
  match n with NaN => true | _ => false end.

Definition less_than (n : JSNumber) (z : Z) : bool :=
  match n with
  | Finite q => negb (Qle_bool (inject_Z z) q)
  | NegInfinity => true
  | _ => false
  end.

Definition is_number_Z (n : JSNumber) (z : Z) : bool :=
  match n with
  | Finite q => Qeq_bool q (inject_Z z)
  | _ => false
  end.

(** The field of the form holds a number, or [null] when the input is
    empty; the result is what is returned and what [validationError] is
    set to. *)
Definition isValidConfig (maxPoints : option JSNumber) (currentMaxPoints : Z)
    : bool * option ConfigError :=
  match maxPoints with
  | None => (false, Some ConfigNotANumber)
  | Some n =>
      if negb (truthy (VNumber n)) || is_NaN n then (false, Some ConfigNotANumber)
      else if negb (Number_isInteger n) then (false, Some ConfigNotInteger)
      else if less_than n 1 then (false, Some ConfigBelowOne)
      else if is_number_Z n currentMaxPoints then (false, Some ConfigSameAsCurrent)
      else (true, None)
  end.

Definition isValidModalConfig (configMaxPoints : option JSNumber)
    (currentMaxPoints : Z) (pendingMaxPoints : option Z)
    : bool * option ConfigError :=
  match configMaxPoints with
  | None => (false, Some ConfigNotANumber)
  | Some n =>
      if negb (truthy (VNumber n)) || is_NaN n then (false, Some ConfigNotANumber)
      else if negb (Number_isInteger n) then (false, Some ConfigNotInteger)
      else if less_than n 1 then (false, Some ConfigBelowOne)
      else if is_number_Z n currentMaxPoints && bool_decide (pendingMaxPoints = None)
           then (false, Some ConfigSameAsCurrent)
      else if match pendingMaxPoints with
              | Some pending => is_number_Z n pending
              | None => false
              end
           then (false, Some ConfigSameAsPending)
      else (true, None)
  end.

(** What the three buttons do to the store: nothing when the form refuses
    the number; an exception of the service is caught. *)
Definition applyConfig (now : Date) (maxPoints : option JSNumber)
    (currentMaxPoints : Z) (svc : Service) : Service :=
  match maxPoints with
  | Some n =>
      if (isValidConfig maxPoints currentMaxPoints).1
      then after svc (updateDiceConfig now n svc) else svc
  | None => svc
  end.

Definition applyConfigFromModal (now : Date) (configMaxPoints : option JSNumber)
    (currentMaxPoints : Z) (pendingMaxPoints : option Z) (svc : Service) : Service :=
  match configMaxPoints with
  | Some n =>
      if (isValidModalConfig configMaxPoints currentMaxPoints pendingMaxPoints).1
      then after svc (updateDiceConfigPending now n svc) else svc
  | None => svc
  end.

Definition applyConfigImmediate (now : Date) (configMaxPoints : option JSNumber)
    (currentMaxPoints : Z) (pendingMaxPoints : option Z) (svc : Service) : Service :=
  match configMaxPoints with
  | Some n =>
      if (isValidModalConfig configMaxPoints currentMaxPoints pendingMaxPoints).1
      then after svc (updateDiceConfig now n svc) else svc
  | None => svc
  end.

(* ================================================================== *)
(** * Properties *)
(* ================================================================== *)

(** Decide the integer tests in the goal, dropping the impossible branches. *)
Ltac ztest :=
  repeat match goal with
  | |- context [?a =? ?b] => destruct (Z.eqb_spec a b); try lia
  | |- context [?a <? ?b] => destruct (Z.ltb_spec a b); try lia
  | |- context [?a <=? ?b] => destruct (Z.leb_spec a b); try lia
  end.

(** ** Arrays *)

Section ArrayFacts.
Context {A : Type}.
Implicit Types (l : list A) (compare : A -> A -> Z).

Lemma sort_insert_length compare x l :
  length (sort_insert compare x l) = S (length l).
Proof.
  induction l as [|y l IH]; simpl; [done|].
  destruct (0 <? compare x y); simpl; by rewrite ?IH.
Qed.

Lemma Array_sort_length compare l :
  length (Array_sort compare l) = length l.
Proof.
  induction l as [|x l IH]; simpl; [done|].
  by rewrite sort_insert_length, IH.
Qed.

Lemma sort_insert_Permutation compare x l :
  sort_insert compare x l ≡ₚ x :: l.
Proof.
  induction l as [|y l IH]; simpl; [done|].
  destruct (0 <? compare x y); [|done].
  rewrite IH. apply Permutation_swap.
Qed.

Lemma Array_sort_Permutation compare l : Array_sort compare l ≡ₚ l.
Proof.
  induction l as [|x l IH]; simpl; [done|].
  by rewrite sort_insert_Permutation, IH.
Qed.

(** A comparator [(a, b) => key(a) - key(b)] sorts by [key]. *)
Lemma sort_insert_sorted compare (key : A -> Z) x l :
  (forall a b, compare a b = key a - key b) ->
  StronglySorted (fun a b => key a <= key b) l ->
  StronglySorted (fun a b => key a <= key b) (sort_insert compare x l).
Proof.
  intros Hcmp. induction 1 as [|y l Hl IH Hy]; simpl.
  { repeat constructor. }
  rewrite Hcmp. destruct (Z.ltb_spec 0 (key x - key y)).
  - constructor; [done|].
    rewrite sort_insert_Permutation. constructor; [lia|done].
  - constructor; [by constructor|].
    constructor; [lia|]. eapply Forall_impl; [exact Hy|]. simpl. lia.
Qed.

Lemma Array_sort_sorted compare (key : A -> Z) l :
  (forall a b, compare a b = key a - key b) ->
  StronglySorted (fun a b => key a <= key b) (Array_sort compare l).
Proof.
  intros Hcmp. induction l as [|x l IH]; simpl; [constructor|].
  by apply sort_insert_sorted.
Qed.

Lemma Array_findIndex_range (P : A -> Prop) `{!forall x, Decision (P x)} l :
  -1 <= Array_findIndex P l < Z.of_nat (length l).
Proof.
  unfold Array_findIndex.
  destruct (list_find P l) as [[i x]|] eqn:E; [|lia].
  apply list_find_Some in E as (E & _ & _).
  apply lookup_lt_Some in E. lia.
Qed.

Lemma Array_findIndex_Some (P : A -> Prop) `{!forall x, Decision (P x)} l i x :
  list_find P l = Some (i, x) -> Array_findIndex P l = Z.of_nat i.
Proof. unfold Array_findIndex. by intros ->. Qed.

(** Overwriting the found element by one that still passes the test does
    not move what [find] sees. *)
Lemma list_find_insert_same (P : A -> Prop) `{!forall x, Decision (P x)} l i x y :
  list_find P l = Some (i, x) -> P y ->
  list_find P (<[i:=y]> l) = Some (i, y).
Proof.
  intros E Hy. apply list_find_Some in E as (Hi & _ & Hlt).
  apply list_find_Some. split_and!.
  - apply list_lookup_insert_eq. by eapply lookup_lt_Some.
  - done.
  - intros j z Hj Hji. rewrite list_lookup_insert_ne in Hj by lia. eauto.
Qed.
End ArrayFacts.

(** ** The store: moving, winning, finishing *)

Lemma movePlayer_updater_found playerId steps state i player :
  list_find (has_id playerId) (players state) = Some (i, player) ->
  movePlayer_updater playerId steps state =
    let finalPosition :=
      if 100 <? position player + steps then position player
      else position player + steps in
    validatePosition finalPosition ;;
    Ok (with_players state
          (<[i := with_position player finalPosition]> (players state))).
Proof.
  intros E. unfold movePlayer_updater.
  rewrite (Array_findIndex_Some _ _ _ _ E).
  apply list_find_Some in E as (Hi & _ & _).
  destruct (Z.eqb_spec (Z.of_nat i) (-1)); [lia|].
  by rewrite Nat2Z.id, Hi.
Qed.

Lemma position_of_insert playerId state i player v now :
  list_find (has_id playerId) (players state) = Some (i, player) ->
  position_of playerId
    (Some (with_lastUpdatedAt
             (with_players state (<[i := with_position player v]> (players state)))
             now)) = Some v.
Proof.
  intros E. simpl. unfold Array_find.
  rewrite (list_find_insert_same _ _ _ _ (with_position player v) E); [done|].
  apply list_find_Some in E as (_ & E & _). exact E.
Qed.

(** C2 (as the code has it): for the player the id designates, an
    overshoot ([position + steps > 100]) leaves the position as it was; a sum
    within [[0, 100]] becomes the new position, nothing else of the state
    changing but [lastUpdatedAt]; a sum below 0 is refused with
    [InvalidPositionError] and the store is left untouched. *)
Theorem movePlayer_overshoot_law now state playerId steps i player :
  list_find (has_id playerId) (players state) = Some (i, player) ->
  let r := movePlayer now playerId steps (Some state) in
  (100 < position player + steps ->
     position_of playerId (after (Some state) r) = Some (position player)) /\
  (0 <= position player + steps <= 100 ->
     r = Ok (Some (with_lastUpdatedAt
                     (with_players state
                        (<[i := with_position player (position player + steps)]>
                           (players state))) now)) /\
     position_of playerId (after (Some state) r)
       = Some (position player + steps)) /\
  (position player + steps < 0 ->
     r = Err (InvalidPositionError (position player + steps)) /\
     after (Some state) r = Some state).
Proof.
  intros E r. subst r. unfold movePlayer, updateState.
  rewrite (movePlayer_updater_found _ _ _ _ _ E). cbv zeta.
  split_and!.
  - intros Hover. destruct (Z.ltb_spec 100 (position player + steps)); [|lia].
    unfold validatePosition.
    destruct ((position player <? 0) || (100 <? position player)) eqn:Hv; simpl.
    + unfold Array_find. by rewrite E.
    + unfold Array_find.
      rewrite (list_find_insert_same _ _ _ _ (with_position player (position player)) E);
        [done|].
      apply list_find_Some in E as (_ & E & _). exact E.
  - intros Hin. unfold validatePosition. ztest.
    simpl. split; [done|].
    unfold Array_find.
    rewrite (list_find_insert_same _ _ _ _
               (with_position player (position player + steps)) E); [done|].
    apply list_find_Some in E as (_ & E & _). exact E.
  - intros Hneg. unfold validatePosition. ztest. done.
Qed.

Lemma movePlayer_overshoot_law_witness :
  position_of "p-a" (after (Some (game_of [alice; bob] "p-a"))
                       (movePlayer t1 "p-a" 6 (Some (game_of [alice; bob] "p-a"))))
    = Some 6.
Proof.
  pose proof (movePlayer_overshoot_law t1 (game_of [alice; bob] "p-a") "p-a" 6
                0%nat alice eq_refl) as (_ & H & _).
  apply H. unfold alice. simpl. lia.
Defined.

(** C2 as stated fails below zero: a player on 0 moved by -1 is not put on
    -1; the call throws and the position stays 0. *)
Lemma movePlayer_negative_sum_refused :
  movePlayer t1 "p-a" (-1) (Some (game_of [alice; bob] "p-a"))
    = Err (InvalidPositionError (-1)) /\
  position_of "p-a" (after (Some (game_of [alice; bob] "p-a"))
                       (movePlayer t1 "p-a" (-1) (Some (game_of [alice; bob] "p-a"))))
    = Some 0 /\
  position alice + -1 <= 100 /\
  Some 0 <> Some (position alice + -1).
Proof. split_and!; [reflexivity | reflexivity | simpl; lia | discriminate]. Qed.

(** C3: [checkWinCondition] answers true exactly on position 100.  On any
    other position [markPlayerFinished] throws and the store stays as it
    was.  On 100 it returns, and in the state it leaves the player has
    [isFinished = true] and [finishTime] the time of the call, with every
    other field of the player, every other player and every other field of
    the state but [lastUpdatedAt] as before; the player still passes
    [checkWinCondition]. *)
Theorem win_law state playerId i player :
  list_find (has_id playerId) (players state) = Some (i, player) ->
  (checkWinCondition playerId (Some state) = true <-> position player = 100) /\
  (forall finishTime now,
     position player <> 100 ->
     markPlayerFinished finishTime now playerId (Some state)
       = Err (NotAtPosition100Error (name player)) /\
     after (Some state) (markPlayerFinished finishTime now playerId (Some state))
       = Some state) /\
  (forall when now,
     position player = 100 ->
     exists state' player',
       markPlayerFinished when now playerId (Some state) = Ok (Some state') /\
       state' = with_lastUpdatedAt
                  (with_players state
                     (<[i := with_finished player when]> (players state)))
                  now /\
       players state' !! i = Some player' /\
       isFinished player' = true /\
       finishTime player' = Some when /\
       (id player' = id player /\ name player' = name player /\
        color player' = color player /\ teamId player' = teamId player /\
        teamColor player' = teamColor player /\ position player' = 100 /\
        turnOrder player' = turnOrder player) /\
       length (players state') = length (players state) /\
       (forall j, j <> i -> players state' !! j = players state !! j) /\
       lastUpdatedAt state' = now /\
       (gameId state' = gameId state /\ teams state' = teams state /\
        snakesAndLadders state' = snakesAndLadders state /\
        mapType state' = mapType state /\
        currentDiceRollerId state' = currentDiceRollerId state /\
        selectedTargetId state' = selectedTargetId state /\
        lastDiceResult state' = lastDiceResult state /\
        diceConfig state' = diceConfig state /\
        currentRound state' = currentRound state /\
        turnsInCurrentRound state' = turnsInCurrentRound state /\
        isGameStarted state' = isGameStarted state /\
        isGameFinished state' = isGameFinished state /\
        showTokenForPlayerId state' = showTokenForPlayerId state /\
        GameState_winningPositions state' = GameState_winningPositions state /\
        createdAt state' = createdAt state) /\
       checkWinCondition playerId (Some state') = true).
Proof.
  intros E. split_and!.
  - simpl. unfold Array_find. rewrite E. simpl. ztest; split; (done || lia).
  - intros finishTime now Hne.
    unfold markPlayerFinished, updateState, markPlayerFinished_updater.
    rewrite (Array_findIndex_Some _ _ _ _ E).
    apply list_find_Some in E as (Hi & _ & _).
    ztest. rewrite Nat2Z.id, Hi. ztest. done.
  - intros when now Heq.
    exists (with_lastUpdatedAt
              (with_players state
                 (<[i := with_finished player when]> (players state))) now),
           (with_finished player when).
    pose proof E as Hfound.
    apply list_find_Some in Hfound as (Hi & Hid & Hfirst).
    apply lookup_lt_Some in Hi as Hlt.
    split.
    { unfold markPlayerFinished, updateState, markPlayerFinished_updater.
      rewrite (Array_findIndex_Some _ _ _ _ E).
      ztest. rewrite Nat2Z.id, Hi. ztest. done. }
    split; [done|]. cbn [players with_lastUpdatedAt with_players].
    split; [by apply list_lookup_insert_eq|].
    split; [done|]. split; [done|]. split; [by rewrite <- Heq|].
    split; [by rewrite length_insert|].
    split; [intros j Hj; by apply list_lookup_insert_ne|].
    split; [done|]. split; [done|].
    unfold checkWinCondition, Array_find.
    cbn [players with_lastUpdatedAt with_players].
    erewrite list_find_insert_same with (x := player); [|exact E|done].
    simpl. by apply Z.eqb_eq.
Qed.

Lemma win_law_witness :
  checkWinCondition "p-b" (Some (game_of [alice; with_position bob 100] "p-a"))
    = true /\
  exists state',
    markPlayerFinished t1 t1 "p-b"
      (Some (game_of [alice; with_position bob 100] "p-a")) = Ok (Some state') /\
    isFinished <$> players state' = [false; true] /\
    finishTime <$> players state' = [None; Some t1].
Proof.
  destruct (win_law (game_of [alice; with_position bob 100] "p-a") "p-b" 1%nat
              (with_position bob 100) eq_refl) as (Hwin & _ & Hmark).
  split; [by apply Hwin|].
  destruct (Hmark t1 t1 eq_refl) as (state' & player' & Hrun & -> & _).
  eexists. split; [exact Hrun|]. split; reflexivity.
Defined.

(** ** The store: turns and rounds *)

Lemma rotation_length state :
  length (rotation state) = length (filter active (players state)).
Proof. apply Array_sort_length. Qed.

Lemma nextTurn_updater_idle state :
  filter active (players state) = [] -> nextTurn_updater state = Ok state.
Proof. intros E. unfold nextTurn_updater. by rewrite E. Qed.

(** With somebody left to play, [nextTurn] never throws; this is the state
    it computes. *)
Lemma nextTurn_updater_active state :
  filter active (players state) ≠ [] ->
  exists nextRoller,
    rotation state
      !! Z.to_nat (Z.rem (Array_findIndex (has_id (currentDiceRollerId state))
                            (rotation state) + 1)
                         (Z.of_nat (length (rotation state))))
      = Some nextRoller /\
    nextTurn_updater state =
      Ok (if Z.of_nat (length (filter active (players state)))
               <=? turnsInCurrentRound state + 1
          then with_turn state (id nextRoller) 0 (currentRound state + 1)
                 match pendingMaxPoints (diceConfig state) with
                 | PendingValue v =>
                     {| maxPoints := v; pendingMaxPoints := PendingNull |}
                 | _ => diceConfig state
                 end
          else with_turn state (id nextRoller) (turnsInCurrentRound state + 1)
                 (currentRound state) (diceConfig state)).
Proof.
  intros Hne.
  assert (Hlen : length (rotation state) <> 0%nat).
  { rewrite rotation_length. by destruct (filter active (players state)). }
  pose proof (Array_findIndex_range (has_id (currentDiceRollerId state))
                (rotation state)) as Hrange.
  set (k := Z.rem _ _).
  assert (Hk : 0 <= k < Z.of_nat (length (rotation state))).
  { subst k. apply Z.rem_bound_pos; lia. }
  destruct (lookup_lt_is_Some_2 (rotation state) (Z.to_nat k)) as [nextRoller Hnext];
    [lia|].
  exists nextRoller. split; [done|].
  unfold nextTurn_updater. fold (rotation state).
  destruct (decide (length (filter active (players state)) = 0%nat)) as [E|_].
  { rewrite <- rotation_length in E. lia. }
  cbv zeta. fold k. rewrite Hnext.
  by destruct (_ <=? _).
Qed.

(** C10: once every player has finished, [nextTurn] succeeds and changes
    nothing but [lastUpdatedAt]: no rotation, no turn or round counting, the
    selected target, the last dice result and a pending dice configuration
    all stay. *)
Theorem nextTurn_all_finished now state :
  Forall (fun p => isFinished p = true) (players state) ->
  nextTurn now (Some state) = Ok (Some (with_lastUpdatedAt state now)).
Proof.
  intros Hall. unfold nextTurn, updateState.
  rewrite nextTurn_updater_idle; [done|].
  induction Hall as [|p ps Hp _ IH]; [done|].
  rewrite filter_cons_False; [exact IH|].
  unfold active. by rewrite Hp.
Qed.

Lemma nextTurn_all_finished_witness :
  nextTurn t1 (Some (game_of [with_finished (with_position alice 100) t0;
                              with_finished (with_position bob 100) t0] "p-a"))
  = Ok (Some (with_lastUpdatedAt
                (game_of [with_finished (with_position alice 100) t0;
                          with_finished (with_position bob 100) t0] "p-a") t1)).
Proof.
  apply nextTurn_all_finished.
  repeat constructor.
Defined.

(** ** Random integers *)

Lemma getRandomInt_range r min max :
  (0 <= r)%Q -> (r < 1)%Q -> min <= max ->
  min <= getRandomInt r min max <= max.
Proof.
  intros H0 H1 Hmm. unfold getRandomInt.
  set (k := max - min + 1).
  assert (0 <= Qfloor (r * inject_Z k) < k) as Hfloor; [|lia].
  assert (Hk : (0 < inject_Z k)%Q).
  { change 0%Q with (inject_Z 0). rewrite <- Zlt_Qlt. lia. }
  split.
  - rewrite <- (Qfloor_Z 0) at 1.
    apply Qfloor_resp_le. change (inject_Z 0) with 0%Q.
    apply Qmult_le_0_compat; [done|]. by apply Qlt_le_weak.
  - rewrite Zlt_Qlt. eapply Qle_lt_trans; [apply Qfloor_le|].
    rewrite <- (Qmult_1_l (inject_Z k)) at 2.
    by apply Qmult_lt_compat_r.
Qed.

(** ** The store: dice configuration *)

Lemma validateMaxPoints_integer v :
  validateMaxPoints (number_of_Z v) = bool_decide (1 <= v).
Proof.
  unfold validateMaxPoints, number_of_Z, Number_isInteger, at_least_one. simpl.
  rewrite Z.mod_1_r. simpl.
  destruct (Qle_bool 1 (inject_Z v)) eqn:E.
  - apply Qle_bool_iff in E. unfold Qle in E. simpl in E.
    symmetry. apply bool_decide_eq_true. lia.
  - symmetry. apply bool_decide_eq_false. intros Hv.
    assert (Qle_bool 1 (inject_Z v) = true) as E'; [|congruence].
    apply Qle_bool_iff. unfold Qle. simpl. lia.
Qed.

Lemma integer_of_number_of_Z v : integer_of (number_of_Z v) = v.
Proof. apply Qfloor_Z. Qed.

(** A finite number passes [validateMaxPoints] exactly when it is an
    integer that is at least 1. *)
Lemma validateMaxPoints_Finite q :
  validateMaxPoints (Finite q) = true <-> exists v, (q == inject_Z v)%Q /\ 1 <= v.
Proof.
  unfold validateMaxPoints, Number_isInteger, at_least_one.
  rewrite andb_true_iff, Z.eqb_eq, Qle_bool_iff.
  destruct q as [n d]. unfold Qle, Qeq. simpl. split.
  - intros [Hmod Hle]. exists (n / Z.pos d).
    apply Z.div_exact in Hmod; [|lia]. split; [lia|].
    rewrite Z.mul_1_r in Hle. nia.
  - intros (v & Hv & Hle). rewrite Z.mul_1_r in Hv. subst n. split.
    + apply Z.mod_mul. lia.
    + nia.
Qed.

(** A draw of [rollDice] lies between 1 and [maxPoints]. *)
Lemma rollDice_range r state :
  (0 <= r)%Q -> (r < 1)%Q -> 1 <= maxPoints (diceConfig state) ->
  exists face,
    rollDice r (Some state) = Ok face /\
    1 <= face <= maxPoints (diceConfig state).
Proof.
  intros H0 H1 Hmax. eexists. split; [reflexivity|].
  pose proof (getRandomInt_range r 1 (maxPoints (diceConfig state)) H0 H1 Hmax)
    as Hrange.
  unfold getRandomInt in Hrange.
  by replace (maxPoints (diceConfig state) - 1 + 1)
    with (maxPoints (diceConfig state)) in Hrange by lia.
Qed.

Example updateDiceConfig_rejects :
  validateMaxPoints (Finite (5 # 2)) = false /\
  validateMaxPoints (number_of_Z 0) = false /\
  validateMaxPoints NaN = false /\
  validateMaxPoints PosInfinity = false /\
  updateDiceConfig t1 (Finite (5 # 2)) (Some (game_of [alice; bob] "p-a"))
    = Err InvalidMaxPointsError /\
  updateDiceConfigPending t1 (number_of_Z 0) (Some (game_of [alice; bob] "p-a"))
    = Err InvalidMaxPointsError.
Proof. split_and!; reflexivity. Qed.

(** ** The store: a full round *)

Lemma rotation_NoDup state :
  NoDup (id <$> filter active (players state)) -> NoDup (id <$> rotation state).
Proof.
  intros H. unfold rotation.
  by rewrite (fmap_Permutation id _ _ (Array_sort_Permutation by_turnOrder _)).
Qed.

(** Ids being unique, [findIndex] lands on the roller's place in the rotation. *)
Lemma findIndex_rotation (l : list Player) j p :
  NoDup (id <$> l) -> l !! j = Some p ->
  Array_findIndex (has_id (id p)) l = Z.of_nat j.
Proof.
  intros Hnd Hj. unfold Array_findIndex.
  destruct (list_find (has_id (id p)) l) as [[i x]|] eqn:E.
  - apply list_find_Some in E as (Hi & Hx & _).
    f_equal. eapply NoDup_lookup; [exact Hnd| |].
    + rewrite list_lookup_fmap, Hi. simpl. by rewrite Hx.
    + by rewrite list_lookup_fmap, Hj.
  - apply list_find_None in E. rewrite Forall_forall in E.
    destruct (E p); [|done]. apply list_elem_of_lookup. eauto.
Qed.

(** One call of [nextTurn] from place [j] of a rotation of unique ids:
    the roller becomes the player at place [j + 1], cyclically. *)
Lemma nextTurn_step now state j p :
  NoDup (id <$> filter active (players state)) ->
  rotation state !! j = Some p ->
  id p = currentDiceRollerId state ->
  exists state' p',
    nextTurn now (Some state) = Ok (Some state') /\
    players state' = players state /\
    rotation state !! ((j + 1) mod length (rotation state))%nat = Some p' /\
    currentDiceRollerId state' = id p' /\
    (if Z.of_nat (length (rotation state)) <=? turnsInCurrentRound state + 1
     then turnsInCurrentRound state' = 0 /\
          currentRound state' = currentRound state + 1
     else turnsInCurrentRound state' = turnsInCurrentRound state + 1 /\
          currentRound state' = currentRound state).
Proof.
  intros Hnd Hj Hid.
  assert (Hne : filter active (players state) ≠ []).
  { intros E. unfold rotation in Hj. by rewrite E in Hj. }
  destruct (nextTurn_updater_active state Hne) as (p' & Hp' & Hstep).
  rewrite <- Hid, (findIndex_rotation _ j p (rotation_NoDup _ Hnd) Hj) in Hp'.
  apply lookup_lt_Some in Hj as Hlt.
  replace (Z.rem _ _) with (Z.of_nat ((j + 1) mod length (rotation state))) in Hp'.
  2:{ rewrite Z.rem_mod_nonneg by lia. rewrite Nat2Z.inj_mod. f_equal. lia. }
  rewrite Nat2Z.id in Hp'.
  unfold nextTurn, updateState. rewrite Hstep. rewrite <- rotation_length.
  destruct (Z.of_nat (length (rotation state)) <=? turnsInCurrentRound state + 1);
    simpl; eexists; exists p'; done.
Qed.

Lemma bind_Ok {A B} (a : A) (k : A -> Result B) : (Ok a ≫= k) = k a.
Proof. done. Qed.

Lemma nextTurns_cons now nows svc :
  nextTurns (now :: nows) svc = svc' ← nextTurn now svc; nextTurns nows svc'.
Proof. done. Qed.

(** [m] calls that stay inside the round walk [m] places along the rotation. *)
Lemma nextTurns_within_round nows : forall state j p,
  NoDup (id <$> filter active (players state)) ->
  rotation state !! j = Some p ->
  id p = currentDiceRollerId state ->
  turnsInCurrentRound state + Z.of_nat (length nows)
    < Z.of_nat (length (rotation state)) ->
  exists state' p',
    nextTurns nows (Some state) = Ok (Some state') /\
    players state' = players state /\
    rotation state !! ((j + length nows) mod length (rotation state))%nat = Some p' /\
    currentDiceRollerId state' = id p' /\
    turnsInCurrentRound state' = turnsInCurrentRound state + Z.of_nat (length nows) /\
    currentRound state' = currentRound state.
Proof.
  induction nows as [|now nows IH]; intros state j p Hnd Hj Hid Hturns.
  - exists state, p. simpl. split_and!; try done; try lia.
    apply lookup_lt_Some in Hj as Hlt.
    by rewrite Nat.add_0_r, Nat.mod_small.
  - simpl in Hturns.
    destruct (nextTurn_step now state j p Hnd Hj Hid)
      as (s1 & p1 & Hcall & Hps & Hp1 & Hroller & Hcount).
    destruct (Z.leb_spec (Z.of_nat (length (rotation state)))
                (turnsInCurrentRound state + 1)) as [?|_]; [lia|].
    destruct Hcount as [Ht Hr].
    assert (Hrot : rotation s1 = rotation state) by (unfold rotation; by rewrite Hps).
    destruct (IH s1 ((j + 1) mod length (rotation state))%nat p1)
      as (s2 & p2 & Hcalls & Hps2 & Hp2 & Hroller2 & Ht2 & Hr2).
    + by rewrite Hps.
    + by rewrite Hrot.
    + done.
    + rewrite Hrot, Ht. lia.
    + exists s2, p2. rewrite nextTurns_cons, Hcall. simpl.
      rewrite Hrot in Hp2.
      replace ((j + S (length nows)) mod length (rotation state))%nat
        with (((j + 1) mod length (rotation state) + length nows)
                mod length (rotation state))%nat.
      2:{ rewrite Nat.Div0.add_mod_idemp_l. f_equal. lia. }
      split_and!; try done; try congruence; lia.
Qed.

Lemma nextTurns_app nows1 nows2 svc :
  nextTurns (nows1 ++ nows2) svc = svc' ← nextTurns nows1 svc; nextTurns nows2 svc'.
Proof.
  revert svc. induction nows1 as [|now nows1 IH]; intros svc; simpl; [done|].
  destruct (nextTurn now svc); simpl; [apply IH | done].
Qed.

(** C4: with [n] active players of unique ids, an active roller and no
    turn yet taken in the round, [n] calls of [nextTurn] in a row end on the
    original roller, with [currentRound] one higher and
    [turnsInCurrentRound] back at 0 (the players are as they were). *)
Theorem nextTurn_full_round state nows roller :
  NoDup (id <$> filter active (players state)) ->
  roller ∈ filter active (players state) ->
  id roller = currentDiceRollerId state ->
  turnsInCurrentRound state = 0 ->
  length nows = length (filter active (players state)) ->
  exists state',
    nextTurns nows (Some state) = Ok (Some state') /\
    currentDiceRollerId state' = currentDiceRollerId state /\
    currentRound state' = currentRound state + 1 /\
    turnsInCurrentRound state' = 0 /\
    players state' = players state.
Proof.
  intros Hnd Hin Hid Hturns Hlen.
  rewrite <- rotation_length in Hlen.
  assert (roller ∈ rotation state) as Hin'.
  { unfold rotation. by rewrite Array_sort_Permutation. }
  apply list_elem_of_lookup in Hin' as [j Hj].
  apply lookup_lt_Some in Hj as Hlt.
  destruct (exists_last (l := nows)) as (mid & last & ->).
  { intros ->. simpl in Hlen. lia. }
  rewrite length_app in Hlen. simpl in Hlen.
  (* the calls inside the round, then the one that closes it *)
  destruct (nextTurns_within_round mid state j roller Hnd Hj Hid)
    as (s1 & p1 & Hcalls & Hps & Hp1 & Hroller & Ht & Hr); [lia|].
  assert (Hrot : rotation s1 = rotation state) by (unfold rotation; by rewrite Hps).
  destruct (nextTurn_step last s1 ((j + length mid) mod length (rotation state))%nat p1)
    as (s2 & p2 & Hcall & Hps2 & Hp2 & Hroller2 & Hcount).
  { by rewrite Hps. }
  { by rewrite Hrot. }
  { done. }
  rewrite Hrot in Hp2, Hcount.
  destruct (Z.leb_spec (Z.of_nat (length (rotation state)))
              (turnsInCurrentRound s1 + 1)) as [_|?]; [|lia].
  destruct Hcount as [Ht2 Hr2].
  exists s2. rewrite nextTurns_app, Hcalls, bind_Ok.
  rewrite nextTurns_cons, Hcall. simpl.
  split_and!; try done; try congruence.
  rewrite Hroller2, <- Hid. f_equal.
  rewrite Nat.Div0.add_mod_idemp_l in Hp2.
  replace (j + length mid + 1)%nat with (j + 1 * length (rotation state))%nat
    in Hp2 by lia.
  rewrite Nat.Div0.mod_add, Nat.mod_small in Hp2 by done.
  congruence.
Qed.

Lemma nextTurn_full_round_witness :
  exists state',
    nextTurns [t1; t1; t1] (Some (game_of [alice; bob; carol] "p-b"))
      = Ok (Some state') /\
    currentDiceRollerId state' = "p-b" /\
    currentRound state' = 1 + 1 /\
    turnsInCurrentRound state' = 0 /\
    players state' = [alice; bob; carol].
Proof.
  apply (nextTurn_full_round (game_of [alice; bob; carol] "p-b") [t1; t1; t1] bob).
  - apply (bool_decide_unpack _). by vm_compute.
  - apply (bool_decide_unpack _). by vm_compute.
  - reflexivity.
  - reflexivity.
  - reflexivity.
Defined.

(** ** The store: staging the dice configuration *)

(** With nobody left to play, calls of [nextTurn] keep the players and the
    dice configuration. *)
Lemma nextTurns_idle nows : forall state,
  filter active (players state) = [] ->
  exists state',
    nextTurns nows (Some state) = Ok (Some state') /\
    players state' = players state /\
    diceConfig state' = diceConfig state.
Proof.
  induction nows as [|now nows IH]; intros state E.
  - by exists state.
  - destruct (IH (with_lastUpdatedAt state now) E) as (state' & Hcalls & Hps & Hdice).
    exists state'. cbn [nextTurns].
    unfold nextTurn, updateState. rewrite (nextTurn_updater_idle state E).
    by rewrite bind_Ok.
Qed.

(** Calls of [nextTurn] that all end before the round does keep the players
    and the dice configuration, and count the turns. *)
Lemma nextTurns_before_boundary nows : forall state,
  filter active (players state) ≠ [] ->
  turnsInCurrentRound state + Z.of_nat (length nows)
    < Z.of_nat (length (filter active (players state))) ->
  exists state',
    nextTurns nows (Some state) = Ok (Some state') /\
    players state' = players state /\
    diceConfig state' = diceConfig state /\
    turnsInCurrentRound state'
      = turnsInCurrentRound state + Z.of_nat (length nows).
Proof.
  induction nows as [|now nows IH]; intros state Hne Hturns.
  - exists state. simpl. split_and!; try done. lia.
  - cbn [length] in Hturns.
    destruct (nextTurn_updater_active state Hne) as (nextRoller & _ & Hstep).
    destruct (Z.leb_spec (Z.of_nat (length (filter active (players state))))
                (turnsInCurrentRound state + 1)) as [?|_]; [lia|].
    set (state1 := with_lastUpdatedAt
                     (with_turn state (id nextRoller) (turnsInCurrentRound state + 1)
                        (currentRound state) (diceConfig state)) now).
    destruct (IH state1) as (state' & Hcalls & Hps & Hdice & Hcount).
    + done.
    + subst state1. cbn [players turnsInCurrentRound with_lastUpdatedAt with_turn]. lia.
    + exists state'. cbn [nextTurns].
      unfold nextTurn, updateState. rewrite Hstep, bind_Ok.
      fold state1. split; [done|].
      rewrite Hps, Hdice, Hcount. subst state1.
      cbn [players diceConfig turnsInCurrentRound with_lastUpdatedAt with_turn].
      split_and!; try done. cbn [length]. lia.
Qed.

(** C5: staging a dice bound [v >= 1] with [updateDiceConfigPending] returns,
    and in the state it leaves [pendingMaxPoints] is [v] while [maxPoints],
    and so every draw of [rollDice], and every other field but
    [lastUpdatedAt] are as before.  The calls of [nextTurn] that follow and
    end before the round does keep [maxPoints] and the staged value; the
    first call that closes a round sets [maxPoints] to [v], after which
    [rollDice] draws from 1 to [v], and resets [pendingMaxPoints] to [null].
    In any state, the [nextTurn] that closes a round installs a staged value
    and a [nextTurn] that does not leaves the dice configuration alone.  A
    number that is not an integer or is below 1 makes both
    [updateDiceConfig] and [updateDiceConfigPending] throw, the store
    staying as it was. *)
Theorem dice_config_staging now state v :
  1 <= v ->
  exists staged,
    updateDiceConfigPending now (number_of_Z v) (Some state) = Ok (Some staged) /\
    staged =
      with_lastUpdatedAt
        (with_diceConfig state
           {| maxPoints := maxPoints (diceConfig state);
              pendingMaxPoints := PendingValue v |}) now /\
    pendingMaxPoints (diceConfig staged) = PendingValue v /\
    maxPoints (diceConfig staged) = maxPoints (diceConfig state) /\
    (forall r, rollDice r (Some staged) = rollDice r (Some state)) /\
    lastUpdatedAt staged = now /\
    (gameId staged = gameId state /\ players staged = players state /\
     teams staged = teams state /\
     snakesAndLadders staged = snakesAndLadders state /\
     mapType staged = mapType state /\
     currentDiceRollerId staged = currentDiceRollerId state /\
     selectedTargetId staged = selectedTargetId state /\
     lastDiceResult staged = lastDiceResult state /\
     currentRound staged = currentRound state /\
     turnsInCurrentRound staged = turnsInCurrentRound state /\
     isGameStarted staged = isGameStarted state /\
     isGameFinished staged = isGameFinished state /\
     showTokenForPlayerId staged = showTokenForPlayerId state /\
     GameState_winningPositions staged = GameState_winningPositions state /\
     createdAt staged = createdAt state) /\
    (forall nows,
       turnsInCurrentRound state + Z.of_nat (length nows)
         < Z.of_nat (length (filter active (players state))) ->
       exists state',
         nextTurns nows (Some staged) = Ok (Some state') /\
         maxPoints (diceConfig state') = maxPoints (diceConfig state) /\
         pendingMaxPoints (diceConfig state') = PendingValue v /\
         forall r, rollDice r (Some state') = rollDice r (Some state)) /\
    (forall nows now',
       filter active (players state) ≠ [] ->
       nows = [] \/
         turnsInCurrentRound state + Z.of_nat (length nows)
           < Z.of_nat (length (filter active (players state))) ->
       Z.of_nat (length (filter active (players state)))
         <= turnsInCurrentRound state + Z.of_nat (length nows) + 1 ->
       exists state',
         nextTurns (nows ++ [now']) (Some staged) = Ok (Some state') /\
         maxPoints (diceConfig state') = v /\
         pendingMaxPoints (diceConfig state') = PendingNull /\
         forall r, (0 <= r)%Q -> (r < 1)%Q ->
           exists face, rollDice r (Some state') = Ok face /\ 1 <= face <= v) /\
    (forall now' s,
       pendingMaxPoints (diceConfig s) = PendingValue v ->
       crosses_round_boundary s ->
       exists s', nextTurn now' (Some s) = Ok (Some s') /\
         diceConfig s' = {| maxPoints := v; pendingMaxPoints := PendingNull |} /\
         forall r, (0 <= r)%Q -> (r < 1)%Q ->
           exists face, rollDice r (Some s') = Ok face /\ 1 <= face <= v) /\
    (forall now' s,
       ~ crosses_round_boundary s ->
       exists s', nextTurn now' (Some s) = Ok (Some s') /\
         diceConfig s' = diceConfig s) /\
    (forall now' n svc,
       Number_isInteger n = false \/ at_least_one n = false ->
       updateDiceConfig now' n svc = Err InvalidMaxPointsError /\
       updateDiceConfigPending now' n svc = Err InvalidMaxPointsError /\
       after svc (updateDiceConfig now' n svc) = svc /\
       after svc (updateDiceConfigPending now' n svc) = svc).
Proof.
  intros Hv.
  assert (Hinstall : forall now' s,
    pendingMaxPoints (diceConfig s) = PendingValue v ->
    crosses_round_boundary s ->
    exists s', nextTurn now' (Some s) = Ok (Some s') /\
      diceConfig s' = {| maxPoints := v; pendingMaxPoints := PendingNull |} /\
      forall r, (0 <= r)%Q -> (r < 1)%Q ->
        exists face, rollDice r (Some s') = Ok face /\ 1 <= face <= v).
  { intros now' s Hpending [Hne Hlast].
    destruct (nextTurn_updater_active s Hne) as (nextRoller & _ & Hstep).
    unfold nextTurn, updateState. rewrite Hstep.
    destruct (Z.leb_spec (Z.of_nat (length (filter active (players s))))
                (turnsInCurrentRound s + 1)); [|lia].
    rewrite Hpending. eexists. split; [done|]. split; [done|].
    intros r H0 H1. by apply rollDice_range. }
  set (staged := with_lastUpdatedAt
                   (with_diceConfig state
                      {| maxPoints := maxPoints (diceConfig state);
                         pendingMaxPoints := PendingValue v |}) now).
  exists staged. split_and!; try done.
  - unfold updateDiceConfigPending.
    rewrite validateMaxPoints_integer, bool_decide_eq_true_2 by done.
    by rewrite integer_of_number_of_Z.
  - intros nows Hturns.
    destruct (decide (filter active (players state) = [])) as [E|Hne].
    + destruct (nextTurns_idle nows staged E) as (state' & Hcalls & _ & Hdice).
      exists state'. split; [done|]. unfold rollDice. by rewrite Hdice.
    + destruct (nextTurns_before_boundary nows staged Hne Hturns)
        as (state' & Hcalls & _ & Hdice & _).
      exists state'. split; [done|]. unfold rollDice. by rewrite Hdice.
  - intros nows now' Hne Hbefore Hlast.
    assert (exists middle,
              nextTurns nows (Some staged) = Ok (Some middle) /\
              players middle = players state /\
              diceConfig middle = diceConfig staged /\
              turnsInCurrentRound middle
                = turnsInCurrentRound state + Z.of_nat (length nows))
      as (middle & Hcalls & Hps & Hdice & Hcount).
    { destruct Hbefore as [-> | Hturns].
      - exists staged. simpl. split_and!; try done. lia.
      - by apply (nextTurns_before_boundary nows staged Hne Hturns). }
    destruct (Hinstall now' middle) as (state' & Hcall & Hconfig & Hdraws).
    + by rewrite Hdice.
    + split; rewrite Hps; [done|]. rewrite Hcount. lia.
    + exists state'. rewrite nextTurns_app, Hcalls, bind_Ok.
      cbn [nextTurns]. rewrite Hcall, bind_Ok.
      split; [done|]. by rewrite Hconfig.
  - intros now' s Hnot.
    destruct (decide (filter active (players s) = [])) as [E|Hne].
    + unfold nextTurn, updateState. rewrite (nextTurn_updater_idle s E).
      eexists. split; done.
    + destruct (nextTurn_updater_active s Hne) as (nextRoller & _ & Hstep).
      unfold nextTurn, updateState. rewrite Hstep.
      destruct (Z.leb_spec (Z.of_nat (length (filter active (players s))))
                  (turnsInCurrentRound s + 1)).
      * destruct Hnot. by split.
      * eexists. split; done.
  - intros now' n svc Hbad.
    assert (validateMaxPoints n = false) as E.
    { unfold validateMaxPoints. destruct Hbad as [-> | ->]; [done|].
      apply andb_false_r. }
    unfold updateDiceConfig, updateDiceConfigPending. rewrite E. done.
Qed.

Lemma dice_config_staging_witness :
  exists staged state1 state2,
    updateDiceConfigPending t1 (number_of_Z 20) (Some (game_of [alice; bob] "p-a"))
      = Ok (Some staged) /\
    diceConfig staged = {| maxPoints := 12; pendingMaxPoints := PendingValue 20 |} /\
    nextTurns [t1] (Some staged) = Ok (Some state1) /\
    diceConfig state1 = {| maxPoints := 12; pendingMaxPoints := PendingValue 20 |} /\
    nextTurns [t1; t1] (Some staged) = Ok (Some state2) /\
    diceConfig state2 = {| maxPoints := 20; pendingMaxPoints := PendingNull |}.
Proof.
  destruct (dice_config_staging t1 (game_of [alice; bob] "p-a") 20)
    as (staged & Hstage & _ & Hpending & Hmax & _ & _ & _ & Hbefore & Hclose & _);
    [lia|].
  destruct (Hbefore [t1]) as (state1 & Hcalls1 & Hmax1 & Hpending1 & _);
    [simpl; lia|].
  destruct (Hclose [t1] t1) as (state2 & Hcalls2 & Hmax2 & Hpending2 & _);
    [done | right; simpl; lia | simpl; lia |].
  exists staged, state1, state2.
  split; [exact Hstage|]. split.
  { destruct (diceConfig staged). simpl in *. by subst. }
  split; [exact Hcalls1|]. split.
  { destruct (diceConfig state1). simpl in *. by subst. }
  split; [exact Hcalls2|].
  destruct (diceConfig state2). simpl in *. by subst.
Defined.

(** ** The store: who rolls next *)

(** A roller who is no longer active is not found in the rotation, which
    then restarts from its first place. *)
Lemma nextTurn_inactive_roller now state first rest :
  rotation state = first :: rest ->
  Forall (fun p => id p <> currentDiceRollerId state) (rotation state) ->
  exists state',
    nextTurn now (Some state) = Ok (Some state') /\
    currentDiceRollerId state' = id first.
Proof.
  intros Hrot Hnone.
  assert (Hne : filter active (players state) ≠ []).
  { intros E. unfold rotation in Hrot. by rewrite E in Hrot. }
  destruct (nextTurn_updater_active state Hne) as (p' & Hp' & Hstep).
  assert (Array_findIndex (has_id (currentDiceRollerId state)) (rotation state) = -1)
    as Hidx.
  { unfold Array_findIndex.
    destruct (list_find _ _) as [[i x]|] eqn:E; [|done].
    apply list_find_Some in E as (Hi & Hx & _).
    rewrite Forall_forall in Hnone. destruct (Hnone x); [|done].
    apply list_elem_of_lookup. eauto. }
  rewrite Hidx in Hp'. change (-1 + 1) with 0 in Hp'.
  rewrite Z.rem_0_l in Hp' by (rewrite Hrot; simpl; lia).
  rewrite Hrot in Hp'. injection Hp' as <-.
  unfold nextTurn, updateState. rewrite Hstep.
  destruct (_ <=? _); simpl; eexists; split; done.
Qed.

Lemma least_turnOrder_spec l q :
  least_turnOrder l = Some q ->
  q ∈ l /\ Forall (fun x => turnOrder q <= turnOrder x) l.
Proof.
  revert q. induction l as [|p l IH]; intros q; simpl; [done|].
  destruct (least_turnOrder l) as [q'|] eqn:E.
  - destruct (IH q' eq_refl) as [Hin Hall].
    destruct (Z.ltb_spec (turnOrder q') (turnOrder p)); intros [= <-].
    + split; [by right|]. constructor; [lia|done].
    + split; [by left|]. constructor; [lia|].
      eapply Forall_impl; [exact Hall|]. simpl. lia.
  - intros [= <-]. split; [by left|].
    destruct l as [|x l]; [by repeat constructor|].
    simpl in E. destruct (least_turnOrder l); [destruct (_ <? _)|]; done.
Qed.

Lemma least_turnOrder_None l : least_turnOrder l = None -> l = [].
Proof.
  destruct l as [|p l]; [done|]. simpl.
  destruct (least_turnOrder l); [destruct (_ <? _)|]; done.
Qed.

Lemma sorted_lookup_le {A} (R : A -> A -> Prop) l i j x y :
  StronglySorted R l -> l !! i = Some x -> l !! j = Some y -> (i < j)%nat -> R x y.
Proof.
  intros Hs. revert i j. induction Hs as [|z l Hs IH Hz]; intros i j Hi Hj Hlt.
  { done. }
  destruct i as [|i], j as [|j]; simpl in *; try lia.
  - injection Hi as ->. rewrite Forall_forall in Hz. apply Hz.
    apply list_elem_of_lookup. eauto.
  - apply (IH i j); [done..|lia].
Qed.

Lemma NoDup_fmap_filter {A B} (f : A -> B) (P : A -> Prop)
    `{!forall x, Decision (P x)} l :
  NoDup (f <$> l) -> NoDup (f <$> filter P l).
Proof.
  induction l as [|x l IH]; simpl; [done|].
  intros [Hx Hl]%NoDup_cons. rewrite filter_cons.
  destruct (decide (P x)); [|by apply IH].
  simpl. apply NoDup_cons. split; [|by apply IH].
  intros (y & Hy & Hin)%list_elem_of_fmap. apply Hx.
  apply list_elem_of_fmap. exists y. split; [done|].
  by apply list_elem_of_filter in Hin as [_ ?].
Qed.

Lemma Array_find_unique (l : list Player) p :
  NoDup (id <$> l) -> p ∈ l -> Array_find (has_id (id p)) l = Some p.
Proof.
  intros Hnd [j Hj]%list_elem_of_lookup. unfold Array_find.
  destruct (list_find (has_id (id p)) l) as [[i x]|] eqn:E; simpl.
  - apply list_find_Some in E as (Hi & Hx & _). f_equal.
    assert (i = j) as ->; [|congruence].
    eapply NoDup_lookup; [exact Hnd| |].
    + rewrite list_lookup_fmap, Hi. simpl. by rewrite Hx.
    + by rewrite list_lookup_fmap, Hj.
  - apply list_find_None in E. rewrite Forall_forall in E.
    destruct (E p); [|done]. apply list_elem_of_lookup. eauto.
Qed.

(** Two players of the rotation with the same turn order are one. *)
Lemma same_turnOrder (l : list Player) i j x y :
  NoDup (turnOrder <$> l) -> l !! i = Some x -> l !! j = Some y ->
  turnOrder x = turnOrder y -> i = j.
Proof.
  intros Hnd Hi Hj E. eapply NoDup_lookup; [exact Hnd| |].
  - by rewrite list_lookup_fmap, Hi.
  - rewrite list_lookup_fmap, Hj. simpl. by rewrite E.
Qed.

(** While the roller is still in the game (ids and turn orders being
    unique), [nextTurn] hands the dice to the player the specification
    names. *)
Lemma nextTurn_follows_rotation now state roller :
  NoDup (id <$> players state) ->
  NoDup (turnOrder <$> filter active (players state)) ->
  roller ∈ filter active (players state) ->
  id roller = currentDiceRollerId state ->
  exists state' next,
    nextTurn now (Some state) = Ok (Some state') /\
    spec_nextRoller state = Some next /\
    currentDiceRollerId state' = id next.
Proof.
  intros Hids Hords Hin Hid.
  set (A := filter active (players state)) in *.
  assert (HidsA : NoDup (id <$> A)) by by apply NoDup_fmap_filter.
  assert (Hperm : rotation state ≡ₚ A) by apply Array_sort_Permutation.
  assert (Hsorted : StronglySorted (fun a b => turnOrder a <= turnOrder b)
                      (rotation state)).
  { apply (Array_sort_sorted by_turnOrder turnOrder). done. }
  assert (HordsS : NoDup (turnOrder <$> rotation state)) by by rewrite Hperm.
  assert (roller ∈ rotation state) as [j Hj]%list_elem_of_lookup
    by by rewrite Hperm.
  destruct (nextTurn_step now state j roller HidsA Hj Hid)
    as (state' & next & Hcall & _ & Hnext & Hroller & _).
  exists state', next. split; [done|]. split; [|done].
  apply lookup_lt_Some in Hj as Hlt.
  (* what the specification computes *)
  unfold spec_nextRoller. fold A. rewrite <- Hid.
  rewrite Array_find_unique; [|done|].
  2:{ by apply list_elem_of_filter in Hin as [_ ?]. }
  (* later places of the rotation follow the roller *)
  assert (Hafter : forall i x, rotation state !! i = Some x -> (j < i)%nat ->
                     follows (turnOrder roller) x).
  { intros i x Hi Hji. unfold follows.
    pose proof (sorted_lookup_le _ _ _ _ _ _ Hsorted Hj Hi Hji) as Hle.
    simpl in Hle.
    destruct (decide (turnOrder roller = turnOrder x)) as [E|]; [|lia].
    pose proof (same_turnOrder _ _ _ _ _ HordsS Hj Hi E). lia. }
  destruct (least_turnOrder (filter (follows (turnOrder roller)) A))
    as [q|] eqn:Eq.
  - (* somebody follows the roller *)
    apply least_turnOrder_spec in Eq as [Hq Hmin].
    apply list_elem_of_filter in Hq as [Hfollows HqA].
    assert (q ∈ rotation state) as [i Hi]%list_elem_of_lookup by by rewrite Hperm.
    assert (j < i)%nat as Hji.
    { destruct (decide (i = j)) as [->|].
      { unfold follows in Hfollows. assert (q = roller) by congruence.
        subst q. lia. }
      destruct (decide (i < j)%nat); [|lia].
      pose proof (sorted_lookup_le _ _ _ _ _ _ Hsorted Hi Hj ltac:(done)) as Hle.
      unfold follows in Hfollows. simpl in Hle. lia. }
    apply lookup_lt_Some in Hi as Hilt.
    rewrite Nat.mod_small in Hnext by lia.
    f_equal.
    assert (turnOrder q <= turnOrder next) as Hle1.
    { rewrite Forall_forall in Hmin. apply Hmin.
      apply list_elem_of_filter. split.
      - apply (Hafter (j + 1)%nat); [done|lia].
      - rewrite <- Hperm. apply list_elem_of_lookup. eauto. }
    assert (i = (j + 1)%nat) as ->; [|congruence].
    destruct (decide (i = (j + 1)%nat)) as [|Hne]; [done|].
    pose proof (sorted_lookup_le _ _ _ _ _ _ Hsorted Hnext Hi ltac:(lia)) as Hle2.
    simpl in Hle2.
    eapply (same_turnOrder _ _ _ _ _ HordsS Hi Hnext). lia.
  - (* nobody does: the rotation starts again *)
    apply least_turnOrder_None in Eq.
    assert (S j = length (rotation state)) as Hlast.
    { destruct (decide (S j = length (rotation state))) as [|Hne]; [done|].
      destruct (lookup_lt_is_Some_2 (rotation state) (S j)) as [x Hx]; [lia|].
      assert (x ∈ filter (follows (turnOrder roller)) A) as Hx'.
      { apply list_elem_of_filter. split.
        - apply (Hafter (S j)); [done|lia].
        - rewrite <- Hperm. apply list_elem_of_lookup. eauto. }
      rewrite Eq in Hx'. by apply elem_of_nil in Hx'. }
    replace ((j + 1) mod length (rotation state))%nat with 0%nat in Hnext.
    2:{ rewrite <- Hlast. replace (j + 1)%nat with (S j) by lia.
        by rewrite Nat.Div0.mod_same. }
    destruct (least_turnOrder A) as [q|] eqn:Eq'.
    2:{ apply least_turnOrder_None in Eq'. rewrite Eq' in Hin.
        by apply elem_of_nil in Hin. }
    apply least_turnOrder_spec in Eq' as [Hq Hmin].
    f_equal.
    assert (q ∈ rotation state) as [i Hi]%list_elem_of_lookup by by rewrite Hperm.
    assert (turnOrder q <= turnOrder next) as Hle1.
    { rewrite Forall_forall in Hmin. apply Hmin.
      rewrite <- Hperm. apply list_elem_of_lookup. eauto. }
    assert (i = 0%nat) as ->; [|congruence].
    destruct (decide (i = 0%nat)) as [|Hne]; [done|].
    pose proof (sorted_lookup_le _ _ _ _ _ _ Hsorted Hnext Hi ltac:(lia)) as Hle2.
    simpl in Hle2.
    eapply (same_turnOrder _ _ _ _ _ HordsS Hi Hnext). lia.
Qed.

(** C1 fails when the roller has just finished: [findIndex] answers -1 on
    the active players and the rotation restarts at its first place.  Bob,
    second of three, rolls the 6 that takes him from 94 to 100 and is marked
    finished; [nextTurn] hands the dice to Alice, the first in turn order,
    where the player following Bob is Carol. *)
Theorem nextTurn_after_roller_finished :
  exists moved finished next,
    movePlayer t1 "p-b" 6 (Some bob_about_to_finish) = Ok (Some moved) /\
    checkWinCondition "p-b" (Some moved) = true /\
    markPlayerFinished t1 t1 "p-b" (Some moved) = Ok (Some finished) /\
    nextTurn t1 (Some finished) = Ok (Some next) /\
    currentDiceRollerId next = "p-a" /\
    id <$> spec_nextRoller finished = Some "p-c".
Proof. do 3 eexists. split_and!; reflexivity. Qed.

(** ** Set-up *)

Lemma includes_spec x l : includes x l = true <-> x ∈ l.
Proof. unfold includes. apply bool_decide_eq_true. Qed.

(** C6 (as the code has it): with at least two players, the initial
    state's [winningPositions] is the given list, with 16 put in front when
    it was missing, sorted in ascending order: it contains 16, and it has no
    duplicate when the given list has none.  With fewer than two players
    the initialization throws and the store keeps what it held. *)
Theorem initial_winningPositions now uuid players snakesAndLadders teams
    winningPositions mapType svc :
  ((2 <= length players)%nat ->
   exists state,
     initializeGame now uuid players snakesAndLadders teams winningPositions
       mapType svc = Ok (Some state) /\
     16 ∈ GameState_winningPositions state /\
     StronglySorted Z.le (GameState_winningPositions state) /\
     GameState_winningPositions state
       ≡ₚ (if includes 16 winningPositions then winningPositions
           else 16 :: winningPositions) /\
     (NoDup winningPositions -> NoDup (GameState_winningPositions state))) /\
  ((length players < 2)%nat ->
   initializeGame now uuid players snakesAndLadders teams winningPositions
     mapType svc = Err (InvalidPlayerCountError (Z.of_nat (length players))) /\
   after svc (initializeGame now uuid players snakesAndLadders teams
                winningPositions mapType svc) = svc).
Proof.
  unfold initializeGame, createInitialGameState, validatePlayerCount. split.
  - intros Hlen. destruct (Z.ltb_spec (Z.of_nat (length players)) 2); [lia|].
    eexists. split; [reflexivity|]. simpl.
    set (final := if includes 16 winningPositions then _ else _).
    assert (Hperm : Array_sort (fun a b => a - b) final ≡ₚ final)
      by apply Array_sort_Permutation.
    split_and!.
    + rewrite Hperm. subst final.
      destruct (includes 16 winningPositions) eqn:E.
      * by apply includes_spec.
      * apply list_elem_of_here.
    + apply (Array_sort_sorted _ (fun a => a)). done.
    + done.
    + intros Hnd. rewrite Hperm. subst final.
      destruct (includes 16 winningPositions) eqn:E; [done|].
      constructor; [|done]. intros Hin. apply includes_spec in Hin. congruence.
  - intros Hlen. destruct (Z.ltb_spec (Z.of_nat (length players)) 2); [|lia].
    done.
Qed.

Lemma initial_winningPositions_witness :
  exists state,
    initializeGame t0 "g-1" [alice; bob] [] [] [20; 5] random None
      = Ok (Some state) /\
    16 ∈ winningPositions state /\
    StronglySorted Z.le (winningPositions state) /\
    winningPositions state ≡ₚ [16; 20; 5] /\
    (NoDup [20; 5] -> NoDup (winningPositions state)).
Proof.
  apply (proj1 (initial_winningPositions t0 "g-1" [alice; bob] [] [] [20; 5]
                  random None)).
  simpl. lia.
Defined.

(** C6 as stated fails on duplicates: nothing removes them. *)
Lemma initial_winningPositions_keeps_duplicates :
  exists state,
    initializeGame t0 "g-1" [alice; bob] [] [] [16; 7; 16; 7] random None
      = Ok (Some state) /\
    winningPositions state = [7; 7; 16; 16] /\
    ~ NoDup (winningPositions state).
Proof.
  eexists. split_and!; [reflexivity | reflexivity |].
  simpl. intros H. apply NoDup_cons in H as [H _]. apply H. constructor.
Qed.

(** ** The hazard generator *)


Lemma createSnake_Ok uuid head tail existing element :
  createSnake uuid head tail existing = Ok element ->
  element = mkSnakeOrLadder uuid snake head tail /\
  tail < head /\
  head ∉ startPosition <$> existing.
Proof.
  unfold createSnake, validateSnake, checkDuplicateStartPosition.
  destruct (Z.leb_spec head tail); [done|].
  destruct (decide (Exists (starts_at head) existing)) as [|Hno]; [done|].
  simpl. intros [= <-]. split_and!; [done..|].
  intros (e & He & Hin)%list_elem_of_fmap. apply Hno, Exists_exists.
  exists e. split; [done|]. by unfold starts_at, Hazard_startPosition.
Qed.

Lemma createLadder_Ok uuid bottom top existing element :
  createLadder uuid bottom top existing = Ok element ->
  element = mkSnakeOrLadder uuid ladder bottom top /\
  bottom < top /\
  bottom ∉ startPosition <$> existing.
Proof.
  unfold createLadder, validateLadder, checkDuplicateStartPosition.
  destruct (Z.leb_spec top bottom); [done|].
  destruct (decide (Exists (starts_at bottom) existing)) as [|Hno]; [done|].
  simpl. intros [= <-]. split_and!; [done..|].
  intros (e & He & Hin)%list_elem_of_fmap. apply Hno, Exists_exists.
  exists e. split; [done|]. by unfold starts_at, Hazard_startPosition.
Qed.

Section GeneratorFacts.
Variable rnd : nat -> Q.
Variable uuid : nat -> string.
Variable config : SnakesAndLaddersConfig.

Lemma placed_ok g element :
  generation_ok rnd config g ->
  startPosition element ∉ startPosition <$> elements g ->
  generated rnd config element ->
  generation_ok rnd config (placed g element).
Proof.
  intros [Hnd Hall] Hfresh Hgen. split; simpl.
  - rewrite fmap_app. apply NoDup_app. split_and!; [done| |].
    + intros x Hx Hx'. apply list_elem_of_singleton in Hx'. by subst x.
    + apply NoDup_singleton.
  - apply Forall_app. split; [done|]. by constructor.
Qed.

Lemma snake_attempt_ok g :
  generation_ok rnd config g -> generation_ok rnd config (snake_attempt rnd uuid config g).1.
Proof.
  intros Hg. unfold snake_attempt. cbv zeta.
  destruct (decide _); [done|].
  match goal with
  | |- context [?tail <? MIN_POSITION] => destruct (Z.ltb_spec tail MIN_POSITION)
  end; [done|]. simpl.
  destruct (bool_decide _); [done|].
  destruct (createSnake _ _ _ _) as [element|] eqn:E; [|done].
  apply createSnake_Ok in E as (-> & Hlt & Hfresh). simpl in *.
  apply placed_ok; [done..|].
  split_and!; simpl; [lia|done|]. by exists (draws g).
Qed.

Lemma ladder_attempt_ok g :
  generation_ok rnd config g -> generation_ok rnd config (ladder_attempt rnd uuid config g).1.
Proof.
  intros Hg. unfold ladder_attempt. cbv zeta.
  destruct (decide _); [done|].
  match goal with
  | |- context [MAX_POSITION <? ?top] => destruct (Z.ltb_spec MAX_POSITION top)
  end; [done|]. simpl.
  destruct (bool_decide _); [done|].
  destruct (createLadder _ _ _ _) as [element|] eqn:E; [|done].
  apply createLadder_Ok in E as (-> & Hlt & Hfresh). simpl in *.
  apply placed_ok; [done..|].
  split_and!; simpl; [lia|lia|]. by exists (draws g).
Qed.

Lemma attempts_ok attempt remaining g :
  (forall g, generation_ok rnd config g -> generation_ok rnd config (attempt g).1) ->
  generation_ok rnd config g -> generation_ok rnd config (attempts attempt remaining g).
Proof.
  intros Hstep. revert g. induction remaining as [|n IH]; intros g Hg; simpl.
  { done. }
  specialize (Hstep g Hg). destruct (attempt g) as [g' [|]]; simpl in *.
  - done.
  - by apply IH.
Qed.

Lemma times_ok n body g :
  (forall g, generation_ok rnd config g -> generation_ok rnd config (body g)) ->
  generation_ok rnd config g -> generation_ok rnd config (times n body g).
Proof.
  intros Hbody. revert g. induction n as [|n IH]; intros g Hg; simpl; [done|].
  by apply IH, Hbody.
Qed.

Lemma generateSnakesAndLadders_generated :
  NoDup (startPosition <$> generateSnakesAndLadders rnd uuid config) /\
  Forall (generated rnd config) (generateSnakesAndLadders rnd uuid config).
Proof.
  unfold generateSnakesAndLadders. cbv zeta.
  apply times_ok; [intros g; apply attempts_ok, ladder_attempt_ok|].
  apply times_ok; [intros g; apply attempts_ok, snake_attempt_ok|].
  split; simpl; constructor.
Qed.

(** Whatever the configuration and the draws: no two hazards start on
    the same cell, and snakes go down, ladders up. *)
Lemma generateSnakesAndLadders_unique_oriented :
  NoDup (startPosition <$> generateSnakesAndLadders rnd uuid config) /\
  Forall oriented (generateSnakesAndLadders rnd uuid config).
Proof.
  destruct generateSnakesAndLadders_generated as [Hnd Hall].
  split; [done|]. eapply Forall_impl; [exact Hall|].
  intros e. unfold generated, oriented.
  destruct (type e); tauto.
Qed.

(** With draws in [[0, 1)] and a minimum distance of at most 97 (so
    that the intervals the starts are drawn from are not empty), the table
    is a valid one: every position lies in 2..99 as well. *)
Lemma generateSnakesAndLadders_valid :
  (forall n, (0 <= rnd n)%Q /\ (rnd n < 1)%Q) ->
  minDistance config <= 97 ->
  valid_hazards (generateSnakesAndLadders rnd uuid config).
Proof.
  intros Hrnd Hmin.
  destruct generateSnakesAndLadders_generated as [Hnd Hall].
  split_and!.
  - done.
  - apply generateSnakesAndLadders_unique_oriented.
  - eapply Forall_impl; [exact Hall|].
    intros e. unfold generated, inside_board, MIN_POSITION, MAX_POSITION.
    destruct (type e); intros (Hor & Hend & n & Hstart).
    + pose proof (getRandomInt_range (rnd n) (2 + minDistance config) 99
                    (proj1 (Hrnd n)) (proj2 (Hrnd n))) as Hr.
      rewrite <- Hstart in Hr. lia.
    + pose proof (getRandomInt_range (rnd n) 2 (99 - minDistance config)
                    (proj1 (Hrnd n)) (proj2 (Hrnd n))) as Hr.
      rewrite <- Hstart in Hr. lia.
Qed.
End GeneratorFacts.

(** C9 fails for a minimum distance of 98: the interval the snake heads
    are drawn from, [[100, 99]], is empty and [getRandomInt] answers 100;
    the loop tests the tail against 2 but not the head against 99, and a
    snake is placed with its head on cell 100. *)
Theorem generateSnakesAndLadders_head_on_100 :
  generateSnakesAndLadders coin numbered (mkConfig 14 98 40)
    = [mkSnakeOrLadder "hazard-0" snake 100 31;
       mkSnakeOrLadder "hazard-1" ladder 2 71] /\
  ~ valid_hazards (generateSnakesAndLadders coin numbered (mkConfig 14 98 40)).
Proof.
  assert (generateSnakesAndLadders coin numbered (mkConfig 14 98 40)
          = [mkSnakeOrLadder "hazard-0" snake 100 31;
             mkSnakeOrLadder "hazard-1" ladder 2 71]) as E by (by vm_compute).
  split; [done|]. rewrite E. intros (_ & _ & Hin).
  apply Forall_cons in Hin as [[Hstart _] _]. simpl in Hstart. lia.
Qed.

(** ** Loading a stored record *)

Section StorageFacts.
Variable JSON_parse : string -> option JSValue.
Variable new_Date : JSValue -> Date.

Lemma get_optional_Ok o k : exists v, get_optional o k = Ok v.
Proof. destruct o; simpl; eauto. Qed.

Lemma get_fails o k e : get o k = Err e -> exists what, e = TypeError what.
Proof. destruct o; simpl; intros [= <-]; eauto. Qed.

Lemma call_map_fails v f e :
  (forall items, v <> VArray items) ->
  call_map v f = Err e -> exists what, e = TypeError what.
Proof.
  intros Hno. destruct v; simpl; try (intros [= <-]; eauto).
  by destruct (Hno items).
Qed.

(** Without a [players] array, [deserializeState] dies of a [TypeError]. *)
Lemma deserializeState_players_missing data :
  (forall items, get data "players" <> Ok (VArray items)) ->
  exists what, deserializeState new_Date data = Err (TypeError what).
Proof.
  intros Hno. unfold deserializeState.
  destruct (get data "createdAt") as [createdAt|e] eqn:E1; simpl.
  2:{ apply get_fails in E1 as [what ->]. eauto. }
  assert (forall k, exists v, get data k = Ok v) as Hget.
  { intros k. destruct data; simpl in *; eauto; done. }
  destruct (Hget "lastUpdatedAt") as [? ->].
  destruct (Hget "currentRound") as [? ->].
  destruct (Hget "turnsInCurrentRound") as [? ->].
  destruct (Hget "teams") as [? ->].
  destruct (Hget "diceConfig") as [diceConfig ->]. simpl.
  destruct (get_optional_Ok diceConfig "maxPoints") as [? ->].
  destruct (get_optional_Ok diceConfig "pendingMaxPoints") as [? ->]. simpl.
  destruct (Hget "players") as [players Hplayers]. rewrite Hplayers. simpl.
  destruct (call_map players (deserializePlayer new_Date)) as [?|e] eqn:E2.
  - destruct players; simpl in E2; try done. by destruct (Hno items).
  - apply call_map_fails in E2 as [what ->]; [simpl; eauto|].
    intros items ->. by destruct (Hno items).
Qed.

Lemma clearGameState_cleared service :
  isStorageAvailable service = true ->
  localStorage (clearGameState service) !! STORAGE_KEY = None /\
  localStorage (clearGameState service) !! VERSION_KEY = None.
Proof.
  intros Hav. unfold clearGameState. rewrite Hav. simpl. split.
  - rewrite lookup_delete_ne by done. apply lookup_delete_eq.
  - apply lookup_delete_eq.
Qed.

(** The scenario of the specification: a record that parses but has no
    [players] array raises [CorruptedStateError], and the record and its
    version marker are removed. *)
Lemma loadGameState_players_missing service text data :
  isStorageAvailable service = true ->
  localStorage service !! STORAGE_KEY = Some text ->
  text <> EmptyString ->
  JSON_parse text = Some data ->
  (forall items, get data "players" <> Ok (VArray items)) ->
  exists reason,
    loadGameState JSON_parse new_Date service
      = (Err (CorruptedStateError reason), clearGameState service) /\
    localStorage (clearGameState service) !! STORAGE_KEY = None /\
    localStorage (clearGameState service) !! VERSION_KEY = None.
Proof.
  intros Hav Hitem Htext Hparse Hno.
  destruct (deserializeState_players_missing data Hno) as [what Hdes].
  exists what. split; [|by apply clearGameState_cleared].
  unfold loadGameState, loadGameState_try.
  rewrite Hav, Hitem, bool_decide_eq_false_2, Hparse, Hdes by done.
  done.
Qed.

(** A record that [deserializeState] accepts and [validateState] refuses
    raises [CorruptedStateError] as well, but through the early re-throw:
    the service is returned as it was, the record still stored. *)
Lemma loadGameState_validation_failure service text data state reason :
  isStorageAvailable service = true ->
  localStorage service !! STORAGE_KEY = Some text ->
  text <> EmptyString ->
  JSON_parse text = Some data ->
  deserializeState new_Date data = Ok state ->
  validateState state = Err (CorruptedStateError reason) ->
  loadGameState JSON_parse new_Date service
    = (Err (CorruptedStateError reason), service).
Proof.
  intros Hav Hitem Htext Hparse Hdes Hval.
  unfold loadGameState, loadGameState_try.
  rewrite Hav, Hitem, bool_decide_eq_false_2, Hparse, Hdes by done.
  simpl. by rewrite Hval.
Qed.
End StorageFacts.

(** C8 fails on a record that has a [players] array and lacks the rest:
    [{"players":[]}] passes [deserializeState], [validateState] throws
    [CorruptedStateError] for the game id, the [catch] re-throws it before
    [clearGameState], and the record stays in the store.  The record without
    [players], [{}], is cleared. *)
Theorem loadGameState_corrupted_record_kept new_Date :
  loadGameState parse_samples new_Date (stored players_only_record)
    = (Err (CorruptedStateError "Missing or invalid gameId"),
       stored players_only_record) /\
  localStorage (stored players_only_record) !! STORAGE_KEY
    = Some players_only_record /\
  exists reason,
    loadGameState parse_samples new_Date (stored empty_record)
      = (Err (CorruptedStateError reason), mkStorageService true ∅).
Proof.
  split_and!.
  - reflexivity.
  - reflexivity.
  - eexists. unfold loadGameState. simpl. reflexivity.
Qed.

Example iso_epoch : Date_toISOString 0 = "1970-01-01T00:00:00.000Z".
Proof. reflexivity. Qed.
Example iso_2023 : Date_toISOString 1700000000000 = "2023-11-14T22:13:20.000Z".
Proof. reflexivity. Qed.
Example iso_before_epoch : Date_toISOString (-1) = "1969-12-31T23:59:59.999Z".
Proof. reflexivity. Qed.
Example iso_last : Date_toISOString maxTime = "+275760-09-13T00:00:00.000Z".
Proof. reflexivity. Qed.
Example iso_first : Date_toISOString (- maxTime) = "-271821-04-20T00:00:00.000Z".
Proof. reflexivity. Qed.
Example iso_leap_day : Date_toISOString 951782400000 = "2000-02-29T00:00:00.000Z".
Proof. reflexivity. Qed.
Example parse_2023 : Date_parse "2023-11-14T22:13:20.000Z" = TimeValue 1700000000000.
Proof. reflexivity. Qed.
Example parse_first : Date_parse "-271821-04-20T00:00:00.000Z" = TimeValue (- maxTime).
Proof. reflexivity. Qed.

(** ** Dates as text: reading back what [toISOString] wrote *)

Lemma holds_from_spec f len : forall start z,
  holds_from f start len = true ->
  start <= z < start + Z.of_nat len -> f z = true.
Proof.
  induction len as [|len IH]; intros start z Hall Hz; [lia|].
  simpl in Hall. apply andb_true_iff in Hall as [Hstart Hall].
  destruct (decide (z = start)) as [->|]; [done|].
  apply (IH (start + 1)); [done|lia].
Qed.

Lemma doe_ok_all doe : 0 <= doe < 146097 -> doe_ok doe = true.
Proof.
  intros Hdoe.
  assert (holds_from doe_ok 0 (Z.to_nat 146097) = true) as Hall
    by (vm_compute; reflexivity).
  apply (holds_from_spec _ _ _ _ Hall). lia.
Qed.

Lemma civil_from_days_spec days y m d :
  civil_from_days days = (y, m, d) ->
  1 <= m <= 12 /\ 1 <= d <= 31 /\
  days_from_civil y m d = days /\
  (days + 719468) / 146097 * 400 <= y <= (days + 719468) / 146097 * 400 + 400.
Proof.
  unfold civil_from_days. cbv zeta.
  set (era := (days + 719468) / 146097).
  set (doe := (days + 719468) mod 146097).
  assert (0 <= doe < 146097) as Hdoe by (apply Z.mod_pos_bound; lia).
  assert (days = era * 146097 + doe - 719468) as Hdays.
  { pose proof (Z.div_mod (days + 719468) 146097). subst era doe. lia. }
  pose proof (doe_ok_all doe Hdoe) as Hok. unfold doe_ok in Hok. cbv zeta in Hok.
  set (yoe := (doe - doe / 1460 + doe / 36524 - doe / 146096) / 365) in *.
  set (doy := doe - (365 * yoe + yoe / 4 - yoe / 100)) in *.
  set (mp := (5 * doy + 2) / 153) in *.
  set (dd := doy - (153 * mp + 2) / 5 + 1) in *.
  repeat (apply andb_true_iff in Hok as [Hok ?]).
  intros [= <- <- <-].
  assert (1 <= (if mp <? 10 then mp + 3 else mp - 9) <= 12) as Hm
    by (destruct (Z.ltb_spec mp 10); lia).
  split; [done|]. split; [lia|]. split.
  - unfold days_from_civil. cbv zeta.
    set (m := if mp <? 10 then mp + 3 else mp - 9) in *.
    assert ((if 2 <? m then m - 3 else m + 9) = mp) as ->.
    { subst m. destruct (Z.ltb_spec mp 10);
        [destruct (Z.ltb_spec 2 (mp + 3)) | destruct (Z.ltb_spec 2 (mp - 9))]; lia. }
    assert ((if m <=? 2 then yoe + era * 400 + (if m <=? 2 then 1 else 0) - 1
             else yoe + era * 400 + (if m <=? 2 then 1 else 0))
            = yoe + era * 400) as ->.
    { destruct (m <=? 2); lia. }
    rewrite Z.div_add, Z.mod_add by lia.
    rewrite Z.div_small, Z.mod_small by lia.
    subst dd doy. lia.
  - destruct (_ <=? 2); lia.
Qed.

Lemma digit_value_digit n : 0 <= n <= 9 -> digit_value (digit n) = Some n.
Proof.
  intros Hn. unfold digit_value, digit.
  rewrite N_ascii_embedding by lia.
  destruct (Z.leb_spec 48 (Z.of_N (48 + Z.to_N n))); [|lia].
  destruct (Z.leb_spec (Z.of_N (48 + Z.to_N n)) 57); [|lia].
  simpl. f_equal. lia.
Qed.

Lemma expect_same c text : expect c (c :: text) = Some text.
Proof. unfold expect. by rewrite decide_True. Qed.

Lemma expect_digit c n text :
  0 <= n <= 9 -> digit_value c = None -> expect c (digit n :: text) = None.
Proof.
  intros Hn Hc. unfold expect. rewrite decide_False; [done|].
  intros E. rewrite <- E, digit_value_digit in Hc by done. done.
Qed.

Lemma read_digits_snoc width : forall acc text,
  read_digits (S width) acc text =
    '(a, text') ← read_digits width acc text;
    match text' with
    | c :: text'' => d ← digit_value c; Some (10 * a + d, text'')
    | [] => None
    end.
Proof.
  induction width as [|width IH]; intros acc text.
  - simpl. destruct text as [|c text]; [done|]. simpl.
    by destruct (digit_value c).
  - change (read_digits (S (S width)) acc text)
      with (match text with
            | c :: text' =>
                d ← digit_value c; read_digits (S width) (10 * acc + d) text'
            | [] => None
            end).
    destruct text as [|c text]; [done|]. simpl.
    destruct (digit_value c) as [d|]; [|done]. simpl. apply IH.
Qed.

Lemma read_digits_digits width : forall n acc rest,
  0 <= n < 10 ^ Z.of_nat width ->
  read_digits width acc (digits width n ++ rest)
    = Some (acc * 10 ^ Z.of_nat width + n, rest).
Proof.
  induction width as [|width IH]; intros n acc rest Hn.
  - simpl in *. f_equal. f_equal. lia.
  - rewrite Nat2Z.inj_succ, Z.pow_succ_r in * by lia.
    rewrite read_digits_snoc.
    cbn [digits]. rewrite <- app_assoc. rewrite IH.
    2:{ split; [apply Z.div_pos; lia|]. apply Z.div_lt_upper_bound; lia. }
    simpl. rewrite digit_value_digit
      by (pose proof (Z.mod_pos_bound n 10); lia).
    simpl. f_equal. f_equal.
    pose proof (Z.div_mod n 10). lia.
Qed.

Ltac in_width :=
  match goal with
  | |- _ <= _ < 10 ^ Z.of_nat ?w =>
      let v := eval vm_compute in (10 ^ Z.of_nat w) in
      change (10 ^ Z.of_nat w) with v; lia
  end.

Lemma read_year_year_chars y rest :
  -999999 <= y <= 999999 ->
  read_year (year_chars y ++ rest) = Some (y, rest).
Proof.
  intros Hy. unfold year_chars, read_year.
  destruct (Z.leb_spec 0 y); cbn [andb].
  - destruct (Z.leb_spec y 9999).
    + cbn [digits app].
      assert (0 <= y / 10 / 10 / 10 mod 10 <= 9) as Hd
        by (pose proof (Z.mod_pos_bound (y / 10 / 10 / 10) 10); lia).
      rewrite !expect_digit by done.
      change (digit (y / 10 / 10 / 10 mod 10) :: digit (y / 10 / 10 mod 10)
                :: digit (y / 10 mod 10) :: digit (y mod 10) :: rest)
        with (digits 4 y ++ rest).
      rewrite read_digits_digits by in_width. repeat f_equal; lia.
    + destruct (Z.ltb_spec y 0); [lia|]. cbn [app].
      rewrite expect_same, read_digits_digits by in_width.
      repeat f_equal; lia.
  - destruct (Z.ltb_spec y 0); [|lia]. cbn [app].
    change (expect "+" ("-"%char :: digits 6 (Z.abs y) ++ rest))
      with (@None (list ascii)).
    cbv iota. rewrite expect_same, read_digits_digits by in_width.
    simpl. repeat f_equal; lia.
Qed.

Lemma bind_Some {A B} (x : A) (f : A -> option B) : (Some x ≫= f) = f x.
Proof. done. Qed.

Ltac read_number :=
  rewrite read_digits_digits by in_width;
  rewrite Z.mul_0_l, Z.add_0_l, bind_Some; cbv beta iota.

Ltac read_mark := rewrite expect_same, bind_Some.

(** Every valid time value is read back from its ISO text. *)
Lemma Date_parse_toISOString t :
  valid_time t -> Date_parse (Date_toISOString t) = TimeValue t.
Proof.
  unfold valid_time, maxTime. intros Ht.
  unfold Date_parse, Date_toISOString.
  destruct (civil_from_days (t / msPerDay)) as [[y m] d] eqn:Hcivil.
  apply civil_from_days_spec in Hcivil as (Hm & Hd & Hdays & Hy).
  unfold msPerDay in *.
  pose proof (Z.div_mod t 86400000) as Hdm.
  pose proof (Z.mod_pos_bound t 86400000) as Hmod.
  set (msInDay := t mod 86400000) in *.
  set (days := t / 86400000) in *.
  assert (-100000000 <= days <= 100000000) as Hrange by lia.
  assert (-2000 <= (days + 719468) / 146097 <= 2000) as Hera.
  { split; [apply Z.div_le_lower_bound | apply Z.div_le_upper_bound]; lia. }
  assert (0 <= msInDay / 3600000 <= 23) as Hhh.
  { split; [apply Z.div_pos; lia|]. apply Z.lt_succ_r, Z.div_lt_upper_bound; lia. }
  pose proof (Z.mod_pos_bound (msInDay / 60000) 60) as Hmm.
  pose proof (Z.mod_pos_bound (msInDay / 1000) 60) as Hss.
  pose proof (Z.mod_pos_bound msInDay 1000) as Hms.
  rewrite String.list_ascii_of_string_of_list_ascii.
  unfold read_ISO.
  rewrite read_year_year_chars, bind_Some by lia. cbv beta iota.
  read_mark. read_number. read_mark. read_number. read_mark.
  read_number. read_mark. read_number. read_mark. read_number. read_mark.
  read_number. read_mark.
  rewrite Hdays. unfold msPerDay, maxTime.
  assert (days * 86400000
          + ((msInDay / 3600000 * 60 + msInDay / 60000 mod 60) * 60
             + msInDay / 1000 mod 60) * 1000 + msInDay mod 1000 = t) as ->.
  { assert ((msInDay / 3600000 * 60 + msInDay / 60000 mod 60) * 60
             + msInDay / 1000 mod 60 = msInDay / 1000) as ->.
    { assert (msInDay / 3600000 * 60 + msInDay / 60000 mod 60 = msInDay / 60000) as ->.
      { replace (msInDay / 3600000) with (msInDay / 60000 / 60)
          by (rewrite Z.div_div by lia; done).
        pose proof (Z.div_mod (msInDay / 60000) 60). lia. }
      replace (msInDay / 60000) with (msInDay / 1000 / 60)
        by (rewrite Z.div_div by lia; done).
      pose proof (Z.div_mod (msInDay / 1000) 60). lia. }
    pose proof (Z.div_mod msInDay 1000). lia. }
  repeat match goal with
         | |- context [?a <=? ?b] => destruct (Z.leb_spec a b); [|lia]
         end.
  done.
Qed.


(** ** The codec: writing a state and reading it back *)

Lemma assoc_None_keys k fields : k ∉ fields.*1 -> assoc k fields = None.
Proof.
  induction fields as [|[k' v] fields IH]; simpl; [done|].
  intros Hk. apply not_elem_of_cons in Hk as [Hne Hk].
  rewrite (proj2 (String.eqb_neq k' k)) by done. by apply IH.
Qed.

(** Two objects read the same everywhere once they do on their keys. *)
Lemma same_fields_keys fa fb :
  Forall (fun k => default VUndefined (assoc k fa) = default VUndefined (assoc k fb))
    (fa.*1 ++ fb.*1) ->
  same_fields (VObject fa) (VObject fb).
Proof.
  intros Hall k. simpl. f_equal.
  destruct (decide (k ∈ fa.*1 ++ fb.*1)) as [Hin|Hout].
  - rewrite Forall_forall in Hall. by apply Hall.
  - apply not_elem_of_app in Hout as [Ha Hb].
    by rewrite !assoc_None_keys.
Qed.

Lemma same_state_keys fa fb pa pb :
  Forall (fun k => k <> "players" ->
                   default VUndefined (assoc k fa) = default VUndefined (assoc k fb))
    (fa.*1 ++ fb.*1) ->
  assoc "players" fa = Some (VArray pa) ->
  assoc "players" fb = Some (VArray pb) ->
  Forall2 same_fields pa pb ->
  same_state (VObject fa) (VObject fb).
Proof.
  intros Hall Ha Hb Hplayers. split.
  - intros k Hk. simpl. f_equal.
    destruct (decide (k ∈ fa.*1 ++ fb.*1)) as [Hin|Hout].
    + rewrite Forall_forall in Hall. by apply Hall.
    + apply not_elem_of_app in Hout as [Hka Hkb].
      by rewrite !assoc_None_keys.
  - exists pa, pb. simpl. by rewrite Ha, Hb.
Qed.

Lemma Date_toISOString_nonempty t : Date_toISOString t <> EmptyString.
Proof.
  unfold Date_toISOString.
  destruct (civil_from_days (t / msPerDay)) as [[y m] d].
  destruct (year_chars y); discriminate.
Qed.

(** Compare two objects of known keys, key by key. *)
Ltac check_keys tac :=
  let pred := fresh "pred" in
  let Hpred := fresh "Hpred" in
  match goal with
  | |- Forall ?P _ => remember P as pred eqn:Hpred
  end;
  cbn;
  repeat (apply List.Forall_cons; [rewrite Hpred; cbn; tac; try done|]);
  apply List.Forall_nil.

Section Codec.
Variable toISOString : Z -> string.
Variable new_Date : JSValue -> Date.
Variable sound : Z -> Prop.
Hypothesis toISOString_nonempty : forall t, toISOString t <> EmptyString.
Hypothesis new_Date_toISOString :
  forall t, sound t -> new_Date (VString (toISOString t)) = TimeValue t.

Lemma truthy_ISO t : truthy (VString (toISOString t)) = true.
Proof. simpl. by rewrite bool_decide_eq_false_2. Qed.

(** A player written and read back has the fields it had, its finish
    time being the same [Date]; written again, it is the same record. *)
Lemma player_round_trip p :
  (forall d, finishTime p = Some d -> exists t, d = TimeValue t /\ sound t) ->
  exists stored loaded stored',
    serializePlayer toISOString (js_of_Player p) = Ok stored /\
    deserializePlayer new_Date stored = Ok loaded /\
    serializePlayer toISOString loaded = Ok stored' /\
    same_fields loaded (js_of_Player p) /\
    same_fields stored' stored /\
    get loaded "finishTime" = Ok (from_option VDate VUndefined (finishTime p)).
Proof.
  intros Hfinish. destruct p as [i n c tid tcol pos fin ft ord].
  simpl in Hfinish.
  assert (ft = None \/ exists t, ft = Some (TimeValue t) /\ sound t) as Hft.
  { destruct ft as [d|]; [|by left]. right.
    destruct (Hfinish d eq_refl) as (t & -> & Ht). eauto. }
  clear Hfinish.
  destruct Hft as [-> | (t & -> & Ht)];
    destruct tid as [tid|], tcol as [tcol|];
    unfold serializePlayer, deserializePlayer, js_of_Player;
    (do 3 eexists; split_and!;
     [ cbn; reflexivity
     | cbn -[truthy]; rewrite ?truthy_ISO; cbn;
       rewrite ?new_Date_toISOString by done; reflexivity
     | cbn; reflexivity
     | apply same_fields_keys; cbn; repeat constructor
     | apply same_fields_keys; cbn; repeat constructor
     | reflexivity ]).
Qed.
Lemma players_round_trip ps :
  Forall (fun p => forall d, finishTime p = Some d ->
                   exists t, d = TimeValue t /\ sound t) ps ->
  exists storeds loadeds storeds',
    map_result (serializePlayer toISOString) (js_of_Player <$> ps) = Ok storeds /\
    map_result (deserializePlayer new_Date) storeds = Ok loadeds /\
    map_result (serializePlayer toISOString) loadeds = Ok storeds' /\
    Forall2 same_fields loadeds (js_of_Player <$> ps) /\
    Forall2 same_fields storeds' storeds /\
    Forall2 (fun loaded p =>
               get loaded "finishTime"
                 = Ok (from_option VDate VUndefined (finishTime p))) loadeds ps.
Proof.
  induction 1 as [|p ps Hp _ IH].
  { exists [], [], []. split_and!; done || constructor. }
  destruct IH as (storeds & loadeds & storeds' & H1 & H2 & H3 & H4 & H5 & H6).
  destruct (player_round_trip p Hp)
    as (stored & loaded & stored' & P1 & P2 & P3 & P4 & P5 & P6).
  exists (stored :: storeds), (loaded :: loadeds), (stored' :: storeds').
  cbn [fmap list_fmap map_result].
  rewrite P1, H1, P2, H2, P3, H3.
  split_and!; done || by constructor.
Qed.

(** A state written and read back is the state it was, field by field
    (players included), its dates being the same [Date] values; written
    again, it is the same record. *)
Lemma state_round_trip x :
  (exists t, createdAt x = TimeValue t /\ sound t) ->
  (exists t, lastUpdatedAt x = TimeValue t /\ sound t) ->
  Forall (fun p => forall d, finishTime p = Some d ->
                   exists t, d = TimeValue t /\ sound t) (players x) ->
  pendingMaxPoints (diceConfig x) <> PendingUndefined ->
  exists y x' y',
    serializeState toISOString (js_of_GameState x) = Ok y /\
    deserializeState new_Date y = Ok x' /\
    serializeState toISOString x' = Ok y' /\
    same_state x' (js_of_GameState x) /\
    same_state y' y /\
    get x' "createdAt" = Ok (VDate (createdAt x)) /\
    get x' "lastUpdatedAt" = Ok (VDate (lastUpdatedAt x)) /\
    (exists loadeds,
       get x' "players" = Ok (VArray loadeds) /\
       Forall2 (fun loaded p =>
                  get loaded "finishTime"
                    = Ok (from_option VDate VUndefined (finishTime p)))
         loadeds (players x)) /\
    (exists tc tu,
       createdAt x = TimeValue tc /\ lastUpdatedAt x = TimeValue tu /\
       get y "createdAt" = Ok (VString (toISOString tc)) /\
       get y "lastUpdatedAt" = Ok (VString (toISOString tu))).
Proof.
  intros (tc & Hc & Htc) (tu & Hu & Htu) Hplayers Hpending.
  destruct (players_round_trip _ Hplayers)
    as (storeds & loadeds & storeds' & H1 & H2 & H3 & H4 & H5 & H6).
  destruct x as [gid ps tms sls mt roller target dice dc round turns
                   started finished token wps created updated].
  destruct dc as [maxp pending]. simpl in *. subst created updated.
  assert (exists pv, js_of_Pending pending = Some pv /\ nullish pv VNull = pv)
    as (pv & Hpv & Hnull).
  { destruct pending; [done| |]; eexists; split; reflexivity. }
  do 3 eexists. split_and!.
  - unfold serializeState, js_of_GameState. cbn. rewrite H1. cbn. reflexivity.
  - unfold deserializeState, js_of_DiceConfiguration. cbn.
    rewrite Hpv. cbn. rewrite H2. cbn.
    rewrite !new_Date_toISOString by done. reflexivity.
  - unfold serializeState. cbn. rewrite H3. cbn. reflexivity.
  - unfold js_of_GameState, js_of_DiceConfiguration. cbn. rewrite Hpv.
    eapply same_state_keys; [|reflexivity|reflexivity|exact H4].
    check_keys ltac:(rewrite ?Hnull).
  - eapply same_state_keys; [|reflexivity|reflexivity|exact H5].
    check_keys ltac:(unfold js_of_DiceConfiguration; cbn;
                     rewrite ?Hpv; cbn; rewrite ?Hnull).
  - reflexivity.
  - reflexivity.
  - exists loadeds. split; [reflexivity|exact H6].
  - exists tc, tu. split_and!; reflexivity.
Qed.
End Codec.

Lemma reads_ISO_Date_of : reads_ISO Date_of.
Proof. intros t Ht. simpl. by apply Date_parse_toISOString. Qed.

(** C7: for a valid state [x] (valid dates, [pendingMaxPoints] set) and a
    [Date] constructor that reads ISO-8601 text, [serializeState] succeeds
    and writes the dates as ISO strings; [deserializeState] of the record is
    [x] again field by field, each player field by field, with [createdAt],
    [lastUpdatedAt] and every [finishTime] the same [Date] values; and
    serializing what was read gives the record again. *)
Theorem codec_round_trip new_Date x :
  reads_ISO new_Date ->
  valid_GameState x ->
  exists y x' y',
    serializeState Date_toISOString (js_of_GameState x) = Ok y /\
    deserializeState new_Date y = Ok x' /\
    serializeState Date_toISOString x' = Ok y' /\
    same_state x' (js_of_GameState x) /\
    same_state y' y /\
    get x' "createdAt" = Ok (VDate (createdAt x)) /\
    get x' "lastUpdatedAt" = Ok (VDate (lastUpdatedAt x)) /\
    (exists loadeds,
       get x' "players" = Ok (VArray loadeds) /\
       Forall2 (fun loaded p =>
                  get loaded "finishTime"
                    = Ok (from_option VDate VUndefined (finishTime p)))
         loadeds (players x)) /\
    (exists tc tu,
       createdAt x = TimeValue tc /\ lastUpdatedAt x = TimeValue tu /\
       get y "createdAt" = Ok (VString (Date_toISOString tc)) /\
       get y "lastUpdatedAt" = Ok (VString (Date_toISOString tu))).
Proof.
  intros Hreads (Hc & Hu & Hplayers & Hpending).
  apply (state_round_trip Date_toISOString new_Date valid_time
           Date_toISOString_nonempty Hreads); done.
Qed.

Lemma valid_GameState_bob_finished : valid_GameState bob_finished.
Proof.
  unfold valid_GameState, valid_Date, valid_time, maxTime. simpl. split_and!.
  - eexists. split; [reflexivity|lia].
  - eexists. split; [reflexivity|lia].
  - repeat constructor; simpl; intros d [= <-].
    eexists. split; [reflexivity|lia].
  - done.
Qed.

Lemma codec_round_trip_witness :
  exists y x' y',
    serializeState Date_toISOString (js_of_GameState bob_finished) = Ok y /\
    deserializeState Date_of y = Ok x' /\
    serializeState Date_toISOString x' = Ok y' /\
    same_state x' (js_of_GameState bob_finished) /\
    same_state y' y /\
    get x' "createdAt" = Ok (VDate t0) /\
    get x' "lastUpdatedAt" = Ok (VDate t0) /\
    (exists loadeds,
       get x' "players" = Ok (VArray loadeds) /\
       Forall2 (fun loaded p =>
                  get loaded "finishTime"
                    = Ok (from_option VDate VUndefined (finishTime p)))
         loadeds [alice; with_finished (with_position bob 100) t1; carol]) /\
    (exists tc tu,
       t0 = TimeValue tc /\ t0 = TimeValue tu /\
       get y "createdAt" = Ok (VString (Date_toISOString tc)) /\
       get y "lastUpdatedAt" = Ok (VString (Date_toISOString tu))).
Proof.
  exact (codec_round_trip Date_of bob_finished reads_ISO_Date_of
           valid_GameState_bob_finished).
Defined.

(** What the record of that game holds for its dates. *)
Example stored_dates :
  exists y players,
    serializeState Date_toISOString (js_of_GameState bob_finished) = Ok y /\
    get y "createdAt" = Ok (VString "2023-11-14T22:13:20.000Z") /\
    get y "players" = Ok (VArray players) /\
    (fun player => get player "finishTime") <$> players
      = [Ok VUndefined; Ok (VString "2023-11-14T22:14:20.000Z"); Ok VUndefined].
Proof. do 2 eexists. split_and!; reflexivity. Qed.

(** The default of the loader: a state whose dice configuration has no
    [pendingMaxPoints] member is read back with [null] there (which is why
    [valid_GameState] asks for the member). *)
Example pending_defaults_to_null :
  exists y x' diceConfig diceConfig',
    serializeState Date_toISOString (js_of_GameState without_pending) = Ok y /\
    deserializeState Date_of y = Ok x' /\
    get (js_of_GameState without_pending) "diceConfig" = Ok diceConfig /\
    get diceConfig "pendingMaxPoints" = Ok VUndefined /\
    get x' "diceConfig" = Ok diceConfig' /\
    get diceConfig' "pendingMaxPoints" = Ok VNull.
Proof. do 4 eexists. split_and!; reflexivity. Qed.
(** ** The board *)

Module BoardLayoutFacts.
Import BoardLayout.

Lemma board_cells : board = cell_of <$> seqZ 1 100.
Proof. reflexivity. Qed.

Lemma cell_ok_all n : 1 <= n <= 100 -> cell_ok n = true.
Proof.
  intros Hn.
  assert (holds_from cell_ok 1 (Z.to_nat 100) = true) as Hall
    by (vm_compute; reflexivity).
  apply (holds_from_spec _ _ _ _ Hall). lia.
Qed.

Lemma cell_ok_facts n :
  1 <= n <= 100 ->
  getCellByNumber n board = Some (cell_of n) /\
  getCellByCoordinates (x (cell_of n)) (y (cell_of n)) board = Some (cell_of n) /\
  0 <= x (cell_of n) <= 9 /\ 0 <= y (cell_of n) <= 9 /\
  y (cell_of n) = (n - 1) / 10 /\
  x (cell_of n) = (if Z.even (y (cell_of n)) then (n - 1) mod 10
                   else 9 - (n - 1) mod 10).
Proof.
  intros Hn. pose proof (cell_ok_all n Hn) as H. unfold cell_ok in H.
  cbv zeta in H.
  repeat (apply andb_true_iff in H as [H ?]).
  repeat match goal with
         | H : bool_decide _ = true |- _ => apply bool_decide_eq_true in H
         | H : (_ <=? _) = true |- _ => apply Z.leb_le in H
         end.
  split_and!; done.
Qed.

Lemma board_elem c : c ∈ board <-> exists n, 1 <= n <= 100 /\ c = cell_of n.
Proof.
  rewrite board_cells, list_elem_of_fmap. split.
  - intros (n & -> & Hn%elem_of_seqZ). exists n. split; [lia|done].
  - intros (n & Hn & ->). exists n. split; [done|]. apply elem_of_seqZ. lia.
Qed.

(** X1: [generateBoardLayout] never throws: it returns exactly 100 cells,
    the cell at index [n - 1] being the one numbered [n], in row
    [floor((n - 1) / 10)] counted from 0 and, within the row, at column
    [(n - 1) mod 10] on even rows and [9 - (n - 1) mod 10] on odd rows. *)
Theorem generateBoardLayout_cells :
  exists cells,
    generateBoardLayout = Returned cells /\
    length cells = 100%nat /\
    forall n, 1 <= n <= 100 ->
      exists cell,
        cells !! Z.to_nat (n - 1) = Some cell /\
        number cell = n /\
        y cell = (n - 1) / 10 /\
        x cell = (if Z.even (y cell) then (n - 1) mod 10
                  else 9 - (n - 1) mod 10) /\
        0 <= x cell <= 9 /\ 0 <= y cell <= 9.
Proof.
  exists board. split; [reflexivity|]. split; [reflexivity|].
  intros n Hn. exists (cell_of n).
  destruct (cell_ok_facts n Hn) as (_ & _ & Hx & Hy & Hrow & Hcol).
  split_and!; try done; try lia.
  rewrite board_cells, list_lookup_fmap.
  rewrite (lookup_seqZ_lt 1 100 (Z.to_nat (n - 1))) by lia.
  simpl. f_equal. f_equal. lia.
Qed.

(** X2: on the generated board, [getCellByNumber] finds a cell exactly
    for the numbers 1 to 100, and it is the cell of that number; any other
    number gives [undefined]. *)
Theorem getCellByNumber_board n cell :
  getCellByNumber n board = Some cell <->
  1 <= n <= 100 /\ cell = cell_of n.
Proof.
  split.
  - unfold getCellByNumber, Array_find.
    destruct (list_find _ _) as [[i c]|] eqn:E; [|done].
    simpl. intros [= ->].
    apply list_find_Some in E as (Hi & Hnum & _).
    assert (cell ∈ board) as (m & Hm & ->)%board_elem
      by (apply list_elem_of_lookup; eauto).
    unfold has_number in Hnum. simpl in Hnum. subst m. done.
  - intros [Hn ->]. by apply cell_ok_facts.
Qed.

(** X3: numbers and grid coordinates correspond one to one: every pair
    [(x, y)] of the 10 x 10 grid holds one cell, numbered
    [10 * y + x + 1] on even rows and [10 * y + (9 - x) + 1] on odd rows,
    which [getCellByNumber] gives back; outside the grid there is none. *)
Theorem getCellByCoordinates_board cx cy :
  (0 <= cx <= 9 /\ 0 <= cy <= 9 ->
   exists cell,
     getCellByCoordinates cx cy board = Some cell /\
     x cell = cx /\ y cell = cy /\
     number cell = 10 * cy + (if Z.even cy then cx else 9 - cx) + 1 /\
     getCellByNumber (number cell) board = Some cell) /\
  (~ (0 <= cx <= 9 /\ 0 <= cy <= 9) ->
   getCellByCoordinates cx cy board = None).
Proof.
  split.
  - intros [Hx Hy].
    set (r := if Z.even cy then cx else 9 - cx).
    assert (0 <= r <= 9) as Hr by (subst r; destruct (Z.even cy); lia).
    set (n := 10 * cy + r + 1).
    assert (1 <= n <= 100) as Hn by lia.
    assert ((n - 1) / 10 = cy) as Hdiv
      by (symmetry; apply Z.div_unique with (r := r); lia).
    assert ((n - 1) mod 10 = r) as Hmod
      by (symmetry; apply Z.mod_unique with (q := cy); lia).
    destruct (cell_ok_facts n Hn) as (Hnum & Hco & _ & _ & Hrow & Hcol).
    assert (y (cell_of n) = cy) as Hcy by congruence.
    assert (x (cell_of n) = cx) as Hcx.
    { rewrite Hcol, Hcy, Hmod. subst r. destruct (Z.even cy); lia. }
    exists (cell_of n). split_and!; try done.
    by rewrite <- Hcx, <- Hcy.
  - intros Hout. unfold getCellByCoordinates, Array_find.
    destruct (list_find _ _) as [[i c]|] eqn:E; [|done].
    apply list_find_Some in E as (Hi & [Hcx Hcy] & _).
    assert (c ∈ board) as (m & Hm & ->)%board_elem
      by (apply list_elem_of_lookup; eauto).
    destruct (cell_ok_facts m Hm) as (_ & _ & Hx & Hy & _).
    destruct Hout. lia.
Qed.

Lemma getCellByCoordinates_board_witness :
  exists cell,
    getCellByCoordinates 3 1 board = Some cell /\
    x cell = 3 /\ y cell = 1 /\
    number cell = 10 * 1 + (if Z.even 1 then 3 else 9 - 3) + 1 /\
    getCellByNumber (number cell) board = Some cell.
Proof.
  apply (proj1 (getCellByCoordinates_board 3 1)). lia.
Defined.

(** X4: the numbering is a path on the grid: the cells numbered [n] and
    [n + 1] always touch along a side, from cell 1 in the corner [(0, 0)]
    to cell 100 in the corner [(0, 9)]. *)
Theorem consecutive_cells_adjacent n :
  1 <= n < 100 ->
  exists a b,
    getCellByNumber n board = Some a /\
    getCellByNumber (n + 1) board = Some b /\
    adjacent a b /\
    getCellByNumber 1 board = Some (mkBoardCell 1 0 0) /\
    getCellByNumber 100 board = Some (mkBoardCell 100 0 9).
Proof.
  intros Hn. exists (cell_of n), (cell_of (n + 1)).
  split_and!; [by apply cell_ok_facts; lia | by apply cell_ok_facts; lia | |
               reflexivity | reflexivity].
  assert (holds_from step_ok 1 (Z.to_nat 99) = true) as Hall
    by (vm_compute; reflexivity).
  pose proof (holds_from_spec _ _ _ n Hall ltac:(lia)) as H.
  by apply bool_decide_eq_true in H.
Qed.

Lemma consecutive_cells_adjacent_witness :
  exists a b,
    getCellByNumber 10 board = Some a /\
    getCellByNumber (10 + 1) board = Some b /\
    adjacent a b /\
    getCellByNumber 1 board = Some (mkBoardCell 1 0 0) /\
    getCellByNumber 100 board = Some (mkBoardCell 100 0 9).
Proof. apply (consecutive_cells_adjacent 10). lia. Defined.

End BoardLayoutFacts.

(** ** Dice results *)

(** X5: [createDiceResult] succeeds exactly when both dice are between 1
    and 6; the result then carries their sum, a total between 2 and 12 that
    is the one [calculateDiceTotal] computes; otherwise both functions throw
    [InvalidDiceValueError] for the first die out of range. *)
Theorem createDiceResult_total now dice1 dice2 rollerId targetId :
  (1 <= dice1 <= 6 /\ 1 <= dice2 <= 6 ->
   exists result,
     createDiceResult now dice1 dice2 rollerId targetId = Returned result /\
     calculateDiceTotal dice1 dice2 = Returned (total result) /\
     total result = dice1 + dice2 /\ 2 <= total result <= 12) /\
  (~ (1 <= dice1 <= 6) ->
   createDiceResult now dice1 dice2 rollerId targetId
     = Threw (InvalidDiceValueError dice1) /\
   calculateDiceTotal dice1 dice2 = Threw (InvalidDiceValueError dice1)) /\
  (1 <= dice1 <= 6 -> ~ (1 <= dice2 <= 6) ->
   createDiceResult now dice1 dice2 rollerId targetId
     = Threw (InvalidDiceValueError dice2) /\
   calculateDiceTotal dice1 dice2 = Threw (InvalidDiceValueError dice2)).
Proof.
  unfold createDiceResult, calculateDiceTotal, validateDiceValue.
  split_and!.
  - intros [H1 H2].
    destruct (Z.ltb_spec dice1 1); [lia|]. destruct (Z.ltb_spec 6 dice1); [lia|].
    destruct (Z.ltb_spec dice2 1); [lia|]. destruct (Z.ltb_spec 6 dice2); [lia|].
    simpl. eexists. split; [reflexivity|]. simpl. split_and!; [done|done|lia|lia].
  - intros H1. destruct (Z.ltb_spec dice1 1); [done|].
    destruct (Z.ltb_spec 6 dice1); [done|]. lia.
  - intros H1 H2. destruct (Z.ltb_spec dice1 1); [lia|].
    destruct (Z.ltb_spec 6 dice1); [lia|]. simpl.
    destruct (Z.ltb_spec dice2 1); [done|].
    destruct (Z.ltb_spec 6 dice2); [done|]. lia.
Qed.

Lemma createDiceResult_total_witness :
  exists result,
    createDiceResult t1 3 6 "p-a" "p-b" = Returned result /\
    calculateDiceTotal 3 6 = Returned (total result) /\
    total result = 3 + 6 /\ 2 <= total result <= 12.
Proof.
  apply (proj1 (createDiceResult_total t1 3 6 "p-a" "p-b")). lia.
Defined.

(** ** Teams *)

Lemma attempt_all_length {A B} (f : A -> Attempt B) l l' :
  attempt_all f l = Returned l' -> length l' = length l.
Proof.
  revert l'. induction l as [|a l IH]; intros l'; simpl.
  { by intros [= <-]. }
  destruct (f a); simpl; [|done].
  destruct (attempt_all f l); simpl; [|done].
  intros [= <-]. simpl. f_equal. by apply IH.
Qed.

(** X6: [createTeams] accepts the counts 2 to 8 and throws
    [InvalidTeamCountError] for any other; it returns that many teams, named
    [Team 1], [Team 2], ... in order, whose colours are pairwise distinct
    colours of the palette, so that each team passes the duplicate-colour
    check against the list when it keeps its own colour. *)
Theorem createTeams_distinct_colours uuid count :
  (2 <= count <= 8 ->
   exists teams,
     createTeams uuid count = Returned teams /\
     Z.of_nat (length teams) = count /\
     team_name <$> teams
       = (fun i => "Team " +:+ pretty i) <$> seq 1 (Z.to_nat count) /\
     team_id <$> teams = uuid <$> seq 0 (Z.to_nat count) /\
     NoDup (team_color <$> teams) /\
     Forall (fun t => team_color t ∈ value <$> AVAILABLE_COLORS) teams /\
     Forall (fun t => checkDuplicateTeamColor (team_color t) teams
                        (Some (team_id t)) = Returned tt) teams) /\
  (~ (2 <= count <= 8) ->
   createTeams uuid count = Threw (InvalidTeamCountError count)).
Proof.
  split.
  - intros Hcount.
    assert (count = 2 \/ count = 3 \/ count = 4 \/ count = 5 \/ count = 6
            \/ count = 7 \/ count = 8) as Hcases by lia.
    assert (forall teams : list Team,
              NoDup (team_color <$> teams) ->
              Forall (fun t => checkDuplicateTeamColor (team_color t) teams
                                 (Some (team_id t)) = Returned tt) teams)
      as Hkeep.
    { intros teams Hnd. apply Forall_forall. intros t [i Hi]%list_elem_of_lookup.
      unfold checkDuplicateTeamColor.
      destruct (decide _) as [Hex|]; [|done].
      apply Exists_exists in Hex as (t' & [j Hj]%list_elem_of_lookup & Hc & Hid).
      assert (i = j) as ->.
      { eapply NoDup_lookup; [exact Hnd| |].
        - by rewrite list_lookup_fmap, Hi.
        - rewrite list_lookup_fmap, Hj. simpl. by rewrite Hc. }
      congruence. }
    destruct Hcases as [->|[->|[->|[->|[->|[->| ->]]]]]];
      (eexists; split; [reflexivity|];
       assert (forall l : list string, bool_decide (NoDup l) = true -> NoDup l)
         as Hdec by (intros l; apply bool_decide_eq_true);
       split_and!;
       [ reflexivity | reflexivity | reflexivity
       | apply Hdec; vm_compute; reflexivity
       | repeat constructor; apply (bool_decide_unpack _); vm_compute; exact I
       | apply Hkeep, Hdec; vm_compute; reflexivity ]).
  - intros Hout. unfold createTeams, validateTeamCount.
    destruct (Z.ltb_spec count 2); [done|].
    destruct (Z.ltb_spec 8 count); [done|]. lia.
Qed.

Lemma createTeams_distinct_colours_witness :
  exists teams,
    createTeams numbered 3 = Returned teams /\
    Z.of_nat (length teams) = 3 /\
    team_name <$> teams
      = (fun i => "Team " +:+ pretty i) <$> seq 1 (Z.to_nat 3) /\
    team_id <$> teams = numbered <$> seq 0 (Z.to_nat 3) /\
    NoDup (team_color <$> teams) /\
    Forall (fun t => team_color t ∈ value <$> AVAILABLE_COLORS) teams /\
    Forall (fun t => checkDuplicateTeamColor (team_color t) teams
                       (Some (team_id t)) = Returned tt) teams.
Proof.
  apply (proj1 (createTeams_distinct_colours numbered 3)). lia.
Defined.

Section NameFacts.
Variable trim : string -> string.

(** X7: [createTeam] succeeds exactly when no existing team has the
    colour, and throws [DuplicateTeamColorError] otherwise; the new team has
    the trimmed name and the colour asked for, and adding it to teams of
    pairwise distinct colours leaves the colours pairwise distinct. *)
Theorem createTeam_fresh_colour uuid name color existingTeams :
  (color ∉ team_color <$> existingTeams ->
   createTeam trim uuid name color existingTeams
     = Returned (mkTeam uuid (trim name) color) /\
   (NoDup (team_color <$> existingTeams) ->
    NoDup (team_color <$> existingTeams ++ [mkTeam uuid (trim name) color]))) /\
  (color ∈ team_color <$> existingTeams ->
   createTeam trim uuid name color existingTeams
     = Threw (DuplicateTeamColorError color)).
Proof.
  unfold createTeam, checkDuplicateTeamColor. split.
  - intros Hfresh. destruct (decide _) as [Hex|_].
    { apply Exists_exists in Hex as (t & Ht & Hc & _). destruct Hfresh.
      apply list_elem_of_fmap. eauto. }
    split; [done|]. intros Hnd. rewrite fmap_app. apply NoDup_app.
    split_and!; [done| |apply NoDup_singleton].
    intros c Hc Hc'. apply list_elem_of_singleton in Hc'. simpl in Hc'. by subst c.
  - intros (t & Hc & Ht)%list_elem_of_fmap. rewrite decide_True; [done|].
    apply Exists_exists. exists t. split; [done|]. split; [done|]. done.
Qed.
End NameFacts.

Lemma createTeam_fresh_colour_witness :
  createTeam (fun s => s) "t-3" "Reds" "#C41E3A"
    [mkTeam "t-1" "Team 1" "#1D3557"; mkTeam "t-2" "Team 2" "#FFB703"]
  = Returned (mkTeam "t-3" "Reds" "#C41E3A").
Proof.
  apply (proj1 (createTeam_fresh_colour (fun s => s) "t-3" "Reds" "#C41E3A"
                  [mkTeam "t-1" "Team 1" "#1D3557";
                   mkTeam "t-2" "Team 2" "#FFB703"])).
  apply (bool_decide_unpack _). vm_compute. exact I.
Defined.

(** ** The service under any sequence of calls *)

Lemma updateState_Ok now updater state svc' :
  updateState now updater (Some state) = Ok svc' ->
  exists newState,
    updater state = Ok newState /\ svc' = Some (with_lastUpdatedAt newState now).
Proof.
  unfold updateState. destruct (updater state) as [newState|]; simpl; [|done].
  intros [= <-]. eauto.
Qed.

Lemma findIndex_found (playerId : string) (l : list Player) :
  Array_findIndex (has_id playerId) l <> -1 ->
  exists i p,
    Array_findIndex (has_id playerId) l = Z.of_nat i /\
    l !! i = Some p /\ id p = playerId /\ Array_find (has_id playerId) l = Some p.
Proof.
  unfold Array_findIndex, Array_find.
  destruct (list_find _ l) as [[i p]|] eqn:E; [|done]. intros _.
  apply list_find_Some in E as (Hi & Hp & _). by exists i, p.
Qed.

Lemma movePlayer_updater_Ok playerId steps state newState :
  movePlayer_updater playerId steps state = Ok newState ->
  exists i p v,
    players state !! i = Some p /\ id p = playerId /\ 0 <= v <= 100 /\
    newState = with_players state (<[i := with_position p v]> (players state)).
Proof.
  unfold movePlayer_updater.
  destruct (Z.eqb_spec (Array_findIndex (has_id playerId) (players state)) (-1))
    as [|Hfound]; [done|].
  destruct (findIndex_found _ _ Hfound) as (i & p & -> & Hi & Hp & _).
  rewrite Nat2Z.id, Hi. unfold validatePosition.
  set (v := if 100 <? _ then _ else _).
  destruct (Z.ltb_spec v 0); [done|]. destruct (Z.ltb_spec 100 v); [done|].
  simpl. intros [= <-]. exists i, p, v. split_and!; done || lia.
Qed.

Lemma applySpecialMove_updater_Ok playerId special state newState :
  applySpecialMove_updater playerId special state = Ok newState ->
  exists i p,
    players state !! i = Some p /\ id p = playerId /\
    newState = with_players state
                 (<[i := with_position p (endPosition special)]> (players state)).
Proof.
  unfold applySpecialMove_updater.
  destruct (Z.eqb_spec (Array_findIndex (has_id playerId) (players state)) (-1))
    as [|Hfound]; [done|].
  destruct (findIndex_found _ _ Hfound) as (i & p & -> & Hi & Hp & _).
  rewrite Nat2Z.id, Hi. intros [= <-]. by exists i, p.
Qed.

Lemma markPlayerFinished_updater_Ok finishTime playerId state newState :
  markPlayerFinished_updater finishTime playerId state = Ok newState ->
  exists i p,
    players state !! i = Some p /\ id p = playerId /\ position p = 100 /\
    newState = with_players state
                 (<[i := with_finished p finishTime]> (players state)).
Proof.
  unfold markPlayerFinished_updater.
  destruct (Z.eqb_spec (Array_findIndex (has_id playerId) (players state)) (-1))
    as [|Hfound]; [done|].
  destruct (findIndex_found _ _ Hfound) as (i & p & -> & Hi & Hp & _).
  rewrite Nat2Z.id, Hi.
  destruct (Z.eqb_spec (position p) 100); simpl; [|done].
  intros [= <-]. by exists i, p.
Qed.

(** [nextTurn] either finds nobody to play and returns the state, or hands
    the dice to an active player. *)
Lemma nextTurn_updater_Ok state newState :
  nextTurn_updater state = Ok newState ->
  (filter active (players state) = [] /\ newState = state) \/
  exists nextRoller turns round config,
    nextRoller ∈ players state /\ active nextRoller /\
    (config = diceConfig state \/
     exists v, pendingMaxPoints (diceConfig state) = PendingValue v /\
               config = {| maxPoints := v; pendingMaxPoints := PendingNull |}) /\
    newState = with_turn state (id nextRoller) turns round config.
Proof.
  destruct (decide (filter active (players state) = [])) as [E|Hne].
  { rewrite (nextTurn_updater_idle _ E). intros [= <-]. by left. }
  destruct (nextTurn_updater_active state Hne) as (nextRoller & Hlookup & ->).
  intros [= <-]. right.
  assert (nextRoller ∈ filter active (players state)) as Hin.
  { rewrite <- (Array_sort_Permutation by_turnOrder).
    eapply list_elem_of_lookup_2, Hlookup. }
  apply list_elem_of_filter in Hin as [Hactive Hin].
  destruct (_ <=? _).
  - destruct (pendingMaxPoints (diceConfig state)) as [| |v] eqn:Ep.
    + do 4 eexists. split_and!; [done|done|by left|done].
    + do 4 eexists. split_and!; [done|done|by left|done].
    + do 4 eexists. split_and!; [done|done|right; by exists v|done].
  - do 4 eexists. split_and!; [done|done|by left|done].
Qed.

Lemma setSelectedTarget_updater_Returned targetId state newState :
  setSelectedTarget_updater targetId state = Returned newState ->
  exists target,
    Array_find (has_id targetId) (players state) = Some target /\
    isFinished target = false /\
    newState = with_selectedTargetId state (Some targetId).
Proof.
  unfold setSelectedTarget_updater.
  destruct (Array_find _ _) as [target|]; [|done].
  destruct (isFinished target) eqn:E; [done|]. intros [= <-]. by exists target.
Qed.

Lemma setShowTokenForPlayer_updater_Ok playerId state newState :
  setShowTokenForPlayer_updater playerId state = Ok newState ->
  newState = with_showTokenForPlayerId state playerId /\
  forall wanted, playerId = Some wanted ->
    is_Some (Array_find (has_id wanted) (players state)).
Proof.
  unfold setShowTokenForPlayer_updater. destruct playerId as [wanted|]; simpl.
  - destruct (Array_find _ _) as [p|] eqn:E; simpl; [|done].
    intros [= <-]. split; [done|]. intros ? [= <-]. by rewrite E.
  - intros [= <-]. split; [done|]. by intros ? [=].
Qed.

(** One successful call, by cases: a player of the list is rewritten and
    keeps what identifies it, or the list stays. *)
Lemma perform_Returned now call state svc' :
  perform now call (Some state) = Returned svc' ->
  exists newState,
    svc' = Some newState /\
    same_game state newState /\
    ((players newState = players state) \/
     exists i p p',
       players state !! i = Some p /\
       players newState = <[i := p']> (players state) /\
       identity p' = identity p /\
       (isFinished p = true -> isFinished p' = true) /\
       ((lands_on_board call -> on_board p') \/ position p' = position p)).
Proof.
  assert (forall (l : list Player) i p p',
            l !! i = Some p -> identity p' = identity p ->
            identity <$> <[i := p']> l = identity <$> l) as Hsame.
  { intros l i p p' Hi Hid. rewrite list_fmap_insert, Hid.
    apply list_insert_id. by rewrite list_lookup_fmap, Hi. }
  destruct call as [playerId steps|playerId special| |when playerId|targetId|n|n| |playerId];
    cbn [perform]; unfold raising.
  - destruct (movePlayer _ _ _ _) as [svc1|] eqn:E; [|done]. intros [= <-].
    apply updateState_Ok in E as (s1 & E & ->).
    apply movePlayer_updater_Ok in E as (i & p & v & Hi & _ & Hv & ->).
    eexists. split; [done|]. split.
    + unfold same_game; simpl. split_and!; try done. symmetry. by eapply Hsame.
    + right. exists i, p, (with_position p v). split_and!; try done. by left.
  - destruct (applySpecialMove _ _ _ _) as [svc1|] eqn:E; [|done]. intros [= <-].
    apply updateState_Ok in E as (s1 & E & ->).
    apply applySpecialMove_updater_Ok in E as (i & p & Hi & _ & ->).
    eexists. split; [done|]. split.
    + unfold same_game; simpl. split_and!; try done. symmetry. by eapply Hsame.
    + right. exists i, p, (with_position p (endPosition special)).
      split_and!; try done. by left.
  - destruct (nextTurn _ _) as [svc1|] eqn:E; [|done]. intros [= <-].
    apply updateState_Ok in E as (s1 & E & ->).
    apply nextTurn_updater_Ok in E as [[_ ->]|(r & ? & ? & ? & _ & _ & _ & ->)];
      (eexists; split; [done|]; split; [done|by left]).
  - destruct (markPlayerFinished _ _ _ _) as [svc1|] eqn:E; [|done]. intros [= <-].
    apply updateState_Ok in E as (s1 & E & ->).
    apply markPlayerFinished_updater_Ok in E as (i & p & Hi & _ & Hp & ->).
    eexists. split; [done|]. split.
    + unfold same_game; simpl. split_and!; try done. symmetry. by eapply Hsame.
    + right. exists i, p, (with_finished p when).
      split_and!; try done. by right.
  - unfold setSelectedTarget, updateState_throwing.
    destruct (setSelectedTarget_updater _ _) as [s1|] eqn:E; simpl; [|done].
    intros [= <-].
    apply setSelectedTarget_updater_Returned in E as (? & _ & _ & ->).
    eexists. split; [done|]. split; [done|by left].
  - unfold updateDiceConfig. destruct (negb _); [done|].
    destruct (updateState _ _ _) as [svc1|] eqn:E; [|done]. intros [= <-].
    apply updateState_Ok in E as (s1 & [= <-] & ->).
    eexists. split; [done|]. split; [done|by left].
  - unfold updateDiceConfigPending. destruct (negb _); [done|].
    destruct (updateState _ _ _) as [svc1|] eqn:E; [|done]. intros [= <-].
    apply updateState_Ok in E as (s1 & [= <-] & ->).
    eexists. split; [done|]. split; [done|by left].
  - destruct (applyPendingDiceConfig _ _) as [svc1|] eqn:E; [|done]. intros [= <-].
    apply updateState_Ok in E as (s1 & E & ->).
    unfold applyPendingDiceConfig_updater in E.
    destruct (pendingMaxPoints _); injection E as <-;
      (eexists; split; [done|]; split; [done|by left]).
  - destruct (setShowTokenForPlayer _ _ _) as [svc1|] eqn:E; [|done]. intros [= <-].
    apply updateState_Ok in E as (s1 & E & ->).
    apply setShowTokenForPlayer_updater_Ok in E as [-> _].
    eexists. split; [done|]. split; [done|by left].
Qed.

(** A property that every successful call of a kind carries from state to
    state holds along every sequence of calls of that kind. *)
Lemma play_preserves (P : Call -> Prop) (R : GameState -> GameState -> Prop) :
  (forall s, R s s) ->
  (forall a b c, R a b -> R b c -> R a c) ->
  (forall now call s s',
     P call -> perform now call (Some s) = Returned (Some s') -> R s s') ->
  forall calls state,
    Forall (fun c => P c.2) calls ->
    exists state', play calls (Some state) = Some state' /\ R state state'.
Proof.
  intros Hrefl Htrans Hstep calls.
  induction calls as [|[now call] calls IH]; intros state Hcalls; simpl.
  { by exists state. }
  apply Forall_cons in Hcalls as [Hcall Hcalls]. simpl in Hcall.
  destruct (perform now call (Some state)) as [svc1|] eqn:E; simpl.
  - destruct (perform_Returned _ _ _ _ E) as (s1 & -> & _).
    destruct (IH s1 Hcalls) as (s' & -> & Hs'). exists s'. split; [done|].
    eapply Htrans; [|exact Hs']. by eapply Hstep.
  - apply IH, Hcalls.
Qed.

Lemma Forall_any_call calls : Forall (fun c : Date * Call => True) calls.
Proof. by apply Forall_forall. Qed.

Lemma same_game_trans a b c : same_game a b -> same_game b c -> same_game a c.
Proof.
  unfold same_game. intros (?&?&?&?&?&?&?&?&?) (?&?&?&?&?&?&?&?&?).
  split_and!; congruence.
Qed.

(** X8: whatever calls the service receives after a game is set up, and
    whether they succeed or throw, the game keeps its players: the same
    ids, names, colours, teams and turn orders, in the same order, none
    added and none removed; its id, teams, snakes and ladders, map type,
    winning positions and creation time stay as well, and so do the flags
    [isGameStarted] and [isGameFinished], which no call sets. *)
Theorem play_keeps_the_game calls state :
  exists state',
    play calls (Some state) = Some state' /\ same_game state state'.
Proof.
  apply (play_preserves (fun _ => True) same_game).
  - intros s. by unfold same_game.
  - apply same_game_trans.
  - intros now call s s' _ E.
    apply perform_Returned in E as (s1 & [= <-] & Hsame & _). done.
  - apply Forall_any_call.
Qed.

Lemma finished_kept_step now call s s' :
  perform now call (Some s) = Returned (Some s') -> finished_kept s s'.
Proof.
  intros E. apply perform_Returned in E as (s1 & [= <-] & _ & Hplayers).
  unfold finished_kept.
  destruct Hplayers as [-> | (i & p & p' & Hi & -> & Hid & Hfin & _)].
  { apply Forall_Forall2_diag, Forall_forall. by intros. }
  apply Forall2_same_length_lookup. split; [by rewrite length_insert|].
  intros j q q' Hq Hq'. destruct (decide (i = j)) as [->|Hne].
  - rewrite list_lookup_insert_eq in Hq' by (by eapply lookup_lt_Some).
    injection Hq' as <-. assert (q = p) as -> by congruence.
    split; [|done]. unfold identity in Hid. congruence.
  - rewrite list_lookup_insert_ne in Hq' by done.
    assert (q = q') as -> by congruence. done.
Qed.

(** X9: no call takes a finish back: along any sequence of calls each
    player keeps its place and id and, once finished, stays finished; so a
    game that has ended ([checkGameEnd]) stays ended. *)
Theorem play_keeps_finished calls state :
  exists state',
    play calls (Some state) = Some state' /\
    Forall2 (fun p p' => id p' = id p /\
                         (isFinished p = true -> isFinished p' = true))
      (players state) (players state') /\
    (checkGameEnd (Some state) = true -> checkGameEnd (Some state') = true).
Proof.
  destruct (play_preserves (fun _ => True) finished_kept) with calls state
    as (state' & Hplay & Hkept).
  - intros s. apply Forall_Forall2_diag, Forall_forall. by intros.
  - intros a b c Hab Hbc. unfold finished_kept in *.
    apply Forall2_same_length_lookup in Hab as [Hlen Hab].
    apply Forall2_same_length_lookup in Hbc as [Hlen' Hbc].
    apply Forall2_same_length_lookup. split; [congruence|].
    intros i p r Hp Hr.
    destruct (lookup_lt_is_Some_2 (players b) i) as [q Hq].
    { rewrite <- Hlen. by eapply lookup_lt_Some. }
    destruct (Hab i p q Hp Hq) as [? ?], (Hbc i q r Hq Hr) as [? ?].
    split; [congruence|auto].
  - intros now call s s' _. apply finished_kept_step.
  - apply Forall_any_call.
  - exists state'. split; [done|]. split; [done|].
    unfold checkGameEnd. pose proof (Forall2_length _ _ _ Hkept) as Hlen.
    rewrite <- Hlen. destruct (_ =? 0); [done|].
    unfold finished_kept in Hkept. clear Hlen Hplay.
    induction Hkept as [|p p' l l' [_ Hp] _ IH]; simpl; [done|].
    rewrite !andb_true_iff. intros [Hp0 Hall]. split; [by apply Hp|by apply IH].
Qed.

Lemma validateMaxPoints_at_least_one n :
  validateMaxPoints n = true -> 1 <= integer_of n.
Proof.
  destruct n as [q| | |]; try done.
  intros (v & Hq & Hv)%validateMaxPoints_Finite. simpl.
  by rewrite (Qfloor_comp _ _ Hq), Qfloor_Z.
Qed.

Lemma valid_dice_step now call s s' :
  perform now call (Some s) = Returned (Some s') ->
  valid_dice (diceConfig s) -> valid_dice (diceConfig s').
Proof.
  destruct call as [playerId steps|playerId special| |when playerId|targetId|n|n| |playerId];
    cbn [perform]; unfold raising.
  - destruct (movePlayer _ _ _ _) as [svc1|] eqn:E; [|done]. intros [= ->].
    apply updateState_Ok in E as (s1 & E & [= ->]).
    by apply movePlayer_updater_Ok in E as (i & p & v & _ & _ & _ & ->).
  - destruct (applySpecialMove _ _ _ _) as [svc1|] eqn:E; [|done]. intros [= ->].
    apply updateState_Ok in E as (s1 & E & [= ->]).
    by apply applySpecialMove_updater_Ok in E as (i & p & _ & _ & ->).
  - destruct (nextTurn _ _) as [svc1|] eqn:E; [|done]. intros [= ->].
    apply updateState_Ok in E as (s1 & E & [= ->]).
    apply nextTurn_updater_Ok in E
      as [[_ ->]|(r & ? & ? & c & _ & _ & [->|(v & Hv & ->)] & ->)];
      simpl; try done.
    unfold valid_dice. rewrite Hv. simpl. by intros [_ ?].
  - destruct (markPlayerFinished _ _ _ _) as [svc1|] eqn:E; [|done]. intros [= ->].
    apply updateState_Ok in E as (s1 & E & [= ->]).
    by apply markPlayerFinished_updater_Ok in E as (i & p & _ & _ & _ & ->).
  - unfold setSelectedTarget, updateState_throwing.
    destruct (setSelectedTarget_updater _ _) as [s1|] eqn:E; simpl; [|done].
    intros [= <-].
    by apply setSelectedTarget_updater_Returned in E as (? & _ & _ & ->).
  - unfold updateDiceConfig.
    destruct (validateMaxPoints n) eqn:Hvalid; cbn [negb]; [|done].
    destruct (updateState _ _ _) as [svc1|] eqn:E; [|done]. intros [= ->].
    apply updateState_Ok in E as (s1 & [= <-] & [= ->]).
    unfold valid_dice. simpl. intros [_ ?]. split; [|done].
    by apply validateMaxPoints_at_least_one.
  - unfold updateDiceConfigPending.
    destruct (validateMaxPoints n) eqn:Hvalid; cbn [negb]; [|done].
    destruct (updateState _ _ _) as [svc1|] eqn:E; [|done]. intros [= ->].
    apply updateState_Ok in E as (s1 & [= <-] & [= ->]).
    unfold valid_dice. simpl. intros [? _]. split; [done|].
    by apply validateMaxPoints_at_least_one.
  - destruct (applyPendingDiceConfig _ _) as [svc1|] eqn:E; [|done]. intros [= ->].
    apply updateState_Ok in E as (s1 & E & [= ->]).
    unfold applyPendingDiceConfig_updater in E. unfold valid_dice.
    destruct (pendingMaxPoints (diceConfig s)) eqn:Ep; injection E as <-; simpl;
      rewrite ?Ep; try done.
    by intros [_ ?].
  - destruct (setShowTokenForPlayer _ _ _) as [svc1|] eqn:E; [|done]. intros [= ->].
    apply updateState_Ok in E as (s1 & E & [= ->]).
    by apply setShowTokenForPlayer_updater_Ok in E as [-> _].
Qed.

(** X10: the dice stay rollable: from a state whose [maxPoints] is at
    least 1, and whose staged value, if any, is too, any sequence of calls
    leads to such a state, whatever numbers [updateDiceConfig] and
    [updateDiceConfigPending] are offered; [rollDice] then returns a face
    between 1 and the current [maxPoints] for every draw of [Math.random()]
    in [0, 1). *)
Theorem play_keeps_dice_rollable calls state :
  valid_dice (diceConfig state) ->
  exists state',
    play calls (Some state) = Some state' /\
    valid_dice (diceConfig state') /\
    forall r, (0 <= r)%Q -> (r < 1)%Q ->
      exists face,
        rollDice r (Some state') = Ok face /\
        1 <= face <= maxPoints (diceConfig state').
Proof.
  intros Hvalid.
  destruct (play_preserves (fun _ => True)
              (fun a b => valid_dice (diceConfig a) -> valid_dice (diceConfig b)))
    with calls state as (state' & Hplay & Hkept).
  - done.
  - auto.
  - intros now call s s' _. apply valid_dice_step.
  - apply Forall_any_call.
  - exists state'. split; [done|]. split; [auto|].
    intros r H0 H1. apply rollDice_range; [done|done|]. by apply Hkept.
Qed.

Lemma play_keeps_dice_rollable_witness :
  exists state',
    play [(t1, UpdateDiceConfigPending (number_of_Z 6));
          (t1, UpdateDiceConfig (Finite (5 # 2)));
          (t1, NextTurn); (t1, NextTurn); (t1, NextTurn);
          (t1, UpdateDiceConfig (number_of_Z 0))]
      (Some (game_of [alice; bob; carol] "p-a")) = Some state' /\
    valid_dice (diceConfig state') /\
    forall r, (0 <= r)%Q -> (r < 1)%Q ->
      exists face,
        rollDice r (Some state') = Ok face /\
        1 <= face <= maxPoints (diceConfig state').
Proof.
  apply (play_keeps_dice_rollable _ (game_of [alice; bob; carol] "p-a")).
  unfold valid_dice. simpl. split; [lia|done].
Defined.

(** X11: positions stay on the board: if every player stands between 0
    and 100, then so does every player after any sequence of calls in which
    [applySpecialMove] is given hazards that end between 0 and 100
    ([movePlayer] checks the square it writes, [applySpecialMove] writes the
    hazard's end as it is). *)
Theorem play_keeps_players_on_board calls state :
  Forall on_board (players state) ->
  Forall (fun c => lands_on_board c.2) calls ->
  exists state',
    play calls (Some state) = Some state' /\
    Forall on_board (players state').
Proof.
  intros Hboard Hcalls.
  destruct (play_preserves lands_on_board
              (fun a b => Forall on_board (players a) -> Forall on_board (players b)))
    with calls state as (state' & Hplay & Hkept).
  - done.
  - auto.
  - intros now call s s' Hcall E Hs.
    apply perform_Returned in E as (s1 & [= <-] & _ & Hplayers).
    destruct Hplayers as [-> | (i & p & p' & Hi & -> & _ & _ & Hpos)]; [done|].
    apply Forall_insert; [done|].
    destruct Hpos as [Hpos|Hpos]; [by apply Hpos|].
    unfold on_board. rewrite Hpos.
    eapply (proj1 (Forall_lookup _ _) Hs), Hi.
  - done.
  - exists state'. auto.
Qed.

Lemma play_keeps_players_on_board_witness :
  exists state',
    play [(t1, MovePlayer "p-b" 6); (t1, MovePlayer "p-a" (-20));
          (t1, ApplySpecialMove "p-c" (mkSnakeOrLadder "s-1" snake 20 3));
          (t1, MovePlayer "p-b" 1)]
      (Some bob_about_to_finish) = Some state' /\
    Forall on_board (players state').
Proof.
  apply (play_keeps_players_on_board _ bob_about_to_finish).
  - unfold on_board. repeat constructor; simpl; lia.
  - repeat constructor; simpl; lia.
Defined.

(** The square [applySpecialMove] writes is not checked. *)
Example applySpecialMove_off_board :
  position_of "p-a"
    (after (Some bob_about_to_finish)
       (applySpecialMove t1 "p-a" (mkSnakeOrLadder "l-1" ladder 10 250)
          (Some bob_about_to_finish)))
  = Some 250.
Proof. reflexivity. Qed.

(** X12: [nextTurn] never throws on an initialized game and leaves the
    players as they are; while somebody is still playing it clears the
    selected target and the last dice result and hands the dice to a player
    who has not finished, whom [getCurrentRoller] returns when ids are
    unique. *)
Theorem nextTurn_hands_dice_to_active now state :
  exists state',
    nextTurn now (Some state) = Ok (Some state') /\
    players state' = players state /\
    (filter active (players state) ≠ [] ->
     selectedTargetId state' = None /\ lastDiceResult state' = None /\
     exists roller,
       roller ∈ players state' /\ active roller /\
       currentDiceRollerId state' = id roller /\
       (NoDup (id <$> players state) ->
        getCurrentRoller (Some state') = Some roller)).
Proof.
  unfold nextTurn, updateState.
  destruct (nextTurn_updater state) as [s1|e] eqn:E.
  - apply nextTurn_updater_Ok in E
      as [[Hidle ->]|(r & ? & ? & c & Hin & Hactive & _ & ->)]; simpl.
    + eexists. split; [done|]. split; [done|]. by intros [].
    + eexists. split; [done|]. split; [done|]. intros _. split_and!; try done.
      exists r. split_and!; try done.
      intros Hnd. by apply Array_find_unique.
  - destruct (decide (filter active (players state) = [])) as [Hidle|Hne].
    + by rewrite (nextTurn_updater_idle _ Hidle) in E.
    + destruct (nextTurn_updater_active state Hne) as (? & _ & E'). congruence.
Qed.

(** X13: with unique ids, [setSelectedTarget] accepts exactly the players
    who have not finished: it then records the target and changes nothing
    else but [lastUpdatedAt]; a finished player is refused by name, an
    unknown id is refused, and a refusal leaves the state as it was. *)
Theorem setSelectedTarget_accepts_active now targetId state :
  NoDup (id <$> players state) ->
  (forall p, p ∈ players state -> id p = targetId -> isFinished p = false ->
     setSelectedTarget now targetId (Some state)
     = Returned (Some (with_lastUpdatedAt
                         (with_selectedTargetId state (Some targetId)) now))) /\
  (forall p, p ∈ players state -> id p = targetId -> isFinished p = true ->
     setSelectedTarget now targetId (Some state)
     = Threw (TargetFinishedError (name p))) /\
  (targetId ∉ id <$> players state ->
     setSelectedTarget now targetId (Some state)
     = Threw (TargetNotFoundError targetId)) /\
  (forall svc', setSelectedTarget now targetId (Some state) = Returned svc' ->
     exists p, p ∈ players state /\ id p = targetId /\ isFinished p = false).
Proof.
  intros Hnd. unfold setSelectedTarget, updateState_throwing,
    setSelectedTarget_updater. split_and!.
  - intros p Hin <- Hp. by rewrite (Array_find_unique _ _ Hnd Hin), Hp.
  - intros p Hin <- Hp. by rewrite (Array_find_unique _ _ Hnd Hin), Hp.
  - intros Hout. unfold Array_find.
    destruct (list_find _ _) as [[i p]|] eqn:E; [|done].
    apply list_find_Some in E as (Hi & Hp & _). destruct Hout.
    apply list_elem_of_fmap. exists p. split; [done|].
    by eapply list_elem_of_lookup_2.
  - intros svc'. unfold Array_find.
    destruct (list_find _ _) as [[i p]|] eqn:E; simpl; [|done].
    apply list_find_Some in E as (Hi & Hp & _).
    destruct (isFinished p) eqn:Hfin; simpl; [done|]. intros _.
    exists p. split_and!; try done. by eapply list_elem_of_lookup_2.
Qed.

Lemma setSelectedTarget_accepts_active_witness :
  setSelectedTarget t1 "p-c" (Some bob_finished)
  = Returned (Some (with_lastUpdatedAt
                      (with_selectedTargetId bob_finished (Some "p-c")) t1)) /\
  setSelectedTarget t1 "p-b" (Some bob_finished)
  = Threw (TargetFinishedError "Bob").
Proof.
  assert (NoDup (id <$> players bob_finished)) as Hnd.
  { apply (bool_decide_unpack _). vm_compute. exact I. }
  destruct (setSelectedTarget_accepts_active t1 "p-c" bob_finished Hnd)
    as (Hactive & _).
  destruct (setSelectedTarget_accepts_active t1 "p-b" bob_finished Hnd)
    as (_ & Hfinished & _).
  split.
  - apply (Hactive carol); [|done|done]. apply (bool_decide_unpack _).
    vm_compute. exact I.
  - apply (Hfinished (with_finished (with_position bob 100) t1)); [|done|done].
    apply (bool_decide_unpack _). vm_compute. exact I.
Defined.

(** ** Snakes and ladders in play *)

Lemma Array_find_Some_elem {A} (P : A -> Prop) `{!forall x, Decision (P x)} l x :
  Array_find P l = Some x -> x ∈ l /\ P x.
Proof.
  unfold Array_find. destruct (list_find P l) as [[i y]|] eqn:E; [|done].
  intros [= <-]. apply list_find_Some in E as (Hi & Hy & _).
  split; [by eapply list_elem_of_lookup_2|done].
Qed.

(** X14: on a table whose hazards start on distinct squares,
    [checkSnakeOrLadder] returns a hazard exactly when it is the hazard of
    the table that starts on the square; on a valid table (hazards oriented
    and inside squares 2 to 99) the hazard found leads to another square
    between 2 and 99, and [applySpecialMove] puts the player there: a snake
    or a ladder never brings a player to square 100. *)
Theorem hazard_never_wins now playerId position state special p :
  valid_hazards (snakesAndLadders state) ->
  checkSnakeOrLadder position (Some state) = Some special ->
  Array_find (has_id playerId) (players state) = Some p ->
  (forall other, other ∈ snakesAndLadders state ->
                 Hazard_startPosition other = position -> other = special) /\
  2 <= position <= 99 /\
  2 <= endPosition special <= 99 /\
  (match type special with
   | snake => endPosition special < position
   | ladder => position < endPosition special
   end) /\
  let svc' := after (Some state)
                (applySpecialMove now playerId special (Some state)) in
  position_of playerId svc' = Some (endPosition special) /\
  checkWinCondition playerId svc' = false.
Proof.
  intros (Hnd & Horiented & Hinside) Hfound Hp. simpl in Hfound.
  apply Array_find_Some_elem in Hfound as [Hin Hstart].
  unfold starts_at in Hstart.
  rewrite Forall_forall in Horiented, Hinside.
  specialize (Horiented _ Hin). specialize (Hinside _ Hin).
  unfold oriented in Horiented. destruct Hinside as [Hs He].
  rewrite Hstart in *.
  split; [|split; [lia|split; [lia|split; [exact Horiented|cbv zeta]]]].
  - intros other [j Hj]%list_elem_of_lookup Hother.
    apply list_elem_of_lookup in Hin as [i Hi].
    assert (j = i) as ->; [|congruence].
    eapply NoDup_lookup; [exact Hnd| |].
    + by rewrite list_lookup_fmap, Hj; simpl; rewrite Hother.
    + by rewrite list_lookup_fmap, Hi; simpl; rewrite Hstart.
  - unfold applySpecialMove, updateState, applySpecialMove_updater.
    unfold Array_find in Hp. unfold Array_findIndex.
    destruct (list_find (has_id playerId) (players state)) as [[i q]|] eqn:E;
      [|done].
    injection Hp as ->.
    destruct (Z.eqb_spec (Z.of_nat i) (-1)); [lia|].
    apply list_find_Some in E as E'. destruct E' as (Hi & Hid & _).
    rewrite Nat2Z.id, Hi. cbn [mbind Result_bind after].
    assert (list_find (has_id playerId)
              (<[i := with_position p (endPosition special)]> (players state))
            = Some (i, with_position p (endPosition special))) as Hfind.
    { by apply list_find_insert_same with (x := p). }
    unfold position_of, checkWinCondition, Array_find. simpl. rewrite Hfind. simpl.
    split; [done|]. lia.
Qed.

Lemma hazard_never_wins_witness :
  position_of "p-a"
    (after (Some small_board)
       (applySpecialMove t1 "p-a" (mkSnakeOrLadder "s-1" snake 40 7)
          (Some small_board))) = Some 7 /\
  checkWinCondition "p-a"
    (after (Some small_board)
       (applySpecialMove t1 "p-a" (mkSnakeOrLadder "s-1" snake 40 7)
          (Some small_board))) = false.
Proof.
  apply (hazard_never_wins t1 "p-a" 40 small_board
           (mkSnakeOrLadder "s-1" snake 40 7) (with_position alice 40)).
  - unfold valid_hazards, oriented, inside_board. split_and!.
    + apply (bool_decide_unpack _). vm_compute. exact I.
    + repeat constructor; simpl; lia.
    + repeat constructor; simpl; lia.
  - reflexivity.
  - reflexivity.
Defined.

(** ** The staged dice configuration *)

(** X15: [applyPendingDiceConfig] never throws; it installs a staged
    [maxPoints] and clears the stage, touching nothing else but
    [lastUpdatedAt], and leaves the configuration alone when nothing is
    staged; applied again it changes nothing more; what it installs is what
    [nextTurn] installs when the call closes a round; and after a
    successful [updateDiceConfigPending] it makes the staged number
    current. *)
Theorem applyPendingDiceConfig_installs now later state :
  exists state',
    applyPendingDiceConfig now (Some state) = Ok (Some state') /\
    state' = with_lastUpdatedAt (with_diceConfig state (diceConfig state')) now /\
    diceConfig state' =
      match pendingMaxPoints (diceConfig state) with
      | PendingValue v => {| maxPoints := v; pendingMaxPoints := PendingNull |}
      | _ => diceConfig state
      end /\
    applyPendingDiceConfig later (Some state')
      = Ok (Some (with_lastUpdatedAt state' later)) /\
    (crosses_round_boundary state ->
     exists turned,
       nextTurn now (Some state) = Ok (Some turned) /\
       diceConfig turned = diceConfig state') /\
    (forall n, validateMaxPoints n = true ->
       exists staged installed,
         updateDiceConfigPending now n (Some state) = Ok (Some staged) /\
         maxPoints (diceConfig staged) = maxPoints (diceConfig state) /\
         applyPendingDiceConfig later (Some staged) = Ok (Some installed) /\
         diceConfig installed
           = {| maxPoints := integer_of n; pendingMaxPoints := PendingNull |}).
Proof.
  exists (with_lastUpdatedAt
            (with_diceConfig state
               match pendingMaxPoints (diceConfig state) with
               | PendingValue v =>
                   {| maxPoints := v; pendingMaxPoints := PendingNull |}
               | _ => diceConfig state
               end) now).
  split_and!.
  - unfold applyPendingDiceConfig, updateState, applyPendingDiceConfig_updater.
    destruct state as [? ? ? ? ? ? ? ? [m pending] ? ? ? ? ? ? ? ?].
    destruct pending; reflexivity.
  - done.
  - done.
  - unfold applyPendingDiceConfig, updateState, applyPendingDiceConfig_updater.
    destruct state as [? ? ? ? ? ? ? ? [m pending] ? ? ? ? ? ? ? ?].
    destruct pending; reflexivity.
  - intros [Hne Hturns].
    destruct (nextTurn_updater_active state Hne) as (r & _ & E).
    unfold nextTurn, updateState. rewrite E. cbn [mbind Result_bind].
    eexists. split; [reflexivity|].
    destruct (Z.leb_spec (Z.of_nat (length (filter active (players state))))
                (turnsInCurrentRound state + 1)); [|lia].
    reflexivity.
  - intros n Hn. unfold updateDiceConfigPending. rewrite Hn. simpl.
    do 2 eexists. split_and!; reflexivity.
Qed.

(** ** The token shown on the board *)

(** X16: [setShowTokenForPlayer] with the id of a player makes
    [getShowTokenPlayer] return that player, and with [null] makes it return
    [null]; an id nobody has is refused with the state unchanged.  The
    getter treats an empty id like [null]: a token set for a player whose id
    is the empty string is not returned. *)
Theorem show_token_round_trip now playerId state :
  (forall p,
     Array_find (has_id playerId) (players state) = Some p ->
     getShowTokenPlayer
       (after (Some state) (setShowTokenForPlayer now (Some playerId) (Some state)))
     = if decide (playerId = EmptyString) then None else Some p) /\
  (Array_find (has_id playerId) (players state) = None ->
   setShowTokenForPlayer now (Some playerId) (Some state)
   = Err (PlayerNotFoundError playerId)) /\
  getShowTokenPlayer
    (after (Some state) (setShowTokenForPlayer now None (Some state))) = None.
Proof.
  unfold setShowTokenForPlayer, updateState, setShowTokenForPlayer_updater.
  split_and!.
  - intros p Hp. rewrite Hp. simpl. by rewrite Hp.
  - by intros ->.
  - done.
Qed.

(** ** Sorting what is sorted *)

Lemma sort_insert_head {A} (compare : A -> A -> Z) x l :
  Forall (fun y => compare x y <= 0) l -> sort_insert compare x l = x :: l.
Proof.
  destruct l as [|y l]; simpl; [done|]. intros [Hy _]%Forall_cons.
  destruct (Z.ltb_spec 0 (compare x y)); [lia|done].
Qed.

Lemma Array_sort_id {A} (compare : A -> A -> Z) l :
  StronglySorted (fun a b => compare a b <= 0) l -> Array_sort compare l = l.
Proof.
  induction 1 as [|x l _ IH Hx]; simpl; [done|].
  rewrite IH. by apply sort_insert_head.
Qed.

(** ** Setting the players up *)

Section PlayerFacts.
Variable trim : string -> string.
Variable toLowerCase : string -> string.
Variable Number_toString : JSNumber -> string.
(** What is used of [trim]: trimming twice is trimming once, and the empty
    string stays empty. *)
Hypothesis trim_idempotent : forall s, trim (trim s) = trim s.
Hypothesis trim_empty : trim EmptyString = EmptyString.

Lemma validatePlayerName_nonblank text :
  validatePlayerName trim text = Returned tt <-> nonblank trim text.
Proof.
  unfold validatePlayerName, nonblank.
  destruct (decide (text = EmptyString)) as [->|Hname].
  { rewrite bool_decide_eq_true_2 by done. simpl. rewrite trim_empty. split; done. }
  rewrite bool_decide_eq_false_2 by done. simpl.
  destruct (trim text) as [|c s]; simpl; [split; done|].
  destruct (Z.eqb_spec (Z.of_nat (S (String.length s))) 0); [lia|]. split; done.
Qed.

Lemma validatePlayerName_blank text :
  ~ nonblank trim text -> validatePlayerName trim text = Threw InvalidPlayerNameError.
Proof.
  intros Hblank. pose proof (validatePlayerName_nonblank text) as Hiff.
  unfold validatePlayerName in *. destruct (_ || _); [done|].
  destruct Hblank. by apply Hiff.
Qed.

Lemma checkDuplicatePlayerName_fresh text players :
  checkDuplicatePlayerName trim toLowerCase text players
  = if decide (normalized trim toLowerCase text
                 ∈ (fun p => normalized trim toLowerCase (name p)) <$> players)
    then Threw (DuplicatePlayerNameError text) else Returned tt.
Proof.
  unfold checkDuplicatePlayerName.
  destruct (decide (Exists _ _)) as [Hex|Hno]; destruct (decide (_ ∈ _)) as [Hin|Hout];
    try done.
  - destruct Hout. apply Exists_exists in Hex as (p & Hp & Hsame).
    apply list_elem_of_fmap. exists p. split; [|done]. by rewrite <- Hsame.
  - destruct Hno. apply list_elem_of_fmap in Hin as (p & Hsame & Hp).
    apply Exists_exists. exists p. split; [done|]. by unfold same_name.
Qed.

(** The loop of [createPlayers], from any index on: on players whose names
    are trimmed already. *)
Lemma createPlayers_from_spec uuid total names index players result :
  createPlayers_from trim toLowerCase Number_toString uuid total index names players
    = Returned result <->
  Forall (nonblank trim) names /\
  NoDup (normalized trim toLowerCase <$> names) /\
  (forall text, text ∈ names ->
     normalized trim toLowerCase text
       ∉ (fun p => normalized trim toLowerCase (name p)) <$> players) /\
  result = players
           ++ imap (fun i => new_player trim Number_toString uuid total (index + i))
                names.
Proof.
  revert index players result.
  induction names as [|text names IH]; intros index players result; simpl.
  { rewrite app_nil_r. split.
    - intros [= ->]. split_and!; try done; [constructor|by intros ? ?%elem_of_nil].
    - by intros (_ & _ & _ & ->). }
  unfold createPlayer. rewrite checkDuplicatePlayerName_fresh.
  destruct (decide (nonblank trim text)) as [Hname|Hblank].
  2:{ rewrite (validatePlayerName_blank _ Hblank). simpl. split; [done|].
      intros (Hall & _). by apply Forall_cons in Hall as [? _]. }
  rewrite (proj2 (validatePlayerName_nonblank text) Hname). simpl.
  destruct (decide (_ ∈ _)) as [Hseen|Hfresh]; simpl.
  { split; [done|]. intros (_ & _ & Hout & _). destruct (Hout text); [left|done]. }
  rewrite IH. rewrite fmap_app. simpl.
  replace (normalized trim toLowerCase (trim text))
    with (normalized trim toLowerCase text)
    by (unfold normalized; by rewrite trim_idempotent).
  rewrite Forall_cons, NoDup_cons, <- app_assoc. simpl.
  replace (index + 0)%nat with index by lia.
  assert (imap (fun i => new_player trim Number_toString uuid total (S (index + i)))
            names
          = imap ((fun i => new_player trim Number_toString uuid total (index + i)) ∘ S)
              names) as ->.
  { apply imap_ext. intros i x _. simpl. f_equal. lia. }
  split.
  - intros (Hall & Hnd & Hout & ->). split_and!; try done.
    + intros (other & Hsame & Hin)%list_elem_of_fmap.
      apply (Hout other Hin). apply elem_of_app. right. rewrite Hsame. left.
    + intros other [->|Hin]%elem_of_cons; [done|].
      intros Hin'. apply (Hout other Hin). apply elem_of_app. by left.
  - intros ([_ Hall] & [Hnew Hnd] & Hout & ->). split_and!; try done.
    intros other Hin [Hin'|Hin']%elem_of_app.
    + apply (Hout other); [by right|done].
    + apply list_elem_of_singleton in Hin'. destruct Hnew. rewrite <- Hin'.
      apply list_elem_of_fmap. by exists other.
Qed.

Lemma createPlayers_from_Threw uuid total names index players t :
  createPlayers_from trim toLowerCase Number_toString uuid total index names players
    = Threw t ->
  t = InvalidPlayerNameError \/
  exists text, text ∈ names /\ t = DuplicatePlayerNameError text.
Proof.
  revert index players.
  induction names as [|text names IH]; intros index players; simpl; [done|].
  unfold createPlayer, validatePlayerName, checkDuplicatePlayerName.
  destruct (_ || _); simpl.
  { intros [= <-]. by left. }
  destruct (decide _); simpl.
  { intros [= <-]. right. exists text. split; [left|done]. }
  intros [->|(other & Hin & ->)]%IH; [by left|].
  right. exists other. split; [by right|done].
Qed.

(** X17: [createPlayers] accepts a list of names exactly when no name is
    blank and no two names are equal once trimmed and put in lower case; the
    player made of the name at index [i] then has the [i]-th id drawn, the
    trimmed name, the colour of hue [360 i / n], position 0, is not
    finished and has turn order [i].  Otherwise it throws
    [InvalidPlayerNameError] or a [DuplicatePlayerNameError] for one of the
    names. *)
Theorem createPlayers_accepts uuid names :
  (forall players,
     createPlayers trim toLowerCase Number_toString uuid names = Returned players <->
     Forall (nonblank trim) names /\
     NoDup (normalized trim toLowerCase <$> names) /\
     players = imap (new_player trim Number_toString uuid (Z.of_nat (length names)))
                 names) /\
  (forall t,
     createPlayers trim toLowerCase Number_toString uuid names = Threw t ->
     t = InvalidPlayerNameError \/
     exists text, text ∈ names /\ t = DuplicatePlayerNameError text).
Proof.
  split.
  - intros players. unfold createPlayers. rewrite createPlayers_from_spec. simpl.
    split.
    + intros (? & ? & _ & ->). done.
    + intros (? & ? & ->). split_and!; try done. by intros ? _ ?%elem_of_nil.
  - intros t. apply createPlayers_from_Threw.
Qed.
(** The loop of [initializePlayersWithTeams], from any index on. *)
Lemma initializePlayersWithTeams_from_spec uuid count teamColorMap playerData
    index players seenNames result :
  initializePlayersWithTeams_from trim toLowerCase Number_toString uuid count
    teamColorMap index playerData players seenNames = Returned result <->
  Forall (nonblank trim) (data_name <$> playerData) /\
  NoDup (normalized trim toLowerCase <$> (data_name <$> playerData)) /\
  (forall data, data ∈ playerData ->
     normalized trim toLowerCase (data_name data) ∉ seenNames) /\
  result = players
           ++ imap (fun i => new_team_player trim Number_toString uuid count
                               teamColorMap (index + i)) playerData.
Proof.
  revert index players seenNames result.
  induction playerData as [|data playerData IH];
    intros index players seenNames result; simpl.
  { rewrite app_nil_r. split.
    - intros [= ->]. split_and!; try done; [constructor|by intros ? ?%elem_of_nil].
    - by intros (_ & _ & _ & ->). }
  destruct (decide (trim (data_name data) = EmptyString)) as [Hblank|Hname].
  { rewrite bool_decide_eq_true_2 by done. split; [done|].
    intros (Hall & _). by apply Forall_cons in Hall as [? _]. }
  rewrite bool_decide_eq_false_2 by done.
  destruct (decide (_ ∈ seenNames)) as [Hseen|Hfresh].
  { split; [done|]. intros (_ & _ & Hout & _). destruct (Hout data); [left|done]. }
  rewrite IH. rewrite Forall_cons, NoDup_cons, <- app_assoc. simpl.
  replace (index + 0)%nat with index by lia.
  assert (imap (fun i => new_team_player trim Number_toString uuid count
                           teamColorMap (S (index + i))) playerData
          = imap ((fun i => new_team_player trim Number_toString uuid count
                              teamColorMap (index + i)) ∘ S) playerData) as ->.
  { apply imap_ext. intros i x _. simpl. f_equal. lia. }
  split.
  - intros (Hall & Hnd & Hout & ->). split_and!; try done.
    + intros (other & Hsame & (d & -> & Hin)%list_elem_of_fmap)%list_elem_of_fmap.
      apply (Hout d Hin). apply elem_of_union. left.
      apply elem_of_singleton. by symmetry.
    + intros other [->|Hin]%elem_of_cons; [done|].
      intros Hin'. apply (Hout other Hin). apply elem_of_union. by right.
  - intros ([_ Hall] & [Hnew Hnd] & Hout & ->). split_and!; try done.
    intros other Hin [Hin'|Hin']%elem_of_union.
    + apply elem_of_singleton in Hin'. destruct Hnew.
      apply list_elem_of_fmap. exists (data_name other). split; [done|].
      apply list_elem_of_fmap. by exists other.
    + apply (Hout other); [by right|done].
Qed.

Lemma teamColorMap_of_lookup teams team :
  NoDup (team_id <$> teams) -> team ∈ teams ->
  teamColorMap_of teams !! team_id team = Some (team_color team).
Proof.
  unfold teamColorMap_of. induction teams as [|last teams IH] using rev_ind.
  { by intros _ ?%elem_of_nil. }
  rewrite fmap_app, foldl_app. simpl. intros Hnd Hin.
  apply NoDup_app in Hnd as (Hnd & Hlast & _).
  apply elem_of_app in Hin as [Hin|Hin].
  - rewrite lookup_insert_ne; [by apply IH|].
    intros Hsame. apply (Hlast (team_id team)).
    + apply list_elem_of_fmap. by exists team.
    + rewrite <- Hsame. simpl. left.
  - apply list_elem_of_singleton in Hin as ->. by rewrite lookup_insert_eq.
Qed.

(** X18: [initializePlayersWithTeams] accepts exactly what
    [initializePlayers] accepts for the same names: a count of at least 2
    that is the number of entries, no blank name, and no two names equal
    once trimmed and put in lower case.  The player of the entry at index
    [i] has the [i]-th id drawn, the trimmed name, the team id of the entry,
    position 0, is not finished and has turn order [i]; when the teams have
    distinct ids its colour is the colour of its team, if that is not
    empty. *)
Theorem initializePlayersWithTeams_accepts uuid count playerData teams :
  (forall players,
     initializePlayersWithTeams trim toLowerCase Number_toString uuid count
       playerData teams = Returned players <->
     2 <= count /\ Z.of_nat (length playerData) = count /\
     Forall (nonblank trim) (data_name <$> playerData) /\
     NoDup (normalized trim toLowerCase <$> (data_name <$> playerData)) /\
     players = imap (new_team_player trim Number_toString uuid count
                       (teamColorMap_of teams)) playerData) /\
  ((exists players,
      initializePlayersWithTeams trim toLowerCase Number_toString uuid count
        playerData teams = Returned players) <->
   (exists players,
      initializePlayers trim toLowerCase Number_toString uuid count
        (data_name <$> playerData) = Returned players)) /\
  (forall team index,
     NoDup (team_id <$> teams) -> team ∈ teams ->
     team_color team <> EmptyString ->
     teamColor_of Number_toString (teamColorMap_of teams) (team_id team) index count
     = team_color team).
Proof.
  assert (forall players,
     initializePlayersWithTeams trim toLowerCase Number_toString uuid count
       playerData teams = Returned players <->
     2 <= count /\ Z.of_nat (length playerData) = count /\
     Forall (nonblank trim) (data_name <$> playerData) /\
     NoDup (normalized trim toLowerCase <$> (data_name <$> playerData)) /\
     players = imap (new_team_player trim Number_toString uuid count
                       (teamColorMap_of teams)) playerData) as Hspec.
  { intros players. unfold initializePlayersWithTeams, validatePlayerCount.
    destruct (Z.ltb_spec count 2); simpl.
    { split; [done|]. lia. }
    destruct (Z.eqb_spec (Z.of_nat (length playerData)) count); simpl.
    2:{ split; [done|]. intros (_ & ? & _). done. }
    rewrite initializePlayersWithTeams_from_spec. simpl. split.
    - intros (? & ? & _ & ->). done.
    - intros (_ & _ & ? & ? & ->). split_and!; try done. }
  split_and!.
  - exact Hspec.
  - unfold initializePlayers, validatePlayerCount. rewrite length_fmap.
    split.
    + intros [players (Hc & Hlen & Hall & Hnd & _)%Hspec].
      destruct (Z.ltb_spec count 2); [lia|]. simpl.
      destruct (Z.eqb_spec (Z.of_nat (length playerData)) count); [|done]. simpl.
      eexists. unfold createPlayers. apply createPlayers_from_spec.
      split_and!; [done|done| |reflexivity]. by intros ? _ ?%elem_of_nil.
    + destruct (Z.ltb_spec count 2); simpl; [by intros [? ?]|].
      destruct (Z.eqb_spec (Z.of_nat (length playerData)) count); simpl;
        [|by intros [? ?]].
      unfold createPlayers.
      intros [players (Hall & Hnd & _)%createPlayers_from_spec].
      eexists. apply Hspec. done.
  - intros team index Hnd Hin Hcolor. unfold teamColor_of.
    rewrite (teamColorMap_of_lookup _ _ Hnd Hin).
    by rewrite bool_decide_eq_false_2.
Qed.

Lemma new_players_sorted uuid total names index :
  StronglySorted (fun a b => by_turnOrder a b <= 0)
    (imap (fun i => new_player trim Number_toString uuid total (index + i)) names).
Proof.
  revert index. induction names as [|text names IH]; intros index; simpl.
  { constructor. }
  assert (imap ((fun i => new_player trim Number_toString uuid total (index + i)) ∘ S)
            names
          = imap (fun i => new_player trim Number_toString uuid total (S index + i))
              names) as ->.
  { apply imap_ext. intros i x _. simpl. f_equal. lia. }
  constructor; [apply IH|].
  apply Forall_lookup. intros i p Hp.
  rewrite list_lookup_imap in Hp.
  destruct (names !! i); simpl in Hp; [|done]. injection Hp as <-.
  unfold by_turnOrder. simpl. lia.
Qed.

(** X19: the players [initializePlayers] returns start a game:
    [initializeGame] accepts them, the first of them is the roller
    ([getCurrentRoller]), everybody stands on position 0 and has not
    finished, the turn orders are 0, 1, ... in list order, so that the dice
    pass in the order the names were given, and the game has not ended;
    ids drawn distinct are distinct ids of players. *)
Theorem initializePlayers_starts_game now gameUuid uuid count names hazards
    gameTeams wins kind created svc :
  initializePlayers trim toLowerCase Number_toString uuid count names
    = Returned created ->
  exists state first,
    initializeGame now gameUuid created hazards gameTeams wins kind svc
      = Ok (Some state) /\
    players state = created /\
    created !! 0%nat = Some first /\
    getCurrentRoller (Some state) = Some first /\
    rotation state = created /\
    turnOrder <$> created = seqZ 0 count /\
    Forall (fun p => position p = 0 /\ isFinished p = false) created /\
    checkGameEnd (Some state) = false /\
    ((forall i j, uuid i = uuid j -> i = j) -> NoDup (id <$> created)).
Proof.
  unfold initializePlayers, validatePlayerCount.
  destruct (Z.ltb_spec count 2) as [|Hcount]; simpl; [done|].
  destruct (Z.eqb_spec (Z.of_nat (length names)) count) as [Hlen|]; simpl; [|done].
  unfold createPlayers. intros (_ & _ & _ & ->)%createPlayers_from_spec. simpl.
  set (created := imap _ names).
  assert (length created = length names) as Hlength by apply length_imap.
  assert (forall i p, created !! i = Some p ->
            exists text, p = new_player trim Number_toString uuid
                               (Z.of_nat (length names)) i text) as Hlookup.
  { intros i p Hp. unfold created in Hp. rewrite list_lookup_imap in Hp.
    destruct (names !! i) as [text|]; simpl in Hp; [|done].
    injection Hp as <-. by exists text. }
  assert (Forall (fun p => position p = 0 /\ isFinished p = false) created) as Hfresh.
  { apply Forall_lookup. intros i p (text & ->)%Hlookup. done. }
  destruct created as [|first rest] eqn:Hcreated; [simpl in Hlength; lia|].
  exists (mkGameState gameUuid (first :: rest) gameTeams hazards kind (id first)
            None None {| maxPoints := 12; pendingMaxPoints := PendingNull |}
            1 0 false false None
            (Array_sort (fun a b => a - b)
               (if includes 16 wins then wins else 16 :: wins)) now now), first.
  split_and!.
  - unfold initializeGame, createInitialGameState, validatePlayerCount.
    destruct (Z.ltb_spec (Z.of_nat (length (first :: rest))) 2); [lia|]. done.
  - done.
  - done.
  - simpl. unfold Array_find. simpl. by rewrite decide_True.
  - unfold rotation. cbn [players].
    assert (filter active (first :: rest) = first :: rest) as ->.
    { clear -Hfresh. induction Hfresh as [|p l [_ Hp] _ IH]; [done|].
      rewrite filter_cons_True by done. by rewrite IH. }
    apply Array_sort_id. rewrite <- Hcreated. unfold created.
    apply (new_players_sorted uuid _ names 0).
  - rewrite <- Hcreated, <- Hlen. unfold created.
    apply list_eq. intros i. rewrite list_lookup_fmap, list_lookup_imap.
    destruct (names !! i) as [text|] eqn:Hi; simpl.
    + apply lookup_lt_Some in Hi. symmetry. apply lookup_seqZ. lia.
    + apply lookup_ge_None in Hi. symmetry. apply lookup_seqZ_ge. lia.
  - done.
  - simpl. destruct (Z.eqb_spec (Z.of_nat (S (length rest))) 0); [done|].
    apply Forall_cons in Hfresh as [[_ ->] _]. done.
  - intros Hinj. rewrite <- Hcreated. apply NoDup_alt. intros i j x Hi Hj.
    rewrite list_lookup_fmap in Hi, Hj.
    destruct (created !! i) as [p|] eqn:Hp; [|done].
    destruct (created !! j) as [q|] eqn:Hq; [|done].
    destruct (Hlookup i p) as [? ->]; [by rewrite Hcreated in Hp|].
    destruct (Hlookup j q) as [? ->]; [by rewrite Hcreated in Hq|].
    simpl in Hi, Hj. apply Hinj. congruence.
Qed.

End PlayerFacts.

Lemma createPlayers_accepts_witness :
  createPlayers (fun s => s) (fun s => s) (fun _ => "0") numbered ["Ann"; "Ben"]
  = Returned [mkPlayer "hazard-0" "Ann" "hsl(0, 70%, 50%)" None None 0 false None 0;
              mkPlayer "hazard-1" "Ben" "hsl(0, 70%, 50%)" None None 0 false None 1].
Proof.
  apply (proj1 (createPlayers_accepts (fun s => s) (fun s => s) (fun _ => "0")
                  (fun s => eq_refl) eq_refl numbered ["Ann"; "Ben"])).
  split_and!.
  - unfold nonblank. by repeat constructor.
  - apply (bool_decide_unpack _). vm_compute. exact I.
  - reflexivity.
Defined.

Lemma initializePlayersWithTeams_accepts_witness :
  initializePlayersWithTeams (fun s => s) (fun s => s) (fun _ => "0") numbered 2
    [mkPlayerData "Ann" "t-1"; mkPlayerData "Ben" "t-2"]
    [mkTeam "t-1" "Team 1" "#C41E3A"; mkTeam "t-2" "Team 2" "#1D3557"]
  = Returned
      [mkPlayer "hazard-0" "Ann" "#C41E3A" (Some "t-1") (Some "#C41E3A")
         0 false None 0;
       mkPlayer "hazard-1" "Ben" "#1D3557" (Some "t-2") (Some "#1D3557")
         0 false None 1].
Proof.
  apply (proj1 (initializePlayersWithTeams_accepts (fun s => s) (fun s => s)
                  (fun _ => "0") (fun s => eq_refl) eq_refl numbered 2
                  [mkPlayerData "Ann" "t-1"; mkPlayerData "Ben" "t-2"]
                  [mkTeam "t-1" "Team 1" "#C41E3A";
                   mkTeam "t-2" "Team 2" "#1D3557"])).
  split_and!.
  - lia.
  - reflexivity.
  - unfold nonblank. by repeat constructor.
  - apply (bool_decide_unpack _). vm_compute. exact I.
  - reflexivity.
Defined.

Lemma initializePlayers_starts_game_witness :
  exists state first,
    initializeGame t0 "g-1"
      [mkPlayer "hazard-0" "Ann" "hsl(0, 70%, 50%)" None None 0 false None 0;
       mkPlayer "hazard-1" "Ben" "hsl(0, 70%, 50%)" None None 0 false None 1]
      [] [] [16] random None = Ok (Some state) /\
    getCurrentRoller (Some state) = Some first /\
    id first = "hazard-0".
Proof.
  destruct (initializePlayers_starts_game (fun s => s) (fun s => s) (fun _ => "0")
              (fun s => eq_refl) eq_refl t0 "g-1" numbered 2 ["Ann"; "Ben"]
              [] [] [16] random
              [mkPlayer "hazard-0" "Ann" "hsl(0, 70%, 50%)" None None 0 false None 0;
               mkPlayer "hazard-1" "Ben" "hsl(0, 70%, 50%)" None None 0 false None 1]
              None eq_refl)
    as (state & first & Hinit & _ & Hfirst & Hroller & _).
  exists state, first. split_and!; [done|done|].
  by injection Hfirst as <-.
Defined.

(** ** The leaderboard *)

(** Sorting with a comparator that orders the elements it is given: the
    result is ordered. *)
Lemma sort_insert_sorted_by {A} (compare : A -> A -> Z) (P : A -> Prop) x l :
  (forall a b, P a -> P b -> 0 < compare a b -> compare b a <= 0) ->
  (forall a b c, P a -> P b -> P c ->
     compare a b <= 0 -> compare b c <= 0 -> compare a c <= 0) ->
  P x -> Forall P l ->
  StronglySorted (fun a b => compare a b <= 0) l ->
  StronglySorted (fun a b => compare a b <= 0) (sort_insert compare x l).
Proof.
  intros Hsym Htrans Hx Hl Hs.
  induction Hs as [|y l Hs IH Hy]; simpl.
  { repeat constructor. }
  apply Forall_cons in Hl as [HPy Hl].
  destruct (Z.ltb_spec 0 (compare x y)) as [Hgt|Hle].
  - constructor; [by apply IH|].
    rewrite sort_insert_Permutation. constructor; [by apply Hsym|done].
  - constructor; [by constructor|]. constructor; [done|].
    rewrite Forall_forall in Hy, Hl. apply Forall_forall. intros z Hz.
    apply (Htrans x y z); auto.
Qed.

Lemma Array_sort_sorted_by {A} (compare : A -> A -> Z) (P : A -> Prop) l :
  (forall a b, P a -> P b -> 0 < compare a b -> compare b a <= 0) ->
  (forall a b c, P a -> P b -> P c ->
     compare a b <= 0 -> compare b c <= 0 -> compare a c <= 0) ->
  Forall P l ->
  StronglySorted (fun a b => compare a b <= 0) (Array_sort compare l).
Proof.
  intros Hsym Htrans Hl. induction Hl as [|x l Hx Hl IH]; simpl; [constructor|].
  apply (sort_insert_sorted_by compare P); try done.
  by rewrite Array_sort_Permutation.
Qed.

Module LeaderboardFacts.
Import Leaderboard.

Lemma compare_entries_ranks a b :
  timed a -> timed b -> (compare_entries a b <= 0 <-> ranks_before a b).
Proof.
  unfold timed, compare_entries, ranks_before, time_of, getTime.
  intros Ha Hb.
  destruct (isFinished a), (isFinished b); simpl; try (split; done || lia).
  destruct (finishTime a) as [[ta|]|], (finishTime b) as [[tb|]|]; try done.
  all: split; [intros ?; do 2 eexists; split_and!; done || lia
              |intros (? & ? & [= <-] & [= <-] & ?); lia].
Qed.

Lemma compare_entries_sym a b :
  timed a -> timed b -> 0 < compare_entries a b -> compare_entries b a <= 0.
Proof.
  unfold timed, compare_entries, time_of, getTime. intros Ha Hb.
  destruct (isFinished a), (isFinished b); simpl; try lia.
  destruct (finishTime a) as [[ta|]|], (finishTime b) as [[tb|]|]; try done; lia.
Qed.

Lemma compare_entries_trans a b c :
  timed a -> timed b -> timed c ->
  compare_entries a b <= 0 -> compare_entries b c <= 0 -> compare_entries a c <= 0.
Proof.
  unfold timed, compare_entries, time_of, getTime. intros Ha Hb Hc.
  destruct (isFinished a), (isFinished b), (isFinished c); simpl; try lia.
  destruct (finishTime a) as [[ta|]|], (finishTime b) as [[tb|]|],
    (finishTime c) as [[tc|]|]; try done; lia.
Qed.

(** X20: the leaderboard lists every player once, with ranks 1, 2, ... in
    list order; when no finish time is an invalid date, an entry of smaller
    rank never stands behind one of larger rank: finished players come
    first, in the order of their finish times, and the others follow from
    the highest position down.  Each entry shows the position, name and
    colour of its player, and whether it is the selected target. *)
Theorem calculateLeaderboard_ranks moving selected (roster : list Player) :
  let board := calculateLeaderboard moving selected roster in
  rank <$> board = seqZ 1 (Z.of_nat (length roster)) /\
  playerId <$> board ≡ₚ id <$> roster /\
  (Forall (fun p => Player_finishTime p <> Some InvalidDate) roster ->
   forall a b, a ∈ board -> b ∈ board -> rank a < rank b -> ranks_before a b) /\
  (forall a, a ∈ board ->
     exists p, p ∈ roster /\
       a = with_rank (entry_of moving selected p) (rank a)).
Proof.
  unfold calculateLeaderboard. cbv zeta.
  set (entries := entry_of moving selected <$> roster).
  set (sorted := Array_sort compare_entries entries).
  assert (sorted ≡ₚ entries) as Hperm by apply Array_sort_Permutation.
  assert (length sorted = length roster) as Hlen.
  { unfold sorted, entries. by rewrite Array_sort_length, length_fmap. }
  assert (forall a, a ∈ imap (fun index entry => with_rank entry (Z.of_nat index + 1))
                           sorted ->
            exists i e, sorted !! i = Some e /\ a = with_rank e (Z.of_nat i + 1))
    as Hboard.
  { intros a [i Hi]%list_elem_of_lookup. rewrite list_lookup_imap in Hi.
    destruct (sorted !! i) as [e|] eqn:He; simpl in Hi; [|done].
    injection Hi as <-. by exists i, e. }
  split_and!.
  - apply list_eq. intros i. rewrite list_lookup_fmap, list_lookup_imap.
    destruct (sorted !! i) as [e|] eqn:He; simpl.
    + apply lookup_lt_Some in He. symmetry. rewrite lookup_seqZ. split; lia.
    + apply lookup_ge_None in He. symmetry. apply lookup_seqZ_ge. lia.
  - assert (playerId <$> imap (fun index entry =>
                                 with_rank entry (Z.of_nat index + 1)) sorted
            = playerId <$> sorted) as ->.
    { apply list_eq. intros i. rewrite !list_lookup_fmap, list_lookup_imap.
      by destruct (sorted !! i). }
    rewrite Hperm. unfold entries. by rewrite <- list_fmap_compose.
  - intros Htimed.
    assert (Forall timed entries) as Hentries.
    { unfold entries. apply Forall_fmap. eapply Forall_impl; [exact Htimed|]. done. }
    assert (StronglySorted (fun a b => compare_entries a b <= 0) sorted) as Hsorted.
    { apply (Array_sort_sorted_by compare_entries timed); [| |done].
      - apply compare_entries_sym.
      - apply compare_entries_trans. }
    intros a b (i & ea & Hi & ->)%Hboard (j & eb & Hj & ->)%Hboard. simpl.
    intros Hlt.
    assert (timed ea /\ timed eb) as [Ha Hb].
    { rewrite <- Hperm in Hentries. rewrite Forall_forall in Hentries.
      split; apply Hentries; by eapply list_elem_of_lookup_2. }
    assert (ranks_before ea eb) as Hrank.
    { apply compare_entries_ranks; [done|done|].
      apply (sorted_lookup_le (fun a b => compare_entries a b <= 0)
               sorted i j ea eb Hsorted Hi Hj). lia. }
    exact Hrank.
  - intros a (i & e & Hi & ->)%Hboard. simpl.
    assert (e ∈ entries) as (p & -> & Hp)%list_elem_of_fmap.
    { rewrite <- Hperm. by eapply list_elem_of_lookup_2. }
    exists p. done.
Qed.

Lemma calculateLeaderboard_ranks_witness :
  playerId <$> calculateLeaderboard (Some "p-c") (Some "p-c")
                 [with_position alice 10;
                  with_finished (with_position bob 100) t1;
                  with_position carol 20]
  = ["p-b"; "p-c"; "p-a"] /\
  rank <$> calculateLeaderboard (Some "p-c") (Some "p-c")
             [with_position alice 10;
              with_finished (with_position bob 100) t1;
              with_position carol 20]
  = seqZ 1 (Z.of_nat 3) /\
  forall a b,
    a ∈ calculateLeaderboard (Some "p-c") (Some "p-c")
          [with_position alice 10;
           with_finished (with_position bob 100) t1;
           with_position carol 20] ->
    b ∈ calculateLeaderboard (Some "p-c") (Some "p-c")
          [with_position alice 10;
           with_finished (with_position bob 100) t1;
           with_position carol 20] ->
    rank a < rank b -> ranks_before a b.
Proof.
  split; [reflexivity|].
  pose proof (calculateLeaderboard_ranks (Some "p-c") (Some "p-c")
                [with_position alice 10;
                 with_finished (with_position bob 100) t1;
                 with_position carol 20]) as (Hranks & _ & Horder & _).
  split; [exact Hranks|].
  apply Horder. repeat constructor; done.
Defined.
End LeaderboardFacts.

(** ** The winning positions of the set-up form *)

Lemma sort_insert_last {A} (compare : A -> A -> Z) x l :
  Forall (fun y => 0 < compare x y) l -> sort_insert compare x l = l ++ [x].
Proof.
  induction 1 as [|y l Hy _ IH]; simpl; [done|].
  destruct (Z.ltb_spec 0 (compare x y)); [|lia]. by rewrite IH.
Qed.

Lemma ascending_NoDup l : StronglySorted Z.lt l -> NoDup l.
Proof.
  induction 1 as [|x l _ IH Hx]; constructor; [|done].
  intros Hin. rewrite Forall_forall in Hx. specialize (Hx x Hin). lia.
Qed.

Lemma ascending_strictly l :
  StronglySorted Z.le l -> NoDup l -> StronglySorted Z.lt l.
Proof.
  induction 1 as [|x l _ IH Hx]; intros Hnd; [constructor|].
  apply NoDup_cons in Hnd as [Hout Hnd]. constructor; [by apply IH|].
  rewrite Forall_forall in Hx. apply Forall_forall. intros y Hy.
  specialize (Hx y Hy). assert (x <> y) by (by intros ->). lia.
Qed.

Lemma Forall_filter_kept {A} (P Q : A -> Prop) `{!forall x, Decision (P x)} l :
  Forall Q l -> Forall Q (filter P l).
Proof.
  rewrite !Forall_forall. intros Hl x [_ Hx]%list_elem_of_filter. by apply Hl.
Qed.

Lemma ascending_filter (P : Z -> Prop) `{!forall x, Decision (P x)} l :
  StronglySorted Z.lt l -> StronglySorted Z.lt (filter P l).
Proof.
  induction 1 as [|x l _ IH Hx]; [constructor|].
  destruct (decide (P x)).
  - rewrite filter_cons_True by done. constructor; [done|].
    by apply Forall_filter_kept.
  - by rewrite filter_cons_False.
Qed.

(** Sorting numbers without repetition gives them in strictly ascending
    order. *)
Lemma Array_sort_ascending l :
  NoDup l -> StronglySorted Z.lt (Array_sort (fun a b => a - b) l).
Proof.
  intros Hnd. apply ascending_strictly.
  - pose proof (Array_sort_sorted (fun a b => a - b) (fun a => a) l
                  (fun a b => eq_refl)) as Hs.
    induction Hs as [|x k _ IH Hx]; constructor; done.
  - by rewrite Array_sort_Permutation.
Qed.

Lemma Array_sort_ascending_id l :
  StronglySorted Z.lt l -> Array_sort (fun a b => a - b) l = l.
Proof.
  intros Hs. apply Array_sort_id.
  induction Hs as [|x l _ IH Hx]; constructor; [done|].
  eapply Forall_impl; [exact Hx|]. simpl. intros. lia.
Qed.

Module PlayerSetupFacts.
Import PlayerSetup.

Lemma addWinningPosition_cases form :
  (isValidWinningPosition form = false /\
   additionalWinningPositions (addWinningPosition form)
     = additionalWinningPositions form /\
   playerCount (addWinningPosition form) = playerCount form /\
   is_Some (winningPositionError (addWinningPosition form))) \/
  (exists pos,
     isValidWinningPosition form = true /\
     1 <= pos <= playerCount form /\
     (16 <= playerCount form -> pos <> 16) /\
     (pos ∉ additionalWinningPositions form) /\
     addWinningPosition form
       = mkForm (playerCount form)
           (Array_sort (fun a b => a - b) (additionalWinningPositions form ++ [pos]))
           None None).
Proof.
  unfold isValidWinningPosition, addWinningPosition. cbn [newWinningPosition
    playerCount additionalWinningPositions].
  destruct (newWinningPosition form) as [n|]; [|left; by eauto].
  destruct (Number_isInteger n); simpl; [|left; by eauto].
  destruct (Z.ltb_spec (integer_of n) 1); simpl; [left; by eauto|].
  destruct (Z.ltb_spec (playerCount form) (integer_of n)); simpl; [left; by eauto|].
  destruct (Z.eqb_spec (integer_of n) 16) as [E|];
    destruct (Z.leb_spec 16 (playerCount form)); simpl; try (left; by eauto).
  all: destruct (includes (integer_of n) (additionalWinningPositions form)) eqn:Hin;
    [left; by eauto|].
  all: right; exists (integer_of n); split_and!; try done; try lia.
  all: intros Hin'%includes_spec; congruence.
Qed.

Lemma act_tidy action form :
  tidy form -> playerCount (act action form) = playerCount form /\ tidy (act action form).
Proof.
  intros [Hsorted Hrange]. destruct action as [v| |pos]; simpl.
  - done.
  - destruct (addWinningPosition_cases form)
      as [(_ & Hsame & Hcount & _)|(pos & _ & Hpos & H16 & Hnew & ->)].
    + split; [done|]. unfold tidy. by rewrite Hsame, Hcount.
    + split; [done|]. unfold tidy. simpl. split.
      * apply Array_sort_ascending. apply NoDup_app. split_and!.
        -- by apply ascending_NoDup.
        -- intros x Hx ->%list_elem_of_singleton. done.
        -- apply NoDup_singleton.
      * rewrite Array_sort_Permutation. apply Forall_app. split; [done|].
        by apply Forall_singleton.
  - split; [done|]. unfold tidy. simpl. split.
    + by apply ascending_filter.
    + by apply Forall_filter_kept.
Qed.

Lemma allWinningPositions_tidy form :
  tidy form ->
  StronglySorted Z.lt (allWinningPositions form) /\
  (16 ∈ allWinningPositions form <-> 16 <= playerCount form) /\
  Forall (fun p => playerCount form < 16 -> p < 16) (allWinningPositions form).
Proof.
  intros [Hsorted Hrange]. unfold allWinningPositions. cbv zeta.
  rewrite Forall_forall in Hrange.
  destruct (Z.leb_spec 16 (playerCount form)) as [H16|H16].
  - split_and!.
    + apply Array_sort_ascending. constructor; [|by apply ascending_NoDup].
      intros Hin. by destruct (Hrange 16 Hin) as [_ []].
    + rewrite Array_sort_Permutation. split; [done|]. intros _. left.
    + apply Forall_forall. intros ? _ ?. lia.
  - split_and!.
    + apply Array_sort_ascending. by apply ascending_NoDup.
    + rewrite Array_sort_Permutation. split; [|lia].
      intros Hin. destruct (Hrange 16 Hin). lia.
    + rewrite Array_sort_Permutation. apply Forall_forall.
      intros p Hp _. destruct (Hrange p Hp). lia.
Qed.

(** X21: the set-up form keeps its additional winning positions in
    strictly ascending order, within the ranks 1 to [playerCount] and
    without 16 when 16 is the default: whatever is typed, added and removed,
    for a fixed [playerCount].  [allWinningPositions] is then strictly
    ascending as well, and contains 16 exactly when there are at least 16
    players; handed to [createInitialGameState] it gives a game whose
    winning positions have no duplicate: the list itself with at least 16
    players, and the list followed by 16, a rank nobody can reach,
    otherwise. *)
Theorem winning_positions_of_the_form actions form :
  tidy form ->
  let form' := foldl (fun f action => act action f) form actions in
  playerCount form' = playerCount form /\
  tidy form' /\
  StronglySorted Z.lt (allWinningPositions form') /\
  (16 ∈ allWinningPositions form' <-> 16 <= playerCount form) /\
  forall now uuid first second others hazards gameTeams kind,
    exists state,
      createInitialGameState now uuid (first :: second :: others) hazards
        gameTeams (allWinningPositions form') kind = Ok state /\
      NoDup (GameState_winningPositions state) /\
      GameState_winningPositions state
        = if 16 <=? playerCount form then allWinningPositions form'
          else allWinningPositions form' ++ [16].
Proof.
  intros Htidy. cbv zeta.
  assert (playerCount (foldl (fun f action => act action f) form actions)
            = playerCount form /\
          tidy (foldl (fun f action => act action f) form actions)) as [Hcount Htidy'].
  { revert form Htidy. induction actions as [|action actions IH]; intros form Htidy.
    - done.
    - simpl. destruct (act_tidy action form Htidy) as [Hc Ht].
      destruct (IH _ Ht) as [Hc' Ht']. split; [congruence|done]. }
  set (form' := foldl _ form actions) in *.
  destruct (allWinningPositions_tidy form' Htidy') as (Hsorted & H16 & Hbelow).
  rewrite Hcount in H16. split_and!; try done.
  intros now uuid first second others hazards gameTeams kind.
  unfold createInitialGameState, validatePlayerCount.
  destruct (Z.ltb_spec (Z.of_nat (length (first :: second :: others))) 2) as [Hlen|_].
  { simpl in Hlen. lia. }
  cbn [mbind Result_bind]. eexists. split; [reflexivity|].
  unfold GameState_winningPositions. cbn [winningPositions].
  destruct (Z.leb_spec 16 (playerCount form)) as [Hmany|Hfew].
  - assert (includes 16 (allWinningPositions form') = true) as ->.
    { apply includes_spec, H16. done. }
    rewrite Array_sort_ascending_id by done.
    split; [by apply ascending_NoDup|done].
  - assert (includes 16 (allWinningPositions form') = false) as ->.
    { destruct (includes 16 _) eqn:E; [|done].
      apply includes_spec, H16 in E. lia. }
    simpl. rewrite Array_sort_ascending_id by done.
    rewrite sort_insert_last.
    2:{ eapply Forall_impl; [exact Hbelow|]. simpl. intros p Hp.
        rewrite Hcount in Hp. specialize (Hp Hfew). lia. }
    split; [|done].
    apply NoDup_app. split_and!; [by apply ascending_NoDup| |apply NoDup_singleton].
    intros x Hx ->%list_elem_of_singleton. apply H16 in Hx. lia.
Qed.

Lemma winning_positions_of_the_form_witness :
  allWinningPositions
    (foldl (fun f action => act action f) (mkForm 20 [] None None)
       [Type_position (Some (number_of_Z 7)); Add;
        Type_position (Some (number_of_Z 16)); Add;
        Type_position (Some (number_of_Z 3)); Add;
        Type_position (Some (number_of_Z 7)); Add;
        Remove 3; Type_position (Some (number_of_Z 20)); Add])
  = [7; 16; 20] /\
  tidy (foldl (fun f action => act action f) (mkForm 20 [] None None)
          [Type_position (Some (number_of_Z 7)); Add;
           Type_position (Some (number_of_Z 16)); Add;
           Type_position (Some (number_of_Z 3)); Add;
           Type_position (Some (number_of_Z 7)); Add;
           Remove 3; Type_position (Some (number_of_Z 20)); Add]).
Proof.
  split; [reflexivity|].
  apply (winning_positions_of_the_form _ (mkForm 20 [] None None)).
  split; simpl; constructor.
Defined.

(** *** Team colours *)

Lemma NoDup_insert_fresh {A} (l : list A) i x :
  NoDup l ->
  (forall j y, l !! j = Some y -> j <> i -> y <> x) ->
  NoDup (<[i := x]> l).
Proof.
  intros Hnd Hfresh. apply NoDup_alt. intros j k y Hj Hk.
  destruct (decide (j = i)) as [->|Hji], (decide (k = i)) as [->|Hki]; try done.
  - rewrite list_lookup_insert_ne in Hk by done.
    apply list_lookup_insert_Some in Hj as [(_ & <- & _)|[? _]]; [|done].
    by destruct (Hfresh k x Hk).
  - rewrite list_lookup_insert_ne in Hj by done.
    apply list_lookup_insert_Some in Hk as [(_ & <- & _)|[? _]]; [|done].
    by destruct (Hfresh j x Hj).
  - rewrite list_lookup_insert_ne in Hj, Hk by done.
    by eapply NoDup_lookup.
Qed.

Lemma selectTeamColor_step teamId colorValue teams :
  NoDup (team_id <$> teams) ->
  NoDup (team_color <$> teams) ->
  team_id <$> selectTeamColor teamId colorValue teams = team_id <$> teams /\
  team_name <$> selectTeamColor teamId colorValue teams = team_name <$> teams /\
  NoDup (team_color <$> selectTeamColor teamId colorValue teams) /\
  (forall team, team ∈ teams -> team_id team = teamId ->
     isColorUsed teams colorValue teamId = false ->
     mkTeam teamId (team_name team) colorValue
       ∈ selectTeamColor teamId colorValue teams) /\
  (isColorUsed teams colorValue teamId = true ->
     selectTeamColor teamId colorValue teams = teams).
Proof.
  intros Hids Hcolors. unfold selectTeamColor.
  destruct (isColorUsed teams colorValue teamId) eqn:Hused.
  { split_and!; try done. }
  unfold isColorUsed in Hused. apply bool_decide_eq_false in Hused.
  unfold Array_findIndex.
  destruct (list_find (is_team teamId) teams) as [[i team]|] eqn:Hfind; simpl.
  2:{ split_and!; try done. intros team Hin Hid.
      apply list_find_None in Hfind. rewrite Forall_forall in Hfind.
      by destruct (Hfind team Hin). }
  apply list_find_Some in Hfind as (Hi & Hteam & _). unfold is_team in Hteam.
  destruct (Z.eqb_spec (Z.of_nat i) (-1)); [lia|]. simpl.
  rewrite Nat2Z.id, Hi. split_and!.
  - rewrite list_fmap_insert. simpl. apply list_insert_id.
    by rewrite list_lookup_fmap, Hi.
  - rewrite list_fmap_insert. simpl. apply list_insert_id.
    by rewrite list_lookup_fmap, Hi.
  - rewrite list_fmap_insert. simpl. apply NoDup_insert_fresh; [done|].
    intros j c Hj Hne Hc. rewrite list_lookup_fmap in Hj.
    destruct (teams !! j) as [other|] eqn:Hother; [|done].
    injection Hj as <-. apply Hused, Exists_exists. exists other.
    split; [by eapply list_elem_of_lookup_2|]. split; [done|].
    intros Hsame. apply Hne. eapply NoDup_lookup; [exact Hids| |].
    + by rewrite list_lookup_fmap, Hother.
    + rewrite list_lookup_fmap, Hi. simpl. congruence.
  - intros other [j Hj]%list_elem_of_lookup Hid _.
    assert (j = i) as ->.
    { eapply NoDup_lookup; [exact Hids| |].
      - by rewrite list_lookup_fmap, Hj.
      - rewrite list_lookup_fmap, Hi. simpl. congruence. }
    assert (other = team) as -> by congruence.
    apply list_elem_of_lookup. exists i. rewrite Hteam.
    apply list_lookup_insert_eq. by eapply lookup_lt_Some.
  - done.
Qed.

(** X22: selecting team colours in the form never gives two teams the
    same colour: from teams with distinct ids and distinct colours (those
    [createTeams] returns), after any sequence of [selectTeamColor] calls
    the colours are still pairwise distinct and the ids and names are
    untouched; a call changes the colour of the team it names exactly when
    no other team has the colour. *)
Theorem selectTeamColor_keeps_colours_distinct selections teams :
  NoDup (team_id <$> teams) ->
  NoDup (team_color <$> teams) ->
  let teams' := foldl (fun ts s => selectTeamColor s.1 s.2 ts) teams selections in
  team_id <$> teams' = team_id <$> teams /\
  team_name <$> teams' = team_name <$> teams /\
  NoDup (team_color <$> teams') /\
  forall teamId colorValue team,
    team ∈ teams' -> team_id team = teamId ->
    if isColorUsed teams' colorValue teamId
    then selectTeamColor teamId colorValue teams' = teams'
    else mkTeam teamId (team_name team) colorValue
           ∈ selectTeamColor teamId colorValue teams'.
Proof.
  intros Hids Hcolors. cbv zeta.
  assert (team_id <$> foldl (fun ts s => selectTeamColor s.1 s.2 ts) teams selections
            = team_id <$> teams /\
          team_name <$> foldl (fun ts s => selectTeamColor s.1 s.2 ts) teams selections
            = team_name <$> teams /\
          NoDup (team_color <$>
                   foldl (fun ts s => selectTeamColor s.1 s.2 ts) teams selections))
    as (Hi & Hn & Hc).
  { revert teams Hids Hcolors.
    induction selections as [|[teamId colorValue] selections IH];
      intros teams Hids Hcolors; [done|]. simpl.
    destruct (selectTeamColor_step teamId colorValue teams Hids Hcolors)
      as (Hi & Hn & Hc & _).
    destruct (IH (selectTeamColor teamId colorValue teams)) as (Hi' & Hn' & Hc').
    - by rewrite Hi.
    - done.
    - split_and!; [congruence|congruence|done]. }
  split_and!; try done.
  intros teamId colorValue team Hin Hid.
  set (teams' := foldl _ teams selections) in *.
  assert (NoDup (team_id <$> teams')) as Hids' by (by rewrite Hi).
  destruct (selectTeamColor_step teamId colorValue teams' Hids' Hc)
    as (_ & _ & _ & Hset & Hkept).
  destruct (isColorUsed teams' colorValue teamId) eqn:Hused; [by apply Hkept|].
  by apply Hset.
Qed.

Lemma selectTeamColor_keeps_colours_distinct_witness :
  team_color <$>
    foldl (fun ts s => selectTeamColor s.1 s.2 ts)
      [mkTeam "t-1" "Team 1" "#C41E3A"; mkTeam "t-2" "Team 2" "#1D3557"]
      [("t-1", "#1D3557"); ("t-1", "#FFB703"); ("t-2", "#C41E3A")]
  = ["#FFB703"; "#C41E3A"] /\
  NoDup (team_color <$>
           foldl (fun ts s => selectTeamColor s.1 s.2 ts)
             [mkTeam "t-1" "Team 1" "#C41E3A"; mkTeam "t-2" "Team 2" "#1D3557"]
             [("t-1", "#1D3557"); ("t-1", "#FFB703"); ("t-2", "#C41E3A")]).
Proof.
  split; [reflexivity|].
  assert (NoDup (team_id <$> [mkTeam "t-1" "Team 1" "#C41E3A";
                              mkTeam "t-2" "Team 2" "#1D3557"])) as Hids.
  { apply (bool_decide_unpack _). vm_compute. exact I. }
  assert (NoDup (team_color <$> [mkTeam "t-1" "Team 1" "#C41E3A";
                                 mkTeam "t-2" "Team 2" "#1D3557"])) as Hcolors.
  { apply (bool_decide_unpack _). vm_compute. exact I. }
  pose proof (selectTeamColor_keeps_colours_distinct
                [("t-1", "#1D3557"); ("t-1", "#FFB703"); ("t-2", "#C41E3A")]
                _ Hids Hcolors) as (_ & _ & Hdistinct & _).
  exact Hdistinct.
Defined.

(** *** Play orders *)

Lemma size_list_to_set_NoDup (l : list Z) :
  (size (list_to_set l : gset Z) <= length l)%nat /\
  (size (list_to_set l : gset Z) = length l -> NoDup l).
Proof.
  induction l as [|x l [IHle IHeq]]; simpl.
  { split; [done|]. intros _. constructor. }
  destruct (decide (x ∈ l)) as [Hin|Hout].
  - assert ({[x]} ∪ list_to_set l = (list_to_set l : gset Z)) as ->.
    { apply set_eq. intros y. rewrite elem_of_union, elem_of_singleton,
        elem_of_list_to_set. split; [intros [->|]; done|by right]. }
    split; [lia|]. intros Hsize. lia.
  - rewrite size_union.
    2:{ intros y ->%elem_of_singleton Hy%elem_of_list_to_set. done. }
    rewrite size_singleton. split; [lia|].
    intros Hsize. constructor; [done|]. apply IHeq. lia.
Qed.

Lemma hasDuplicateOrders_NoDup playerNames :
  hasDuplicateOrders playerNames = false <-> NoDup (omap order playerNames).
Proof.
  unfold hasDuplicateOrders. cbv zeta.
  destruct (size_list_to_set_NoDup (omap order playerNames)) as [Hle Heq].
  destruct (Z.eqb_spec (Z.of_nat (size (list_to_set (omap order playerNames) : gset Z)))
              (Z.of_nat (length (omap order playerNames)))) as [E|E]; simpl.
  - split; [|done]. intros _. apply Heq. lia.
  - split; [done|]. intros Hnd. destruct E. f_equal. by apply size_list_to_set.
Qed.

Lemma isDuplicateOrder_true index playerNames :
  isDuplicateOrder index playerNames = Ok true <->
  exists p v other q,
    playerNames !! index = Some p /\ order p = Some v /\
    other <> index /\ playerNames !! other = Some q /\ order q = Some v.
Proof.
  unfold isDuplicateOrder.
  destruct (playerNames !! index) as [p|] eqn:Hp.
  2:{ split; [done|]. by intros (? & ? & ? & ? & ? & _). }
  destruct (order p) as [v|] eqn:Hv.
  2:{ split; [done|]. intros (? & ? & ? & ? & [= <-] & ? & _). congruence. }
  split.
  - intros [= Hex]. apply existsb_exists in Hex as ([other q] & Hin & Htest).
    apply list_elem_of_In, list_elem_of_lookup in Hin as [k Hk].
    rewrite list_lookup_imap in Hk.
    destruct (playerNames !! k) as [q'|] eqn:Hq; simpl in Hk; [|done].
    injection Hk as <- <-. simpl in Htest.
    apply andb_true_iff in Htest as [Hne Hsame].
    apply negb_true_iff, Nat.eqb_neq in Hne. apply bool_decide_eq_true in Hsame.
    by exists p, v, k, q'.
  - intros (p' & v' & other & q & [= <-] & Hv' & Hne & Hq & Hsame).
    assert (v' = v) as -> by congruence. f_equal.
    apply existsb_exists. exists (other, q). split.
    + apply list_elem_of_In, list_elem_of_lookup. exists other.
      by rewrite list_lookup_imap, Hq.
    + simpl. apply andb_true_iff. split.
      * by apply negb_true_iff, Nat.eqb_neq.
      * by apply bool_decide_eq_true.
Qed.

Lemma NoDup_orders playerNames :
  NoDup (omap order playerNames) <->
  forall i j p q v,
    playerNames !! i = Some p -> playerNames !! j = Some q ->
    order p = Some v -> order q = Some v -> i = j.
Proof.
  induction playerNames as [|first rest IH]; simpl.
  { split; [by intros _ ? ? ? ? ? ?|]. intros _. constructor. }
  destruct (order first) as [v0|] eqn:Hfirst.
  - rewrite NoDup_cons, IH, list_elem_of_omap. split.
    + intros [Hout Hrest] [|i] [|j] p q v Hp Hq Hv Hv'; simpl in *.
      * done.
      * injection Hp as <-. destruct Hout. exists q.
        split; [by eapply list_elem_of_lookup_2|congruence].
      * injection Hq as <-. destruct Hout. exists p.
        split; [by eapply list_elem_of_lookup_2|congruence].
      * f_equal. by eapply Hrest.
    + intros Hall. split.
      * intros (q & [j Hj]%list_elem_of_lookup & Hq).
        by specialize (Hall 0%nat (S j) first q v0 eq_refl Hj Hfirst Hq).
      * intros i j p q v Hp Hq Hv Hv'.
        by injection (Hall (S i) (S j) p q v Hp Hq Hv Hv').
  - rewrite IH. split.
    + intros Hrest [|i] [|j] p q v Hp Hq Hv Hv'; simpl in *.
      * done.
      * injection Hp as <-. congruence.
      * injection Hq as <-. congruence.
      * f_equal. by eapply Hrest.
    + intros Hall i j p q v Hp Hq Hv Hv'.
      by injection (Hall (S i) (S j) p q v Hp Hq Hv Hv').
Qed.

(** Sorting by order does not move the rows without an order past each
    other. *)
Lemma sort_insert_unordered x (l : list PlayerNameInput) :
  filter unordered (sort_insert by_order x l) = filter unordered (x :: l).
Proof.
  induction l as [|y l IH]; simpl; [done|].
  destruct (Z.ltb_spec 0 (by_order x y)) as [Hgt|Hle]; [|done].
  rewrite filter_cons, IH, !filter_cons.
  destruct (decide (unordered y)) as [Hy|Hy], (decide (unordered x)) as [Hx|Hx];
    try done.
  unfold unordered in Hx, Hy. unfold by_order in Hgt. rewrite Hx, Hy in Hgt. lia.
Qed.

Lemma Array_sort_unordered (l : list PlayerNameInput) :
  filter unordered (Array_sort by_order l) = filter unordered l.
Proof.
  induction l as [|x l IH]; simpl; [done|].
  rewrite sort_insert_unordered, !filter_cons, IH. done.
Qed.

Lemma StronglySorted_filter_kept {A} (R : A -> A -> Prop) (P : A -> Prop)
    `{!forall x, Decision (P x)} l :
  StronglySorted R l -> StronglySorted R (filter P l).
Proof.
  induction 1 as [|x l _ IH Hx]; [constructor|].
  rewrite filter_cons. destruct (decide (P x)); [|done].
  constructor; [done|]. by apply Forall_filter_kept.
Qed.

Lemma ordered_first (l : list PlayerNameInput) :
  StronglySorted (fun a b => by_order a b <= 0) l ->
  l = filter ordered l ++ filter unordered l.
Proof.
  induction 1 as [|x l _ IH Hx]; [done|].
  rewrite !filter_cons.
  destruct (decide (ordered x)) as [[v Hv]|Hno], (decide (unordered x)) as [Hu|Hu].
  - unfold unordered in Hu. congruence.
  - simpl. by rewrite <- IH.
  - assert (Forall unordered l) as Hall.
    { eapply Forall_impl; [exact Hx|]. simpl. intros y Hy.
      unfold by_order in Hy. rewrite Hu in Hy. unfold unordered.
      destruct (order y); [lia|done]. }
    assert (filter ordered l = []) as ->.
    { clear -Hall. induction Hall as [|y l Hy _ IH]; [done|].
      rewrite filter_cons_False; [done|]. intros [? ?]. unfold unordered in Hy.
      congruence. }
    simpl. f_equal. clear -Hall. induction Hall as [|y l Hy _ IH]; [done|].
    rewrite filter_cons_True by done. by rewrite <- IH.
  - destruct Hno. unfold unordered in Hu. destruct (order x) eqn:E; [|done].
    unfold ordered. rewrite E. by eexists.
Qed.

Lemma omap_order_filter (l : list PlayerNameInput) :
  omap order (filter ordered l) = omap order l.
Proof.
  induction l as [|x l IH]; [done|]. rewrite filter_cons.
  destruct (decide (ordered x)) as [[v Hv]|Hno]; simpl.
  - rewrite Hv. f_equal. exact IH.
  - destruct (order x) eqn:E; [|exact IH]. destruct Hno. unfold ordered.
    rewrite E. by eexists.
Qed.

Lemma ordered_strictly (l : list PlayerNameInput) :
  StronglySorted (fun a b => by_order a b <= 0) l ->
  Forall ordered l ->
  StronglySorted plays_before l /\
  (NoDup (omap order l) -> StronglySorted plays_strictly_before l).
Proof.
  induction 1 as [|x l _ IH Hx]; intros Hall.
  { split; [constructor|]. intros _. constructor. }
  apply Forall_cons in Hall as [[v Hv] Hall].
  destruct (IH Hall) as [IHle IHlt].
  assert (Forall (plays_before x) l) as Hle.
  { rewrite Forall_forall in Hx, Hall. apply Forall_forall. intros y Hy.
    destruct (Hall y Hy) as [w Hw]. specialize (Hx y Hy).
    unfold by_order in Hx. rewrite Hv, Hw in Hx. exists v, w. split_and!; try done.
    lia. }
  split; [by constructor|].
  simpl. rewrite Hv. intros [Hout Hnd]%NoDup_cons.
  constructor; [by apply IHlt|].
  rewrite Forall_forall in Hle. apply Forall_forall. intros y Hy.
  destruct (Hle y Hy) as (a & b & Ha & Hb & Hab).
  exists a, b. split_and!; try done.
  assert (a <> b); [|lia]. intros ->. apply Hout.
  apply list_elem_of_omap. exists y. split; [done|congruence].
Qed.

(** X23: the two checks of the play orders agree, and the sort puts the
    rows in playing order: [hasDuplicateOrders] holds exactly when
    [isDuplicateOrder] holds of some row; [sortPlayersByOrder] returns the
    rows that have an order, by ascending order, followed by the rows that
    have none in the order they had; without duplicates the orders ascend
    strictly. *)
Theorem play_orders playerNames :
  (hasDuplicateOrders playerNames = true <->
   exists index, isDuplicateOrder index playerNames = Ok true) /\
  sortPlayersByOrder playerNames
    = filter ordered (sortPlayersByOrder playerNames)
      ++ filter unordered playerNames /\
  filter ordered (sortPlayersByOrder playerNames) ≡ₚ filter ordered playerNames /\
  StronglySorted plays_before (filter ordered (sortPlayersByOrder playerNames)) /\
  (hasDuplicateOrders playerNames = false ->
   StronglySorted plays_strictly_before
     (filter ordered (sortPlayersByOrder playerNames))).
Proof.
  assert (StronglySorted (fun a b => by_order a b <= 0)
            (sortPlayersByOrder playerNames)) as Hsorted.
  { apply (Array_sort_sorted_by by_order (fun _ => True)).
    - intros a b _ _. unfold by_order. destruct (order a), (order b); lia.
    - intros a b c _ _ _. unfold by_order.
      destruct (order a), (order b), (order c); lia.
    - by apply Forall_forall. }
  assert (Forall ordered (filter ordered (sortPlayersByOrder playerNames))) as Hall.
  { apply Forall_forall. by intros p [? _]%list_elem_of_filter. }
  destruct (ordered_strictly _ (StronglySorted_filter_kept _ ordered _ Hsorted) Hall)
    as [Hle Hlt].
  split_and!.
  - split.
    + intros Hdup.
      destruct (decide (NoDup (omap order playerNames))) as [Hnd|Hnd].
      { apply hasDuplicateOrders_NoDup in Hnd. congruence. }
      assert (exists index, isDuplicateOrder index playerNames = Ok true) as Hsome;
        [|done].
      clear Hdup Hsorted Hall Hle Hlt.
      induction playerNames as [|first rest IH]; simpl in Hnd.
      { destruct Hnd. constructor. }
      destruct (order first) as [v|] eqn:Hfirst.
      * destruct (decide (v ∈ omap order rest)) as [Hin|Hout].
        -- apply list_elem_of_omap in Hin as (q & [j Hj]%list_elem_of_lookup & Hq).
           exists 0%nat. apply isDuplicateOrder_true.
           by exists first, v, (S j), q.
        -- destruct IH as [index Hindex].
           { intros Hrest. apply Hnd. by constructor. }
           apply isDuplicateOrder_true in Hindex
             as (p & w & other & q & Hp & Hw & Hne & Hq & Hsame).
           exists (S index). apply isDuplicateOrder_true.
           exists p, w, (S other), q. split_and!; try done. lia.
      * destruct IH as [index Hindex]; [done|].
        apply isDuplicateOrder_true in Hindex
          as (p & w & other & q & Hp & Hw & Hne & Hq & Hsame).
        exists (S index). apply isDuplicateOrder_true.
        exists p, w, (S other), q. split_and!; try done. lia.
    + intros [index (p & v & other & q & Hp & Hv & Hne & Hq & Hsame)%isDuplicateOrder_true].
      destruct (hasDuplicateOrders playerNames) eqn:Hdup; [done|].
      apply hasDuplicateOrders_NoDup in Hdup.
      destruct Hne. symmetry.
      by apply (proj1 (NoDup_orders playerNames) Hdup index other p q v).
  - rewrite (ordered_first _ Hsorted) at 1. f_equal. apply Array_sort_unordered.
  - unfold sortPlayersByOrder. by rewrite Array_sort_Permutation.
  - done.
  - intros Hnd%hasDuplicateOrders_NoDup. apply Hlt.
    rewrite omap_order_filter. unfold sortPlayersByOrder.
    by rewrite Array_sort_Permutation.
Qed.
End PlayerSetupFacts.

(** ** The size of the generated table, and where hazards end *)

Section GeneratorSize.
Variable rnd : nat -> Q.
Variable uuid : nat -> string.
Variable config : SnakesAndLaddersConfig.

Lemma snake_attempt_places g :
  places uuid snake g (snake_attempt rnd uuid config g).
Proof.
  unfold places, snake_attempt. cbv zeta.
  destruct (decide _) as [|Hhead]; [left; by eauto|].
  match goal with
  | |- context [?tail <? MIN_POSITION] => destruct (Z.ltb_spec tail MIN_POSITION)
  end; [left; by eauto|]. cbn [orb].
  destruct (bool_decide _) eqn:Htail; [left; by eauto|].
  apply bool_decide_eq_false in Htail.
  destruct (createSnake _ _ _ _) as [element|] eqn:E; [|left; by eauto].
  apply createSnake_Ok in E as (-> & _ & _). right. split; [done|].
  do 2 eexists. split_and!; [exact Hhead|exact Htail|done|done|done].
Qed.

Lemma ladder_attempt_places g :
  places uuid ladder g (ladder_attempt rnd uuid config g).
Proof.
  unfold places, ladder_attempt. cbv zeta.
  destruct (decide _) as [|Hbottom]; [left; by eauto|].
  match goal with
  | |- context [MAX_POSITION <? ?top] => destruct (Z.ltb_spec MAX_POSITION top)
  end; [left; by eauto|]. cbn [orb].
  destruct (bool_decide _) eqn:Htop; [left; by eauto|].
  apply bool_decide_eq_false in Htop.
  destruct (createLadder _ _ _ _) as [element|] eqn:E; [|left; by eauto].
  apply createLadder_Ok in E as (-> & _ & _). right. split; [done|].
  do 2 eexists. split_and!; [exact Hbottom|exact Htop|done|done|done].
Qed.

(** One hazard more, placed on fresh squares, keeps the table spread. *)
Lemma generation_spread_placed kind g g' startPosition endPosition :
  generation_spread uuid g ->
  startPosition ∉ usedEndPositions g ->
  endPosition ∉ usedEndPositions g ->
  elements g'
    = elements g ++ [mkSnakeOrLadder (uuid (ids g)) kind startPosition endPosition] ->
  usedEndPositions g' = {[endPosition]} ∪ usedEndPositions g ->
  ids g' = S (ids g) ->
  generation_spread uuid g'.
Proof.
  intros (Hused & Hids & Huuid & Hnd & Hchain) Hstart Hend Helements Hused' Hids'.
  rewrite Hused in Hstart, Hend.
  rewrite elem_of_list_to_set in Hstart, Hend.
  unfold generation_spread, well_spread.
  rewrite Helements, Hused', Hids', Hused, !fmap_app, length_app. simpl.
  split_and!.
  - rewrite list_to_set_app_L. simpl. rewrite union_empty_r_L.
    apply (comm_L (∪)).
  - lia.
  - rewrite Nat.add_1_r, seq_S, fmap_app, Huuid, Hids. done.
  - apply NoDup_app. split_and!; [done| |apply NoDup_singleton].
    intros x Hx ->%list_elem_of_singleton. done.
  - intros i j a b Hlt Ha Hb.
    destruct (decide (j < length (elements g))%nat) as [Hj|Hj].
    + rewrite lookup_app_l in Ha by lia. rewrite lookup_app_l in Hb by lia.
      by apply (Hchain i j).
    + rewrite lookup_app_r in Hb by lia.
      destruct (j - length (elements g))%nat as [|k] eqn:Hk; [|done].
      injection Hb as <-. simpl.
      assert (i < length (elements g))%nat as Hi by lia.
      rewrite lookup_app_l in Ha by done.
      intros ->. apply Hstart. apply list_elem_of_fmap. exists a.
      split; [done|]. by eapply list_elem_of_lookup_2.
Qed.

Lemma attempts_places kind attempt remaining g :
  (forall g, places uuid kind g (attempt g)) ->
  generation_spread uuid g ->
  generation_spread uuid (attempts attempt remaining g) /\
  exists added,
    elements (attempts attempt remaining g) = elements g ++ added /\
    (length added <= 1)%nat /\ Forall (fun e => type e = kind) added.
Proof.
  intros Hattempt. revert g.
  induction remaining as [|n IH]; intros g Hg; simpl.
  { split; [done|]. exists []. rewrite app_nil_r. split_and!; [done|simpl; lia|done]. }
  specialize (Hattempt g).
  destruct (attempt g) as [g' finished]. unfold places in Hattempt. simpl in Hattempt.
  destruct Hattempt
    as [(-> & He & Hu & Hi)|(-> & s & e & Hs & He & Helements & Hused & Hids)].
  - assert (generation_spread uuid g') as Hg'.
    { unfold generation_spread in *. by rewrite He, Hu, Hi. }
    destruct (IH g' Hg') as (Hspread & added & Hadded & Hlen & Hkind).
    split; [done|]. exists added. by rewrite Hadded, He.
  - split; [by apply (generation_spread_placed kind g g' s e)|].
    eexists. split; [exact Helements|]. split; [simpl; lia|].
    by apply Forall_singleton.
Qed.

Lemma times_places kind body n g :
  (forall g, generation_spread uuid g ->
     generation_spread uuid (body g) /\
     exists added,
       elements (body g) = elements g ++ added /\
       (length added <= 1)%nat /\ Forall (fun e => type e = kind) added) ->
  generation_spread uuid g ->
  generation_spread uuid (times n body g) /\
  exists added,
    elements (times n body g) = elements g ++ added /\
    (length added <= n)%nat /\ Forall (fun e => type e = kind) added.
Proof.
  intros Hbody. revert g. induction n as [|n IH]; intros g Hg; simpl.
  { split; [done|]. exists []. rewrite app_nil_r. split_and!; [done|simpl; lia|done]. }
  destruct (Hbody g Hg) as (Hg' & first & Hfirst & Hlen & Hkind).
  destruct (IH _ Hg') as (Hspread & rest & Hrest & Hlen' & Hkind').
  split; [done|]. exists (first ++ rest).
  rewrite Hrest, Hfirst, <- app_assoc, length_app. split_and!; [done|lia|].
  by apply Forall_app.
Qed.

(** X24: the generated table holds the snakes first and then the ladders,
    at most [floor(count / 2)] snakes and [count - floor(count / 2)] ladders
    (none for a count that is not positive), fewer when the attempts of a
    hazard run out; its ids are the ids drawn, in order; no two hazards end
    on the same square, and no hazard starts on a square where an earlier
    hazard ends. *)
Theorem generateSnakesAndLadders_spread :
  exists snakes ladders,
    generateSnakesAndLadders rnd uuid config = snakes ++ ladders /\
    Forall (fun e => type e = snake) snakes /\
    Forall (fun e => type e = ladder) ladders /\
    Z.of_nat (length snakes) <= Z.max 0 (count config / 2) /\
    Z.of_nat (length ladders) <= Z.max 0 (count config - count config / 2) /\
    sl_id <$> generateSnakesAndLadders rnd uuid config
      = uuid <$> seq 0 (length (generateSnakesAndLadders rnd uuid config)) /\
    well_spread (generateSnakesAndLadders rnd uuid config).
Proof.
  unfold generateSnakesAndLadders. cbv zeta.
  set (g0 := mkGeneration [] ∅ 0 0).
  assert (generation_spread uuid g0) as Hg0.
  { unfold generation_spread, well_spread. simpl. split_and!; try done.
    constructor. }
  destruct (times_places snake (attempts (snake_attempt rnd uuid config) maxAttempts)
              (Z.to_nat (count config / 2)) g0) as (Hg1 & snakes & Hsnakes & Hlen & Hkind);
    [|done|].
  { intros g Hg. apply attempts_places; [|done]. apply snake_attempt_places. }
  set (g1 := times _ _ g0) in *.
  destruct (times_places ladder (attempts (ladder_attempt rnd uuid config) maxAttempts)
              (Z.to_nat (count config - count config / 2)) g1)
    as (Hg2 & ladders & Hladders & Hlen' & Hkind'); [|done|].
  { intros g Hg. apply attempts_places; [|done]. apply ladder_attempt_places. }
  set (g2 := times _ _ g1) in *.
  destruct Hg2 as (_ & _ & Hids & Hspread).
  assert (elements g2 = snakes ++ ladders) as Htable.
  { rewrite Hladders, Hsnakes. done. }
  exists snakes, ladders. split_and!; try done; try lia.
Qed.
End GeneratorSize.

(** ** The hazard factories *)

(** X25: [createSnake] succeeds exactly when the end lies below the start
    and no hazard of the table starts on the same square, [createLadder]
    when the end lies above; a wrong direction is reported before a
    duplicate start.  The hazard made has the id drawn and the two
    positions, and added to a table whose hazards start on distinct squares
    and go the right way it gives such a table again. *)
Theorem hazard_factories uuid from to table :
  (createSnake uuid from to table =
     if from <=? to then Err (InvalidSnakeError from to)
     else if bool_decide (from ∈ Hazard_startPosition <$> table)
          then Err (DuplicateStartPositionError from)
          else Ok (mkSnakeOrLadder uuid snake from to)) /\
  (createLadder uuid from to table =
     if to <=? from then Err (InvalidLadderError from to)
     else if bool_decide (from ∈ Hazard_startPosition <$> table)
          then Err (DuplicateStartPositionError from)
          else Ok (mkSnakeOrLadder uuid ladder from to)) /\
  (NoDup (Hazard_startPosition <$> table) ->
   Forall oriented table ->
   forall element,
     createSnake uuid from to table = Ok element \/
     createLadder uuid from to table = Ok element ->
     NoDup (Hazard_startPosition <$> table ++ [element]) /\
     Forall oriented (table ++ [element])).
Proof.
  assert (forall position,
            checkDuplicateStartPosition position table
            = if bool_decide (position ∈ Hazard_startPosition <$> table)
              then Err (DuplicateStartPositionError position) else Ok tt) as Hcheck.
  { intros position. unfold checkDuplicateStartPosition.
    destruct (decide (Exists _ _)) as [Hex|Hno].
    - rewrite bool_decide_eq_true_2; [done|].
      apply Exists_exists in Hex as (e & He & Hs). apply list_elem_of_fmap.
      exists e. split; [|done]. unfold starts_at in Hs. by rewrite Hs.
    - rewrite bool_decide_eq_false_2; [done|].
      intros (e & He & Hin)%list_elem_of_fmap. apply Hno, Exists_exists.
      exists e. split; [done|]. by unfold starts_at. }
  assert (NoDup (Hazard_startPosition <$> table) ->
          Forall oriented table ->
          forall element kind,
            element = mkSnakeOrLadder uuid kind from to ->
            from ∉ Hazard_startPosition <$> table -> oriented element ->
            NoDup (Hazard_startPosition <$> table ++ [element]) /\
            Forall oriented (table ++ [element])) as Hadd.
  { intros Hnd Horiented element kind -> Hfresh Hor. split.
    - rewrite fmap_app. apply NoDup_app. split_and!; [done| |apply NoDup_singleton].
      intros x Hx ->%list_elem_of_singleton. done.
    - apply Forall_app. split; [done|]. by apply Forall_singleton. }
  split_and!.
  - unfold createSnake, validateSnake. destruct (from <=? to); [done|]. simpl.
    rewrite Hcheck. by destruct (bool_decide _).
  - unfold createLadder, validateLadder. destruct (to <=? from); [done|]. simpl.
    rewrite Hcheck. by destruct (bool_decide _).
  - intros Hnd Horiented element [E|E].
    + apply createSnake_Ok in E as (-> & Hlt & Hfresh).
      apply (Hadd Hnd Horiented _ snake); [done|done|]. unfold oriented. simpl.
      unfold Hazard_startPosition. simpl. lia.
    + apply createLadder_Ok in E as (-> & Hlt & Hfresh).
      apply (Hadd Hnd Horiented _ ladder); [done|done|]. unfold oriented. simpl.
      unfold Hazard_startPosition. simpl. lia.
Qed.

Lemma hazard_factories_witness :
  createSnake "s-2" 40 12 [mkSnakeOrLadder "s-1" snake 40 7]
    = Err (DuplicateStartPositionError 40) /\
  createLadder "l-1" 12 40 [mkSnakeOrLadder "s-1" snake 40 7]
    = Ok (mkSnakeOrLadder "l-1" ladder 12 40) /\
  NoDup (Hazard_startPosition
           <$> [mkSnakeOrLadder "s-1" snake 40 7] ++ [mkSnakeOrLadder "l-1" ladder 12 40]) /\
  Forall oriented
    ([mkSnakeOrLadder "s-1" snake 40 7] ++ [mkSnakeOrLadder "l-1" ladder 12 40]).
Proof.
  assert (NoDup (Hazard_startPosition <$> [mkSnakeOrLadder "s-1" snake 40 7])) as Hnd.
  { apply NoDup_singleton. }
  assert (Forall oriented [mkSnakeOrLadder "s-1" snake 40 7]) as Hor.
  { apply Forall_singleton. unfold oriented. simpl. unfold Hazard_startPosition.
    simpl. lia. }
  destruct (hazard_factories "s-2" 40 12 [mkSnakeOrLadder "s-1" snake 40 7])
    as (Hsnake & _ & _).
  destruct (hazard_factories "l-1" 12 40 [mkSnakeOrLadder "s-1" snake 40 7])
    as (_ & Hladder & Hadd).
  split; [exact Hsnake|]. split; [exact Hladder|].
  apply (Hadd Hnd Hor). right. exact Hladder.
Defined.

(** The factories do not look at the board: a hazard from square 250 to
    square -3 is made as well. *)
Example createSnake_off_board :
  createSnake "s-1" 250 (-3) [] = Ok (mkSnakeOrLadder "s-1" snake 250 (-3)).
Proof. reflexivity. Qed.

(** ** Saving a game and loading it back *)

Lemma JSON_items_plain (f : JSValue -> JSValue) items :
  Forall (fun item => item <> VUndefined) items ->
  JSON_items f items = f <$> items.
Proof.
  induction 1 as [|item items Hitem _ IH]; [done|].
  destruct item; try done; simpl; by rewrite IH.
Qed.

Lemma JSON_value_array {A} (f : A -> JSValue) (l : list A) :
  (forall a, JSON_value (f a) = f a /\ f a <> VUndefined) ->
  JSON_value (VArray (f <$> l)) = VArray (f <$> l).
Proof.
  intros Hf. simpl. f_equal. rewrite JSON_items_plain.
  - rewrite <- list_fmap_compose. apply list_fmap_ext. intros _ a _. apply Hf.
  - apply Forall_fmap, Forall_forall. intros a _. apply Hf.
Qed.

Section SavedFacts.
Opaque Date_toISOString.
Variable new_Date : JSValue -> Date.
Hypothesis new_Date_reads : reads_ISO new_Date.

(** A player written, put through JSON and read back. *)
Lemma player_saved p :
  (forall d, finishTime p = Some d -> valid_Date d) ->
  exists stored loaded,
    serializePlayer Date_toISOString (js_of_Player p) = Ok stored /\
    stored <> VUndefined /\
    deserializePlayer new_Date (JSON_value stored) = Ok loaded /\
    same_fields loaded (js_of_Player p) /\
    get loaded "finishTime" = Ok (from_option VDate VUndefined (finishTime p)) /\
    (id p <> EmptyString -> name p <> EmptyString -> validatePlayer loaded = Ok tt).
Proof.
  intros Hfinish. destruct p as [i n c tid tcol pos fin ft ord].
  simpl in Hfinish.
  assert (ft = None \/ exists t, ft = Some (TimeValue t) /\ valid_time t) as Hft.
  { destruct ft as [d|]; [|by left]. right.
    destruct (Hfinish d eq_refl) as (t & -> & Ht). eauto. }
  clear Hfinish.
  destruct Hft as [-> | (t & -> & Ht)];
    destruct tid as [tid|], tcol as [tcol|];
    unfold serializePlayer, deserializePlayer, js_of_Player;
    (do 2 eexists; split_and!;
     [ cbn; reflexivity
     | done
     | cbn -[truthy Date_toISOString];
       rewrite ?(truthy_ISO Date_toISOString Date_toISOString_nonempty);
       cbn -[Date_toISOString];
       rewrite ?new_Date_reads by done; reflexivity
     | apply same_fields_keys; check_keys ltac:(idtac)
     | reflexivity
     | cbn; intros Hi Hn; unfold validatePlayer; cbn;
       rewrite !bool_decide_eq_false_2 by done; reflexivity ]).
Qed.
Lemma JSON_items_cons (f : JSValue -> JSValue) item items :
  item <> VUndefined -> JSON_items f (item :: items) = f item :: JSON_items f items.
Proof. by destruct item. Qed.

Lemma players_saved ps :
  Forall (fun p => forall d, finishTime p = Some d -> valid_Date d) ps ->
  exists storeds loadeds,
    map_result (serializePlayer Date_toISOString) (js_of_Player <$> ps) = Ok storeds /\
    map_result (deserializePlayer new_Date) (JSON_items JSON_value storeds)
      = Ok loadeds /\
    Forall2 same_fields loadeds (js_of_Player <$> ps) /\
    Forall2 (fun loaded p =>
               get loaded "finishTime"
                 = Ok (from_option VDate VUndefined (finishTime p))) loadeds ps /\
    (Forall (fun p => id p <> EmptyString /\ name p <> EmptyString) ps ->
     exists units, map_result validatePlayer loadeds = Ok units).
Proof.
  induction 1 as [|p ps Hp _ IH].
  { exists [], []. split_and!; try done; try constructor. by exists []. }
  destruct IH as (storeds & loadeds & H1 & H2 & H3 & H4 & H5).
  destruct (player_saved p Hp) as (stored & loaded & P1 & P0 & P2 & P3 & P4 & P5).
  exists (stored :: storeds), (loaded :: loadeds).
  rewrite JSON_items_cons by done.
  cbn [fmap list_fmap map_result].
  rewrite P1, H1, P2, H2.
  split_and!; try done; try by constructor.
  intros [[Hi Hn] Hnamed]%Forall_cons.
  destruct (H5 Hnamed) as [units ->]. rewrite (P5 Hi Hn). by eexists.
Qed.

Lemma JSON_value_teams l :
  JSON_items JSON_value (js_of_Team <$> l) = js_of_Team <$> l.
Proof.
  rewrite JSON_items_plain.
  - rewrite <- list_fmap_compose. by apply list_fmap_ext.
  - by apply Forall_fmap, Forall_forall.
Qed.

Lemma JSON_value_hazards l :
  JSON_items JSON_value (js_of_SnakeOrLadder <$> l) = js_of_SnakeOrLadder <$> l.
Proof.
  rewrite JSON_items_plain.
  - rewrite <- list_fmap_compose. by apply list_fmap_ext.
  - by apply Forall_fmap, Forall_forall.
Qed.

Lemma JSON_value_numbers l :
  JSON_items JSON_value (js_of_Z <$> l) = js_of_Z <$> l.
Proof.
  rewrite JSON_items_plain.
  - rewrite <- list_fmap_compose. by apply list_fmap_ext.
  - by apply Forall_fmap, Forall_forall.
Qed.

(** A state written, put through JSON and read back. *)
Lemma state_saved x :
  valid_GameState x ->
  exists y x',
    serializeState Date_toISOString (js_of_GameState x) = Ok y /\
    deserializeState new_Date (JSON_value y) = Ok x' /\
    same_state x' (js_of_GameState x) /\
    get x' "createdAt" = Ok (VDate (createdAt x)) /\
    get x' "lastUpdatedAt" = Ok (VDate (lastUpdatedAt x)) /\
    (exists loadeds,
       get x' "players" = Ok (VArray loadeds) /\
       Forall2 (fun loaded p =>
                  get loaded "finishTime"
                    = Ok (from_option VDate VUndefined (finishTime p)))
         loadeds (players x)) /\
    (named x -> validateState x' = Ok tt).
Proof.
  intros ((tc & Hc & Htc) & (tu & Hu & Htu) & Hplayers & Hpending).
  destruct (players_saved _ Hplayers) as (storeds & loadeds & H1 & H2 & H3 & H4 & H5).
  destruct x as [gid ps tms sls mt roller target dice dc round turns
                   started finished token wps created updated].
  destruct dc as [maxp pending]. simpl in *. subst created updated.
  assert (pending = PendingNull \/ exists v, pending = PendingValue v) as Hcases.
  { destruct pending; [done|by left|right; by eexists]. }
  clear Hpending.
  destruct Hcases as [-> | [v ->]];
    destruct target as [target|], dice as [dice|], token as [token|];
    (do 2 eexists; split_and!;
     [ unfold serializeState, js_of_GameState; cbn; rewrite H1; cbn; reflexivity
     | unfold deserializeState; cbn -[JSON_items];
       rewrite H2, JSON_value_teams, JSON_value_hazards, JSON_value_numbers;
       cbn; rewrite !new_Date_reads by done; reflexivity
     | unfold js_of_GameState, js_of_DiceConfiguration; cbn;
       eapply same_state_keys; [|reflexivity|reflexivity|exact H3];
       check_keys ltac:(idtac)
     | reflexivity
     | reflexivity
     | exists loadeds; split; [reflexivity|exact H4]
     | intros [Hgid Hnamed]; cbn in Hgid, Hnamed;
       destruct (H5 Hnamed) as [units Hunits];
       unfold validateState; cbn;
       rewrite bool_decide_eq_false_2 by done; cbn;
       rewrite Hunits; reflexivity ]).
Qed.
Transparent Date_toISOString.
End SavedFacts.

(** X26: a game saved is the game loaded: for a valid state whose game id,
    player ids and player names are not empty, on a storage that is
    available and takes the two writes, with a [JSON] that reads the text
    written for the record as the record (members that are [undefined] left
    out), [saveGameState] stores the record and the version, and
    [loadGameState] then returns the state field by field, players
    included, with the same dates, leaving the storage as it is; after
    [clearGameState] it returns [null]. *)
Theorem saveGameState_then_load JSON_parse JSON_stringify fits new_Date x service :
  reads_ISO new_Date ->
  valid_GameState x ->
  named x ->
  isStorageAvailable service = true ->
  (forall store, fits store = true) ->
  (forall y, serializeState Date_toISOString (js_of_GameState x) = Ok y ->
     JSON_stringify y <> EmptyString /\
     JSON_parse (JSON_stringify y) = Some (JSON_value y)) ->
  exists saved x',
    saveGameState JSON_stringify Date_toISOString fits (js_of_GameState x) service
      = saved /\
    localStorage saved !! VERSION_KEY = Some CURRENT_VERSION /\
    loadGameState JSON_parse new_Date saved = (Ok (Some x'), saved) /\
    same_state x' (js_of_GameState x) /\
    get x' "createdAt" = Ok (VDate (createdAt x)) /\
    get x' "lastUpdatedAt" = Ok (VDate (lastUpdatedAt x)) /\
    (exists loadeds,
       get x' "players" = Ok (VArray loadeds) /\
       Forall2 (fun loaded p =>
                  get loaded "finishTime"
                    = Ok (from_option VDate VUndefined (finishTime p)))
         loadeds (players x)) /\
    loadGameState JSON_parse new_Date (clearGameState saved)
      = (Ok None, clearGameState saved).
Proof.
  intros Hreads Hvalid Hnamed Havailable Hfits Hjson.
  destruct (state_saved new_Date Hreads x Hvalid)
    as (y & x' & Hy & Hx' & Hsame & Hc & Hu & Hplayers & Hvalidate).
  destruct (Hjson y Hy) as [Htext Hparse].
  exists (mkStorageService true
            (<[VERSION_KEY := CURRENT_VERSION]>
               (<[STORAGE_KEY := JSON_stringify y]> (localStorage service)))), x'.
  split.
  { unfold saveGameState, setItem. rewrite Havailable. cbn [negb].
    rewrite Hy, Hfits, Hfits. done. }
  split_and!; try done.
  - simpl. apply lookup_insert_eq.
  - unfold loadGameState, loadGameState_try. cbn [isStorageAvailable localStorage negb].
    rewrite lookup_insert_ne by done. rewrite lookup_insert_eq.
    rewrite bool_decide_eq_false_2 by done.
    rewrite Hparse, Hx'. cbn [mbind Result_bind].
    by rewrite (Hvalidate Hnamed).
  - unfold loadGameState, loadGameState_try, clearGameState.
    cbn [isStorageAvailable localStorage negb].
    rewrite lookup_delete_ne by done. by rewrite lookup_delete_eq.
Qed.

Lemma saveGameState_then_load_witness :
  exists saved x',
    saveGameState stringify_saved Date_toISOString (fun _ => true)
      (js_of_GameState bob_finished) (mkStorageService true ∅) = saved /\
    loadGameState (parse_saved bob_finished) Date_of saved = (Ok (Some x'), saved) /\
    same_state x' (js_of_GameState bob_finished).
Proof.
  destruct (saveGameState_then_load (parse_saved bob_finished) stringify_saved
              (fun _ => true) Date_of bob_finished (mkStorageService true ∅)
              reads_ISO_Date_of valid_GameState_bob_finished)
    as (saved & x' & Hsaved & _ & Hload & Hsame & _).
  - split; [done|]. repeat constructor; done.
  - reflexivity.
  - reflexivity.
  - intros y Hy. split; [done|]. unfold parse_saved, stringify_saved.
    rewrite decide_True by done. by rewrite Hy.
  - exists saved, x'. done.
Defined.

(** X27: what [loadGameState] does, for any [JSON.parse] and [Date]
    constructor: it returns, leaving the storage as it is, or throws a
    [CorruptedStateError] and nothing else; what it returns passes
    [validateState]; it returns [null] when the storage is not available,
    holds no record or an empty one, and always after [clearGameState]; a
    record that does not parse makes it throw and remove the record and the
    version, so that the next call returns [null]; and the version stored
    has no influence on the result. *)
Theorem loadGameState_outcomes JSON_parse new_Date service :
  ((exists loaded,
      loadGameState JSON_parse new_Date service = (Ok loaded, service) /\
      forall state, loaded = Some state -> validateState state = Ok tt) \/
   (exists reason,
      loadGameState JSON_parse new_Date service
        = (Err (CorruptedStateError reason), service) \/
      loadGameState JSON_parse new_Date service
        = (Err (CorruptedStateError reason), clearGameState service))) /\
  (isStorageAvailable service = false \/
   localStorage service !! STORAGE_KEY = None \/
   localStorage service !! STORAGE_KEY = Some EmptyString ->
   loadGameState JSON_parse new_Date service = (Ok None, service)) /\
  loadGameState JSON_parse new_Date (clearGameState service)
    = (Ok None, clearGameState service) /\
  (forall text,
     isStorageAvailable service = true ->
     localStorage service !! STORAGE_KEY = Some text ->
     text <> EmptyString -> JSON_parse text = None ->
     exists reason,
       loadGameState JSON_parse new_Date service
         = (Err (CorruptedStateError reason), clearGameState service) /\
       localStorage (clearGameState service) !! STORAGE_KEY = None /\
       localStorage (clearGameState service) !! VERSION_KEY = None) /\
  (forall version,
     (loadGameState JSON_parse new_Date
        (mkStorageService (isStorageAvailable service)
           (<[VERSION_KEY := version]> (localStorage service)))).1
     = (loadGameState JSON_parse new_Date service).1).
Proof.
  split_and!.
  - unfold loadGameState.
    destruct (isStorageAvailable service); cbn [negb].
    2:{ left. exists None. by split. }
    destruct (loadGameState_try JSON_parse new_Date service) as [loaded|e] eqn:E.
    + left. exists loaded. split; [done|]. intros state ->.
      unfold loadGameState_try in E.
      destruct (localStorage service !! STORAGE_KEY) as [text|]; [|done].
      destruct (bool_decide _); [done|].
      destruct (JSON_parse text) as [parsed|]; [|done].
      destruct (deserializeState new_Date parsed) as [state'|]; [|done].
      simpl in E. destruct (validateState state') as [[]|] eqn:Hv; [|done].
      simpl in E. by injection E as <-.
    + right. destruct e; eauto.
  - unfold loadGameState, loadGameState_try.
    intros [->|[->| ->]]; [done| |].
    + by destruct (isStorageAvailable service).
    + by destruct (isStorageAvailable service).
  - unfold loadGameState, loadGameState_try, clearGameState.
    destruct (isStorageAvailable service) eqn:Havailable;
      cbn [negb isStorageAvailable localStorage]; rewrite ?Havailable; cbn [negb].
    + rewrite lookup_delete_ne by done. by rewrite lookup_delete_eq.
    + done.
  - intros text Havailable Hrecord Htext Hparse.
    eexists. split; [|by apply clearGameState_cleared].
    unfold loadGameState, loadGameState_try.
    rewrite Havailable, Hrecord, bool_decide_eq_false_2, Hparse by done.
    reflexivity.
  - intros version. unfold loadGameState, loadGameState_try.
    cbn [isStorageAvailable localStorage].
    rewrite lookup_insert_ne by done.
    destruct (isStorageAvailable service); cbn [negb]; [|done].
    destruct (localStorage service !! STORAGE_KEY) as [text|]; [|done].
    destruct (bool_decide _); [done|].
    destruct (JSON_parse text) as [parsed|]; [|done].
    destruct (deserializeState new_Date parsed) as [state|[]]; try done.
    simpl. destruct (validateState state) as [[]|[]]; done.
Qed.


(** ** Notifications *)

Module NotificationFacts.
Import Notifications.

Lemma removeNotification_tidy notificationId service :
  tidy service ->
  tidy (removeNotification notificationId service) /\
  notificationId ∉ id <$> notifications (removeNotification notificationId service).
Proof.
  intros (Hnd & Htimers & Hlen).
  assert (notifications (clearTimeout notificationId service) = notifications service
          /\ timeoutMap (clearTimeout notificationId service)
             = timeoutMap service ∖ {[notificationId]}) as [Hn Ht].
  { unfold clearTimeout. destruct (decide _) as [|Hout]; simpl; [done|].
    split; [done|]. apply set_eq. intros x. rewrite elem_of_difference,
      elem_of_singleton. split; [|tauto]. intros Hx. split; [done|]. by intros ->. }
  unfold removeNotification, tidy. cbv zeta. cbn [notifications timeoutMap].
  rewrite Hn, Ht, Htimers. split; [split_and!|].
  - by apply NoDup_fmap_filter.
  - apply set_eq. intros x.
    rewrite elem_of_difference, !elem_of_list_to_set, elem_of_singleton,
      !list_elem_of_fmap. split.
    + intros [(n & -> & Hin) Hne]. exists n. split; [done|].
      by apply list_elem_of_filter.
    + intros (n & -> & [Hne Hin]%list_elem_of_filter). split; [by exists n|done].
  - pose proof (length_filter (fun n => id n <> notificationId)
                  (notifications service)). lia.
  - intros (n & -> & [Hne _]%list_elem_of_filter)%list_elem_of_fmap. done.
Qed.

Lemma show_tidy newId now message options service :
  tidy service ->
  newId ∉ id <$> notifications service ->
  tidy (show newId now message options service).2 /\
  exists kept,
    notifications (show newId now message options service).2
      = kept ++ [mkNotification newId message (default info (option_type options))
                   (or_number (option_duration options) DEFAULT_DURATION) now] /\
    (if MAX_NOTIFICATIONS <=? Z.of_nat (length (notifications service))
     then kept = drop 1 (notifications service)
     else kept = notifications service).
Proof.
  intros (Hnd & Htimers & Hlen) Hfresh.
  unfold show, scheduleRemoval, addNotification, tidy. cbv zeta.
  cbn [snd notifications timeoutMap id].
  destruct (Z.leb_spec MAX_NOTIFICATIONS (Z.of_nat (length (notifications service))))
    as [Hfull|Hroom].
  - destruct (notifications service) as [|oldest rest] eqn:Hcurrent.
    { unfold MAX_NOTIFICATIONS in Hfull. cbn [length] in Hfull. lia. }
    cbn [drop notifications timeoutMap]. rewrite drop_0.
    assert (timeoutMap (clearTimeout (id oldest) service)
            = list_to_set (id <$> rest)) as ->.
    { simpl in Hnd. apply NoDup_cons in Hnd as [Hout _].
      unfold clearTimeout. rewrite Htimers. simpl.
      rewrite decide_True by (apply elem_of_union; left; by apply elem_of_singleton).
      simpl. rewrite ?Hcurrent. simpl. apply set_eq. intros x.
      rewrite elem_of_difference, elem_of_union, elem_of_singleton,
        !elem_of_list_to_set.
      split.
      - intros [[->|Hx] Hne]; [by destruct Hne|done].
      - intros Hx. split; [by right|]. by intros ->. }
    simpl in Hnd, Hfresh. cbn [length] in Hlen. apply NoDup_cons in Hnd as [_ Hnd].
    apply not_elem_of_cons in Hfresh as [_ Hfresh].
    split; [split_and!|].
    + rewrite fmap_app. apply NoDup_app. split_and!; [done| |apply NoDup_singleton].
      intros x Hx ->%list_elem_of_singleton. done.
    + rewrite fmap_app, list_to_set_app_L. simpl. rewrite union_empty_r_L.
      apply (comm_L (∪)).
    + rewrite length_app. cbn [length]. unfold MAX_NOTIFICATIONS in *. lia.
    + by eexists.
  - split; [split_and!|].
    + rewrite fmap_app. apply NoDup_app. split_and!; [done| |apply NoDup_singleton].
      intros x Hx ->%list_elem_of_singleton. done.
    + rewrite Htimers, fmap_app, list_to_set_app_L. simpl. rewrite union_empty_r_L.
      apply (comm_L (∪)).
    + rewrite length_app. cbn [length]. unfold MAX_NOTIFICATIONS in *. lia.
    + by eexists.
Qed.

Lemma happen_tidy event service :
  tidy service -> fresh_ids [event] service -> tidy (happen event service).
Proof.
  intros Htidy [Hfresh _].
  destruct event as [newId now text options|newId now text duration|i| |i];
    cbn [happen].
  - by apply (show_tidy newId now text options service).
  - by apply (show_tidy newId now text
                (mkOptions (Some error) (Some (or_number duration 5000))) service).
  - by apply (removeNotification_tidy i service).
  - unfold tidy. simpl. split_and!; [constructor|done|]. unfold MAX_NOTIFICATIONS. lia.
  - destruct (decide _); [by apply (removeNotification_tidy i service)|done].
Qed.

(** X29: the notification service never shows more than five
    notifications and keeps one timer for each: starting from a service in
    that state (the empty one is), with ids that are new when they are
    generated, after any sequence of notifications shown, dismissed and
    timed out the notifications have distinct ids, are at most five, and the
    ids with a timer are exactly their ids.  [show] puts the notification
    last, dropping the oldest one when five are on display, and returns its
    id; a notification dismissed or timed out is gone. *)
Theorem notifications_stay_tidy events service :
  tidy service ->
  fresh_ids events service ->
  tidy (foldl (fun s event => happen event s) service events) /\
  (forall newId now text options,
     newId ∉ id <$> notifications service ->
     (show newId now text options service).1 = newId /\
     last (notifications (show newId now text options service).2)
       = Some (mkNotification newId text (default info (option_type options))
                 (or_number (option_duration options) DEFAULT_DURATION) now) /\
     (Z.of_nat (length (notifications service)) < MAX_NOTIFICATIONS ->
      notifications (show newId now text options service).2
        = notifications service
          ++ [mkNotification newId text (default info (option_type options))
                (or_number (option_duration options) DEFAULT_DURATION) now]) /\
     (MAX_NOTIFICATIONS <= Z.of_nat (length (notifications service)) ->
      notifications (show newId now text options service).2
        = drop 1 (notifications service)
          ++ [mkNotification newId text (default info (option_type options))
                (or_number (option_duration options) DEFAULT_DURATION) now])) /\
  (forall i, i ∉ id <$> notifications (dismiss i service)).
Proof.
  intros Htidy Hfresh. split_and!.
  - revert service Htidy Hfresh.
    induction events as [|event events IH]; intros service Htidy Hfresh; [done|].
    simpl. destruct Hfresh as [Hfresh Hrest]. apply IH; [|done].
    apply happen_tidy; [done|]. by split.
  - intros newId now text options Hnew.
    destruct (show_tidy newId now text options service Htidy Hnew)
      as (_ & kept & Hshown & Hkept).
    split_and!; [done| | |].
    + rewrite Hshown. apply last_snoc.
    + intros Hroom. rewrite Hshown.
      destruct (Z.leb_spec MAX_NOTIFICATIONS
                  (Z.of_nat (length (notifications service)))); [lia|].
      by rewrite Hkept.
    + intros Hfull. rewrite Hshown.
      destruct (Z.leb_spec MAX_NOTIFICATIONS
                  (Z.of_nat (length (notifications service)))); [|lia].
      by rewrite Hkept.
  - intros i. by apply removeNotification_tidy.
Qed.

Lemma notifications_stay_tidy_witness :
  tidy (foldl (fun s event => happen event s) (mkNotificationService [] ∅)
          [Show "n-1" t0 "one" (mkOptions None None);
           Show "n-2" t0 "two" (mkOptions (Some warning) (Some 0));
           Show_error "n-3" t1 "three" None;
           Dismiss "n-1"; Timer "n-1"; Timer "n-3";
           Show "n-1" t1 "four" (mkOptions None (Some 1000))]).
Proof.
  refine (proj1 (notifications_stay_tidy _ (mkNotificationService [] ∅) _ _)).
  - unfold tidy. simpl. split_and!; [constructor|done|]. unfold MAX_NOTIFICATIONS. lia.
  - simpl. split_and!; try done; apply (bool_decide_unpack _); vm_compute; exact I.
Defined.
End NotificationFacts.

(** ** The dice forms and the service *)

Lemma form_checks_validateMaxPoints n :
  negb (truthy (VNumber n)) || is_NaN n = false ->
  Number_isInteger n = true ->
  less_than n 1 = false ->
  validateMaxPoints n = true.
Proof.
  intros _ Hint Hlt. unfold validateMaxPoints. rewrite Hint. simpl.
  destruct n as [q| | |]; try done. simpl in *.
  by apply negb_false_iff in Hlt.
Qed.

Lemma validateMaxPoints_form_checks n :
  validateMaxPoints n = true ->
  negb (truthy (VNumber n)) || is_NaN n = false /\
  Number_isInteger n = true /\
  less_than n 1 = false /\
  (forall z, is_number_Z n z = bool_decide (integer_of n = z)).
Proof.
  intros Hvalid. pose proof Hvalid as Hboth.
  unfold validateMaxPoints in Hboth. apply andb_true_iff in Hboth as [Hint Hone].
  destruct n as [q| | |]; try done.
  apply validateMaxPoints_Finite in Hvalid as (v & Hq & Hv).
  simpl in *. split_and!.
  - rewrite orb_false_r. apply negb_false_iff, negb_true_iff.
    destruct (Qeq_bool q 0) eqn:E; [|done]. apply Qeq_bool_iff in E.
    rewrite E in Hq. unfold Qeq in Hq. simpl in Hq. lia.
  - done.
  - apply negb_false_iff. exact Hone.
  - intros z. rewrite (Qfloor_comp _ _ Hq), Qfloor_Z.
    destruct (decide (v = z)) as [->|Hne].
    + rewrite bool_decide_eq_true_2 by done. by apply Qeq_bool_iff.
    + rewrite bool_decide_eq_false_2 by done.
      destruct (Qeq_bool q (inject_Z z)) eqn:E; [|done].
      apply Qeq_bool_iff in E. rewrite Hq in E. unfold Qeq in E. simpl in E. lia.
Qed.

(** X30: the dice forms accept exactly the numbers the service accepts,
    less the ones that change nothing: [isValidConfig] returns true for an
    integer of at least 1 that differs from the current [maxPoints], the
    modal's check for one that differs from the staged value as well (and
    from the current one when nothing is staged).  An accepted number is
    never refused by the service: on an initialized game [applyConfig] and
    [applyConfigImmediate] make it the current [maxPoints], and
    [applyConfigFromModal] stages it, leaving the current one. *)
Theorem dice_forms_agree_with_service now maxPoints currentMaxPoints
    pendingMaxPoints state :
  ((isValidConfig maxPoints currentMaxPoints).1 = true <->
   exists n, maxPoints = Some n /\ validateMaxPoints n = true /\
             integer_of n <> currentMaxPoints) /\
  ((isValidModalConfig maxPoints currentMaxPoints pendingMaxPoints).1 = true <->
   exists n, maxPoints = Some n /\ validateMaxPoints n = true /\
             pendingMaxPoints <> Some (integer_of n) /\
             (pendingMaxPoints = None -> integer_of n <> currentMaxPoints)) /\
  (forall n, maxPoints = Some n ->
     (isValidConfig maxPoints currentMaxPoints).1 = true ->
     exists state',
       applyConfig now maxPoints currentMaxPoints (Some state) = Some state' /\
       diceConfig state'
         = with_maxPoints (diceConfig state) (integer_of n) /\
       1 <= integer_of n) /\
  (forall n, maxPoints = Some n ->
     (isValidModalConfig maxPoints currentMaxPoints pendingMaxPoints).1 = true ->
     exists staged installed,
       applyConfigFromModal now maxPoints currentMaxPoints pendingMaxPoints
         (Some state) = Some staged /\
       diceConfig staged
         = with_pendingMaxPoints (diceConfig state) (PendingValue (integer_of n)) /\
       applyConfigImmediate now maxPoints currentMaxPoints pendingMaxPoints
         (Some state) = Some installed /\
       diceConfig installed = with_maxPoints (diceConfig state) (integer_of n) /\
       1 <= integer_of n).
Proof.
  assert ((isValidConfig maxPoints currentMaxPoints).1 = true <->
          exists n, maxPoints = Some n /\ validateMaxPoints n = true /\
                    integer_of n <> currentMaxPoints) as Hform.
  { unfold isValidConfig. destruct maxPoints as [n|].
    2:{ split; [done|]. by intros (? & ? & _). }
    split.
    - destruct (_ || _) eqn:H1; [done|].
      destruct (Number_isInteger n) eqn:H2; [|done]. cbn [negb].
      destruct (less_than n 1) eqn:H3; [done|].
      pose proof (form_checks_validateMaxPoints n H1 H2 H3) as Hvalid.
      destruct (validateMaxPoints_form_checks n Hvalid) as (_ & _ & _ & Heq).
      rewrite Heq. destruct (bool_decide _) eqn:H4; [done|].
      apply bool_decide_eq_false in H4. intros _. by exists n.
    - intros (? & [= <-] & Hvalid & Hne).
      destruct (validateMaxPoints_form_checks n Hvalid) as (-> & -> & -> & ->).
      cbn [negb]. by rewrite bool_decide_eq_false_2. }
  assert ((isValidModalConfig maxPoints currentMaxPoints pendingMaxPoints).1 = true <->
          exists n, maxPoints = Some n /\ validateMaxPoints n = true /\
                    pendingMaxPoints <> Some (integer_of n) /\
                    (pendingMaxPoints = None -> integer_of n <> currentMaxPoints))
    as Hmodal.
  { unfold isValidModalConfig. destruct maxPoints as [n|].
    2:{ split; [done|]. by intros (? & ? & _). }
    split.
    - destruct (_ || _) eqn:H1; [done|].
      destruct (Number_isInteger n) eqn:H2; [|done]. cbn [negb].
      destruct (less_than n 1) eqn:H3; [done|].
      pose proof (form_checks_validateMaxPoints n H1 H2 H3) as Hvalid.
      destruct (validateMaxPoints_form_checks n Hvalid) as (_ & _ & _ & Heq).
      rewrite Heq.
      destruct pendingMaxPoints as [pending|].
      + rewrite (bool_decide_eq_false_2 (Some pending = None)) by done.
        rewrite andb_false_r, Heq.
        destruct (bool_decide _) eqn:H4; [done|].
        apply bool_decide_eq_false in H4. intros _. exists n.
        split_and!; try done. congruence.
      + rewrite (bool_decide_eq_true_2 (None = None)) by done.
        rewrite andb_true_r. destruct (bool_decide _) eqn:H4; [done|].
        apply bool_decide_eq_false in H4. intros _. by exists n.
    - intros (? & [= <-] & Hvalid & Hpending & Hcurrent).
      destruct (validateMaxPoints_form_checks n Hvalid) as (-> & -> & -> & Heq).
      cbn [negb]. rewrite Heq.
      destruct pendingMaxPoints as [pending|].
      + rewrite (bool_decide_eq_false_2 (Some pending = None)) by done.
        rewrite andb_false_r, Heq. rewrite bool_decide_eq_false_2; [done|].
        congruence.
      + rewrite (bool_decide_eq_false_2 (integer_of n = currentMaxPoints)); [done|].
        by apply Hcurrent. }
  split_and!; [done|done| |].
  - intros n -> Haccepted. pose proof Haccepted as Hvalid.
    apply Hform in Hvalid as (? & [= <-] & Hvalid & _).
    unfold applyConfig. rewrite Haccepted. unfold updateDiceConfig.
    rewrite Hvalid. simpl. eexists. split_and!; [done|done|].
    by apply validateMaxPoints_at_least_one.
  - intros n -> Haccepted. pose proof Haccepted as Hvalid.
    apply Hmodal in Hvalid as (? & [= <-] & Hvalid & _).
    unfold applyConfigFromModal, applyConfigImmediate. rewrite Haccepted.
    unfold updateDiceConfigPending, updateDiceConfig. rewrite Hvalid. simpl.
    do 2 eexists. split_and!; [done|done|done|done|].
    by apply validateMaxPoints_at_least_one.
Qed.
